(** * Legal document splitter: a shallow embedding and its properties

    The development follows the Python sources file by file:
    - [PyStr]      Python [str] values as lists of Unicode code points, with
                   the string methods and the [re] character classes the
                   sources rely on;
    - [Extractors] [extractors.py] (format dispatch of [TextExtractor]);
    - [Processor]  [processor.py] (segmentation, keyword extraction, filename
                   synthesis, markdown writer, per-document pipeline);
    - [PyFloat]    the [float] arithmetic of the progress percentage
                   (IEEE 754 binary64, as rationals with their rounding);
    - [PathLib]    the pure paths of [pathlib] on POSIX;
    - [Main]       [main.py] (the job record and the background worker);
    - [Api]        [main.py] (the registry of jobs and the endpoints).

    Everything that the sources obtain from the outside (the SpaCy pipeline,
    the DOCX/PDF readers, the file system) enters as a Section variable, so
    every statement holds for all behaviours of these collaborators. *)

From Stdlib Require Import String Ascii List NArith ZArith Bool Lia Permutation Sorted.
From Stdlib Require QArith Qround Qpower Lqa.
Import ListNotations.


(* ================================================================== *)
(** ** Python strings *)
(* ================================================================== *)

Module PyStr.

Local Open Scope N_scope.

(** A code point, and a Python [str]: [len] counts code points. *)
Definition cp := N.
Definition pystr := list cp.

Definition len (s : pystr) : Z := Z.of_nat (length s).

Definition str_eqb (a b : pystr) : bool :=
  if list_eq_dec N.eq_dec a b then true else false.

(** Python truthiness of a string and of an optional string. *)
Definition truthy (s : pystr) : bool :=
  match s with [] => false | _ => true end.

Definition truthy_opt (o : option pystr) : bool :=
  match o with Some s => truthy s | None => false end.

(** *** String literals

    Literals of this file are written as UTF-8 and decoded to code points. *)

Definition byte_val (a : ascii) : N := N_of_ascii a.

Fixpoint utf8_decode (bs : list N) : pystr :=
  match bs with
  | [] => []
  | b0 :: r0 =>
      if b0 <? 128 then b0 :: utf8_decode r0
      else if b0 <? 224 then
        match r0 with
        | b1 :: r1 => ((b0 - 192) * 64 + (b1 - 128)) :: utf8_decode r1
        | _ => []
        end
      else if b0 <? 240 then
        match r0 with
        | b1 :: b2 :: r2 =>
            ((b0 - 224) * 4096 + (b1 - 128) * 64 + (b2 - 128)) :: utf8_decode r2
        | _ => []
        end
      else
        match r0 with
        | b1 :: b2 :: b3 :: r3 =>
            ((b0 - 240) * 262144 + (b1 - 128) * 4096 + (b2 - 128) * 64 + (b3 - 128))
              :: utf8_decode r3
        | _ => []
        end
  end.

Definition py (s : string) : pystr :=
  utf8_decode (map byte_val (list_ascii_of_string s)).

(** *** Character classes of [re] and [str]

    [\s] and [str.strip] use the same predicate ([str.isspace]); [\d] is
    [str.isdecimal], the Unicode category Nd; [.] is everything but a line
    feed (no DOTALL flag anywhere in the sources). *)

Definition in_range (c : cp) (r : N * N) : bool :=
  (fst r <=? c) && (c <=? snd r).

Definition space_ranges : list (N * N) :=
  [ (0x09, 0x0D); (0x1C, 0x20); (0x85, 0x85); (0xA0, 0xA0);
    (0x1680, 0x1680); (0x2000, 0x200A); (0x2028, 0x2029);
    (0x202F, 0x202F); (0x205F, 0x205F); (0x3000, 0x3000) ].

Definition is_space (c : cp) : bool := existsb (in_range c) space_ranges.

(** First code point of each run of ten decimal digits, and the one longer
    run of mathematical digits. *)
Definition digit_decades : list N :=
  [ 0x30; 0x660; 0x6F0; 0x7C0; 0x966; 0x9E6; 0xA66; 0xAE6; 0xB66; 0xBE6;
    0xC66; 0xCE6; 0xD66; 0xDE6; 0xE50; 0xED0; 0xF20; 0x1040; 0x1090;
    0x17E0; 0x1810; 0x1946; 0x19D0; 0x1A80; 0x1A90; 0x1B50; 0x1BB0;
    0x1C40; 0x1C50; 0xA620; 0xA8D0; 0xA900; 0xA9D0; 0xA9F0; 0xAA50;
    0xABF0; 0xFF10; 0x104A0; 0x10D30; 0x11066; 0x110F0; 0x11136; 0x111D0;
    0x112F0; 0x11450; 0x114D0; 0x11650; 0x116C0; 0x11730; 0x118E0;
    0x11950; 0x11C50; 0x11D50; 0x11DA0; 0x16A60; 0x16AC0; 0x16B50;
    0x1E140; 0x1E2F0; 0x1E950; 0x1FBF0 ].

Definition digit_ranges : list (N * N) :=
  (0x1D7CE, 0x1D7FF) :: map (fun lo => (lo, lo + 9)) digit_decades.

Definition is_digit (c : cp) : bool := existsb (in_range c) digit_ranges.

Definition LF : cp := 10.
Definition DOT : cp := 46.
Definition SPACE : cp := 32.
Definition UNDERSCORE : cp := 95.
Definition SLASH : cp := 47.

Definition is_dot_any (c : cp) : bool := negb (c =? LF).

(** *** [str] methods *)

Fixpoint lstrip (s : pystr) : pystr :=
  match s with
  | c :: r => if is_space c then lstrip r else s
  | [] => []
  end.

Definition rstrip (s : pystr) : pystr := rev (lstrip (rev s)).

Definition strip (s : pystr) : pystr := rstrip (lstrip s).

(** [sep.join(parts)] *)
Fixpoint join (sep : pystr) (parts : list pystr) : pystr :=
  match parts with
  | [] => []
  | [p] => p
  | p :: r => p ++ sep ++ join sep r
  end.

(** [s[:n]] for an [int] [n]: a negative bound counts from the end. *)
Definition slice_to {A} (l : list A) (n : Z) : list A :=
  if (n <? 0)%Z
  then firstn (length l - Z.to_nat (- n)) l
  else firstn (Z.to_nat n) l.

Fixpoint startswith (s pre : pystr) : bool :=
  match pre, s with
  | [], _ => true
  | p :: pr, c :: r => (c =? p) && startswith r pr
  | _ :: _, [] => false
  end.

Definition endswith (s suf : pystr) : bool := startswith (rev s) (rev suf).

(** [needle in s] *)
Fixpoint contains (s needle : pystr) : bool :=
  startswith s needle ||
  match s with
  | [] => false
  | _ :: r => contains r needle
  end.

(** [s.replace(a, b)] for single characters. *)
Definition replace_char (a b : cp) (s : pystr) : pystr :=
  map (fun c => if c =? a then b else c) s.

(** [str(n)] for a non-negative integer. *)
Fixpoint digits_fuel (fuel : nat) (n : N) (acc : pystr) : pystr :=
  match fuel with
  | O => acc
  | S f =>
      let acc' := (48 + n mod 10) :: acc in
      if n <? 10 then acc' else digits_fuel f (n / 10) acc'
  end.

Definition str_of_N (n : N) : pystr := digits_fuel (S (N.to_nat (N.log2 n))) n [].

Definition str_of_nat (n : nat) : pystr := str_of_N (N.of_nat n).

(** *** [str.lower]

    ASCII letters are mapped as usual.  The lower-case form of a code point
    outside ASCII comes from the interpreter's Unicode database and may depend
    on its position (final sigma); it is a parameter: [unicode_lower s i] is
    the lower-case form of the non-ASCII code point at index [i] of [s]. *)
Section Lower.
Variable unicode_lower : pystr -> nat -> pystr.

Definition ascii_lower (c : cp) : cp :=
  if (65 <=? c) && (c <=? 90) then c + 32 else c.

Fixpoint lower_from (s : pystr) (i : nat) (rest : pystr) : pystr :=
  match rest with
  | [] => []
  | c :: t =>
      (if c <? 128 then [ascii_lower c] else unicode_lower s i)
        ++ lower_from s (S i) t
  end.

Definition str_lower (s : pystr) : pystr := lower_from s 0 s.
End Lower.

End PyStr.

(* ================================================================== *)
(** ** Exceptions *)
(* ================================================================== *)

Module Exn.
Import PyStr.

(** A raised exception (always an instance of [Exception]).  The sources raise
    one exception of their own, the [ValueError] of [extract_text]; every
    other one comes out of a library and is known by its [str(e)] only. *)
Inductive pyexn : Type :=
| UnsupportedFormat (file_path : pystr)
| LibraryError (message : pystr).

Definition unsupported_prefix : pystr := Eval cbv in py "Unsupported file format: ".

Definition exn_str (e : pyexn) : pystr :=
  match e with
  | UnsupportedFormat file_path => unsupported_prefix ++ file_path
  | LibraryError message => message
  end.

(** The outcome of a call: a value or a raised exception. *)
Inductive result (A : Type) : Type :=
| Ok (a : A)
| Raise (e : pyexn).
Arguments Ok {A} a.
Arguments Raise {A} e.

Definition bind {A B} (r : result A) (k : A -> result B) : result B :=
  match r with
  | Ok a => k a
  | Raise e => Raise e
  end.

(** A call into a library: its value, or the [str(e)] of the exception it
    raises. *)
Definition call {A} (r : pystr + A) : result A :=
  match r with
  | inl message => Raise (LibraryError message)
  | inr a => Ok a
  end.

Definition raised (o : option pystr) : option pyexn := option_map LibraryError o.

Fixpoint mapM {A B} (f : A -> result B) (l : list A) : result (list B) :=
  match l with
  | [] => Ok []
  | a :: t => bind (f a) (fun b => bind (mapM f t) (fun bs => Ok (b :: bs)))
  end.

End Exn.

Notation "x <- c1 ;; c2" := (Exn.bind c1 (fun x => c2))
  (at level 61, c1 at next level, right associativity).

(* ================================================================== *)
(** ** os.path (POSIX) *)
(* ================================================================== *)

Module OsPath.
Import PyStr.
Local Open Scope N_scope.

(** [p.rfind(c)]: the index of the last occurrence, or -1. *)
Fixpoint rfind_from (c : cp) (p : pystr) (i : Z) (last : Z) : Z :=
  match p with
  | [] => last
  | x :: t => rfind_from c t (i + 1)%Z (if x =? c then i else last)
  end.

Definition rfind (c : cp) (p : pystr) : Z := rfind_from c p 0%Z (-1)%Z.

(** [p[a:b]] for indices within range. *)
Definition substr (p : pystr) (a b : Z) : pystr :=
  firstn (Z.to_nat (b - a)) (skipn (Z.to_nat a) p).

(** [os.path.splitext]: the extension starts at the last dot of the last
    component, unless that component has only dots before it. *)
Definition splitext (p : pystr) : pystr * pystr :=
  let sepIndex := rfind SLASH p in
  let dotIndex := rfind DOT p in
  if (sepIndex <? dotIndex)%Z
     && existsb (fun c => negb (c =? DOT)) (substr p (sepIndex + 1) dotIndex)
  then (firstn (Z.to_nat dotIndex) p, skipn (Z.to_nat dotIndex) p)
  else (p, []).

(** [os.path.basename] *)
Definition basename (p : pystr) : pystr :=
  skipn (Z.to_nat (rfind SLASH p + 1)) p.

(** [os.path.join(a, b)] *)
Definition join2 (a b : pystr) : pystr :=
  if startswith b [SLASH] then b
  else if negb (truthy a) || endswith a [SLASH] then a ++ b
  else a ++ [SLASH] ++ b.

End OsPath.

(* ================================================================== *)
(** ** extractors.py *)
(* ================================================================== *)

Module Extractors.
Import PyStr Exn.
Local Open Scope N_scope.

Section TextExtractor.
Variable unicode_lower : pystr -> nat -> pystr.

(** [DocxDocument(file_path).paragraphs], as the texts of the paragraphs. *)
Variable docx_paragraphs : pystr -> pystr + list pystr.

(** [pdfplumber.open(file_path).pages], as the [extract_text()] of each
    page ([None] where a page has none). *)
Variable pdf_pages : pystr -> pystr + list (option pystr).

Definition extract_from_docx (file_path : pystr) : result pystr :=
  paras <- call (docx_paragraphs file_path) ;;
  Ok (join [LF] paras).

Definition extract_from_pdf (file_path : pystr) : result pystr :=
  pages <- call (pdf_pages file_path) ;;
  Ok (join [LF]
        (flat_map (fun text => match text with
                               | Some t => if truthy t then [t] else []
                               | None => []
                               end) pages)).

Definition ext_docx : pystr := Eval cbv in py ".docx".
Definition ext_pdf : pystr := Eval cbv in py ".pdf".

Definition extract_text (file_path : pystr) : result pystr :=
  let file_path_lower := str_lower unicode_lower file_path in
  if endswith file_path_lower ext_docx then extract_from_docx file_path
  else if endswith file_path_lower ext_pdf then extract_from_pdf file_path
  else Raise (UnsupportedFormat file_path).

End TextExtractor.

End Extractors.

(* ================================================================== *)
(** ** Regular expressions of the [re] module *)
(* ================================================================== *)

Module Re.
Import PyStr.
Local Open Scope N_scope.

(** The fragment of pattern syntax that occurs in the sources. *)
Inductive re : Type :=
| Eps
| Chr (p : cp -> bool)        (* one character of a class, or a literal *)
| Seq (a b : re)
| Opt (a : re)                (* [a?],  greedy *)
| Star (a : re).              (* [a*],  greedy *)

Definition Plus (a : re) : re := Seq a (Star a).

Fixpoint seq_all (rs : list re) : re :=
  match rs with
  | [] => Eps
  | r :: t => Seq r (seq_all t)
  end.

(** All ways a pattern matches a prefix of the subject, in the order in which
    the backtracking matcher explores them: (matched text, remaining text).
    The match that [re] reports is the first one. *)
Fixpoint star_matches (f : pystr -> list (pystr * pystr)) (fuel : nat) (s : pystr)
  : list (pystr * pystr) :=
  match fuel with
  | O => [([], s)]
  | S k =>
      flat_map
        (fun ms =>
           match fst ms with
           | [] => []
           | _ :: _ =>
               map (fun ms' => (fst ms ++ fst ms', snd ms')) (star_matches f k (snd ms))
           end)
        (f s)
      ++ [([], s)]
  end.

Fixpoint matches (r : re) (s : pystr) : list (pystr * pystr) :=
  match r with
  | Eps => [([], s)]
  | Chr p =>
      match s with
      | c :: t => if p c then [([c], t)] else []
      | [] => []
      end
  | Seq a b =>
      flat_map
        (fun ms => map (fun ms' => (fst ms ++ fst ms', snd ms')) (matches b (snd ms)))
        (matches a s)
  | Opt a => matches a s ++ [([], s)]
  | Star a => star_matches (matches a) (S (length s)) s
  end.

(** [pattern.match(s)]: [Some (group(0), rest)] or [None]. *)
Definition re_match (r : re) (s : pystr) : option (pystr * pystr) :=
  hd_error (matches r s).

(** [re.search(pattern, s)]: the leftmost position with a match; the result is
    the matched text. *)
Fixpoint re_search (r : re) (s : pystr) : option pystr :=
  match re_match r s with
  | Some ms => Some (fst ms)
  | None =>
      match s with
      | [] => None
      | _ :: t => re_search r t
      end
  end.

(** [re.sub(pattern, '', s)] for a pattern anchored with [^] that cannot match
    the empty string: at most the one match at position 0 is removed. *)
Definition re_sub_anchored (r : re) (s : pystr) : pystr :=
  match re_match r s with
  | Some ms => snd ms
  | None => s
  end.

(** *** IGNORECASE literals

    Under [re.IGNORECASE] a literal accepts every code point with the same
    lower-case form, and the code points the module lists as case variants.
    The classes below are those of the letters of the four structural
    keywords, the only literals of the sources' patterns. *)
Definition case_classes : list (list cp) :=
  [ [0x421; 0x441; 0x1C83];          (* С с  *)
    [0x422; 0x442; 0x1C84; 0x1C85];  (* Т т  *)
    [0x410; 0x430];                  (* А а  *)
    [0x42C; 0x44C];                  (* Ь ь  *)
    [0x42F; 0x44F];                  (* Я я  *)
    [0x420; 0x440];                  (* Р р  *)
    [0x417; 0x437];                  (* З з  *)
    [0x414; 0x434; 0x1C81];          (* Д д  *)
    [0x415; 0x435];                  (* Е е  *)
    [0x41B; 0x43B];                  (* Л л  *)
    [0x413; 0x433];                  (* Г г  *)
    [0x412; 0x432; 0x1C80] ].        (* В в  *)

Definition mem (c : cp) (l : list cp) : bool := existsb (N.eqb c) l.

Definition ci_eq (p c : cp) : bool :=
  (c =? p) || existsb (fun cls => mem p cls && mem c cls) case_classes.

(** A literal word under IGNORECASE. *)
Definition lit_ci (w : pystr) : re := seq_all (map (fun p => Chr (ci_eq p)) w).

Definition ws : re := Chr is_space.
Definition digit : re := Chr is_digit.
Definition dot : re := Chr (fun c => c =? DOT).
Definition any : re := Chr is_dot_any.

(** A number with dotted sub-numbers: digits, then any number of groups of
    a full stop and digits. *)
Definition dotted_number : re := Seq (Plus digit) (Star (Seq dot (Plus digit))).

End Re.

(* ================================================================== *)
(** ** processor.py *)
(* ================================================================== *)

Module Processor.
Import PyStr Re Exn OsPath Extractors.
Local Open Scope N_scope.

(** The four structural keywords. *)
Definition kw_article : pystr := Eval cbv in py "Статья".
Definition kw_section : pystr := Eval cbv in py "Раздел".
Definition kw_chapter : pystr := Eval cbv in py "Глава".
Definition kw_paragraph : pystr := Eval cbv in py "§".

(** The article pattern up to its final group: optional white space, the
    keyword, optional white space, a dotted number, an optional full stop,
    optional white space. *)
Definition article_prefix_pattern : re :=
  seq_all [Star ws; lit_ci kw_article; Star ws; dotted_number; Opt dot; Star ws].

(** [article_start_pattern]: the prefix above, then the group that takes the
    rest of the line. *)
Definition article_start_pattern : re := Seq article_prefix_pattern (Star any).

(** The section, chapter and paragraph patterns: optional white space, the
    keyword, at least one white space, a plain number, an optional full stop,
    optional white space, then the group that takes the rest of the line. *)
Definition heading_pattern (kw : pystr) : re :=
  seq_all [Star ws; lit_ci kw; Plus ws; Plus digit; Opt dot; Star ws; Star any].

Definition section_start_pattern : re := heading_pattern kw_section.
Definition chapter_start_pattern : re := heading_pattern kw_chapter.
Definition paragraph_start_pattern : re := heading_pattern kw_paragraph.

(** [m.group(0).strip()] of a successful match. *)
Definition matched_title (r : re) (s : pystr) : option pystr :=
  option_map (fun ms => strip (fst ms)) (re_match r s).

(** *** Documents

    A LangChain [Document]: the text and a metadata dictionary.  The sources
    use six fixed keys; an absent key is [None]. *)
Record Metadata : Type := mkMetadata {
  article_title : option pystr;
  section_title : option pystr;
  chapter_title : option pystr;
  paragraph_title : option pystr;
  keywords : option (list pystr);
  topic : option pystr
}.

Record Document : Type := mkDocument {
  page_content : pystr;
  metadata : Metadata
}.

(** *** segment_into_articles *)

(** The local variables of [segment_into_articles] that the loop and the
    nested [add_article_to_list] share. *)
Record SegState : Type := mkSegState {
  langchain_articles : list Document;
  current_article_full_title : option pystr;
  current_article_content : list pystr;
  current_section_title : option pystr;
  current_chapter_title : option pystr;
  current_paragraph_title : option pystr
}.

Definition seg_init : SegState := mkSegState [] None [] None None None.

Definition keep_if_truthy (o : option pystr) : option pystr :=
  if truthy_opt o then o else None.

Definition add_article_to_list (st : SegState) : SegState :=
  let emitted :=
    match current_article_full_title st, current_article_content st with
    | Some title, _ :: _ =>
        if truthy title then
          let full_content_str := strip (join [LF] (current_article_content st)) in
          langchain_articles st ++
            [ mkDocument full_content_str
                (mkMetadata (Some title)
                   (keep_if_truthy (current_section_title st))
                   (keep_if_truthy (current_chapter_title st))
                   (keep_if_truthy (current_paragraph_title st))
                   None None) ]
        else langchain_articles st
    | _, _ => langchain_articles st
    end in
  mkSegState emitted None []
    (current_section_title st) (current_chapter_title st) (current_paragraph_title st).

(** One iteration of the loop over [spacy_doc.sents]; [raw] is [sent.text]. *)
Definition seg_step (st : SegState) (raw : pystr) : SegState :=
  let sent_text := strip raw in
  if negb (truthy sent_text) then st
  else
    match matched_title section_start_pattern sent_text with
    | Some t =>
        let st' := add_article_to_list st in
        mkSegState (langchain_articles st') (current_article_full_title st')
          (current_article_content st') (Some t) None None
    | None =>
    match matched_title chapter_start_pattern sent_text with
    | Some t =>
        let st' := add_article_to_list st in
        mkSegState (langchain_articles st') (current_article_full_title st')
          (current_article_content st') (current_section_title st') (Some t) None
    | None =>
    match matched_title paragraph_start_pattern sent_text with
    | Some t =>
        let st' := add_article_to_list st in
        mkSegState (langchain_articles st') (current_article_full_title st')
          (current_article_content st') (current_section_title st')
          (current_chapter_title st') (Some t)
    | None =>
    match matched_title article_start_pattern sent_text with
    | Some t =>
        let st' := add_article_to_list st in
        mkSegState (langchain_articles st') (Some t)
          (current_article_content st' ++ [sent_text]) (current_section_title st')
          (current_chapter_title st') (current_paragraph_title st')
    | None =>
        if truthy_opt (current_article_full_title st)
        then mkSegState (langchain_articles st) (current_article_full_title st)
               (current_article_content st ++ [sent_text]) (current_section_title st)
               (current_chapter_title st) (current_paragraph_title st)
        else st
    end end end end.

(** The loop, from an arbitrary state. *)
Definition seg_scan (st : SegState) (sents : list pystr) : SegState :=
  fold_left seg_step sents st.

(** The loop and the final flush on the sentence texts of the document. *)
Definition segment_sentences (sents : list pystr) : list Document :=
  langchain_articles (add_article_to_list (seg_scan seg_init sents)).

(** *** The SpaCy pipeline

    [self.nlp(text)] gives a [Doc]: its sentences ([sent.text]) and its tokens
    with the attributes the sources read.  The call can raise (the pipeline
    refuses a text beyond its length limit). *)
Record Token : Type := mkToken {
  text : pystr;
  lemma_ : pystr;
  is_stop : bool;
  is_punct : bool;
  like_num : bool
}.

Record Doc : Type := mkDoc {
  sents : list pystr;
  tokens : list Token
}.

(** *** collections.Counter, in insertion order *)
Definition Counter := list (pystr * nat).

Fixpoint counter_incr (k : pystr) (c : Counter) : Counter :=
  match c with
  | [] => [(k, 1%nat)]
  | kn :: t =>
      if str_eqb (fst kn) k then (fst kn, S (snd kn)) :: t
      else kn :: counter_incr k t
  end.

(** [most_common()] is [sorted(items, key=count, reverse=True)], a stable
    sort: equal counts keep their insertion order. *)
Fixpoint insert_desc (x : pystr * nat) (l : Counter) : Counter :=
  match l with
  | [] => [x]
  | y :: t => if (snd y <? snd x)%nat then x :: y :: t else y :: insert_desc x t
  end.

Definition most_common (c : Counter) : Counter :=
  fold_left (fun acc x => insert_desc x acc) c [].

Definition in_set (x : pystr) (l : list pystr) : bool := existsb (str_eqb x) l.

(** *** File system

    Every attempt to open a file for writing and write to it is recorded.  The
    outcome of an attempt is decided by the environment, which sees what has
    been attempted so far. *)
Inductive write_outcome : Type :=
| WriteOk
| WriteOSError
| WriteOtherError (message : pystr).

Record Attempt : Type := mkAttempt {
  at_path : pystr;
  at_content : pystr;
  at_outcome : write_outcome
}.

Definition FsLog := list Attempt.

Record SaveState : Type := mkSaveState {
  fs_log : FsLog;
  created_files : list pystr
}.

(** The dictionary that [process_document] returns. *)
Record DocResult : Type := mkDocResult {
  document : pystr;
  articles_count : nat;
  files_created : nat;
  output_dir : pystr
}.

Definition default_topic : pystr := Eval cbv in py "Общее положение".

(** Characters removed by [sanitize_string_for_filename]:
    backslash, slash, colon, asterisk, question mark, double quote, angle
    brackets and the vertical bar. *)
Definition unsafe_chars : list cp := [92; 47; 58; 42; 63; 34; 60; 62; 124].

Definition sanitize_string_for_filename (text : pystr) (max_length : Z) : pystr :=
  let sanitized := filter (fun c => negb (mem c unsafe_chars)) text in
  let sanitized := strip (replace_char SPACE UNDERSCORE sanitized) in
  slice_to sanitized max_length.

(** The pattern of [get_structure_filename_id]: the escaped prefix, optional
    white space and a dotted number, all in one group. *)
Definition structure_id_pattern (prefix : pystr) : re :=
  Seq (lit_ci prefix) (Seq (Star ws) dotted_number).

Definition get_structure_filename_id (title prefix : pystr) (max_length : Z) : pystr :=
  match re_search (structure_id_pattern prefix) title with
  | Some g1 => sanitize_string_for_filename g1 max_length
  | None => []
  end.

Definition get_or (o : option pystr) (default : pystr) : pystr :=
  match o with Some v => v | None => default end.

Definition lit_untitled : pystr := Eval cbv in py "Untitled_Article_".
Definition lit_article : pystr := Eval cbv in py "_Article_".
Definition lit_md : pystr := Eval cbv in py ".md".
Definition lit_h1 : pystr := Eval cbv in py "# ".
Definition lit_h2 : pystr := Eval cbv in py "## ".
Definition lit_h3 : pystr := Eval cbv in py "### ".
Definition lit_h4 : pystr := Eval cbv in py "#### ".
Definition lit_keywords : pystr := Eval cbv in py "## Keywords" ++ [LF].
Definition lit_topic : pystr := Eval cbv in py "## Topic" ++ [LF].
Definition lit_comma : pystr := Eval cbv in py ", ".
Definition NL2 : pystr := [LF; LF].

Definition max_total_filename_length : Z := 200.

(** [markdown_content] of one article. *)
Definition render_markdown (i : nat) (article_doc : Document) : pystr :=
  let md := metadata article_doc in
  let full_article_title := get_or (article_title md) (lit_untitled ++ str_of_nat (i + 1)) in
  let content := page_content article_doc in
  let kws := match keywords md with Some l => l | None => [] end in
  let tp := get_or (topic md) [] in
  let section := get_or (section_title md) [] in
  let chapter := get_or (chapter_title md) [] in
  let paragraph := get_or (paragraph_title md) [] in
  lit_h1 ++ full_article_title ++ NL2
  ++ (if truthy section then lit_h2 ++ section ++ NL2 else [])
  ++ (if truthy chapter then lit_h3 ++ chapter ++ NL2 else [])
  ++ (if truthy paragraph then lit_h4 ++ paragraph ++ NL2 else [])
  ++ content ++ NL2
  ++ (match kws with
      | [] => []
      | _ :: _ => lit_keywords ++ join lit_comma kws ++ NL2
      end)
  ++ (if truthy tp then lit_topic ++ tp ++ [LF] else []).

(** [filename_parts], before empty parts are filtered out. *)
Definition filename_parts (sanitized_doc_name_prefix : pystr) (i : nat)
    (article_doc : Document) : list pystr :=
  let md := metadata article_doc in
  let full_article_title := get_or (article_title md) (lit_untitled ++ str_of_nat (i + 1)) in
  let kws := match keywords md with Some l => l | None => [] end in
  let section := get_or (section_title md) [] in
  let chapter := get_or (chapter_title md) [] in
  let paragraph := get_or (paragraph_title md) [] in
  [sanitized_doc_name_prefix]
  ++ (if truthy section then [get_structure_filename_id section kw_section 50] else [])
  ++ (if truthy chapter then [get_structure_filename_id chapter kw_chapter 50] else [])
  ++ (if truthy paragraph then [get_structure_filename_id paragraph kw_paragraph 50] else [])
  ++ (let article_id_part := get_structure_filename_id full_article_title kw_article 50 in
      if truthy article_id_part then [article_id_part] else [])
  ++ (let descriptive_title_raw :=
        strip (re_sub_anchored article_prefix_pattern full_article_title) in
      if truthy descriptive_title_raw then
        let descriptive_title_sanitized :=
          sanitize_string_for_filename descriptive_title_raw 50 in
        if truthy descriptive_title_sanitized then [descriptive_title_sanitized] else []
      else [])
  ++ (match kws with
      | [] => []
      | _ :: _ =>
          let keyword_segment :=
            join [UNDERSCORE]
              (map (fun k => sanitize_string_for_filename k 20) (slice_to kws 2)) in
          if truthy keyword_segment then [keyword_segment] else []
      end).

(** The file name of one article, with the length cap applied. *)
Definition synthesize_filename (sanitized_doc_name_prefix : pystr) (i : nat)
    (article_doc : Document) : pystr :=
  let parts := filename_parts sanitized_doc_name_prefix i article_doc in
  let filename := join [UNDERSCORE] (filter truthy parts) ++ lit_md in
  if (max_total_filename_length <? len filename)%Z then
    let be := splitext filename in
    slice_to (fst be) (max_total_filename_length - len (snd be)) ++ snd be
  else filename.

Definition fallback_filename (sanitized_doc_name_prefix : pystr) (i : nat) : pystr :=
  sanitized_doc_name_prefix ++ lit_article ++ str_of_nat (i + 1) ++ lit_md.

Section DocumentProcessor.
Variable unicode_lower : pystr -> nat -> pystr.
Variable nlp : pystr -> pystr + Doc.
Variable docx_paragraphs : pystr -> pystr + list pystr.
Variable pdf_pages : pystr -> pystr + list (option pystr).

(** [open(path, 'w')] followed by [f.write(content)], given the attempts
    made so far. *)
Variable try_write : FsLog -> pystr -> pystr -> write_outcome.

(** [os.makedirs(path, exist_ok=True)]: the exception it raises, if any. *)
Variable makedirs : FsLog -> pystr -> option pystr.

Definition extract_text_from_file (file_path : pystr) : result pystr :=
  extract_text unicode_lower docx_paragraphs pdf_pages file_path.

Definition segment_into_articles (doc_text : pystr) : result (list Document) :=
  spacy_doc <- call (nlp doc_text) ;;
  Ok (segment_sentences (sents spacy_doc)).

(** *** extract_keywords_and_topic *)

Definition token_passes (token : Token) : bool :=
  negb (is_stop token) && negb (is_punct token) && negb (like_num token).

Definition title_token_set (title_doc : list Token) : list pystr :=
  map (fun token => str_lower unicode_lower (lemma_ token))
      (filter token_passes title_doc).

Definition count_candidates (title_tokens : list pystr) (doc : list Token) : Counter :=
  fold_left
    (fun candidates token =>
       if token_passes token && truthy (strip (text token)) then
         let lemma := str_lower unicode_lower (lemma_ token) in
         if negb (in_set lemma title_tokens)
         then counter_incr lemma candidates
         else candidates
       else candidates)
    doc [].

Definition filter_candidates (title_tokens : list pystr) (candidates : Counter)
  : list pystr :=
  map fst
    (filter (fun ic => (2 <? len (fst ic))%Z && negb (in_set (fst ic) title_tokens))
            (most_common candidates)).

Definition extract_keywords_and_topic (text_ article_title_ : pystr) (num_keywords : Z)
  : result (list pystr * pystr) :=
  doc <- call (nlp text_) ;;
  title_doc <- call (nlp article_title_) ;;
  let title_tokens := title_token_set (tokens title_doc) in
  let candidates := count_candidates title_tokens (tokens doc) in
  let filtered_candidates := filter_candidates title_tokens candidates in
  let kws := slice_to filtered_candidates num_keywords in
  let tp := match kws with k :: _ => k | [] => default_topic end in
  Ok (kws, tp).

Definition enrich_article (article_doc : Document) : result Document :=
  let md := metadata article_doc in
  kt <- extract_keywords_and_topic (page_content article_doc)
          (get_or (article_title md) []) 7 ;;
  Ok (mkDocument (page_content article_doc)
        (mkMetadata (article_title md) (section_title md) (chapter_title md)
           (paragraph_title md) (Some (fst kt)) (Some (snd kt)))).

Definition enrich_articles_with_metadata (articles : list Document)
  : result (list Document) :=
  mapM enrich_article articles.

(** *** save_articles_to_markdown *)

(** The body of the loop for the article of index [i]. *)
Definition save_article (out_dir sanitized_doc_name_prefix : pystr)
    (st : SaveState) (i : nat) (article_doc : Document) : result SaveState :=
  let markdown_content := render_markdown i article_doc in
  let filename := synthesize_filename sanitized_doc_name_prefix i article_doc in
  let file_path := join2 out_dir filename in
  match try_write (fs_log st) file_path markdown_content with
  | WriteOk =>
      Ok (mkSaveState
            (fs_log st ++ [mkAttempt file_path markdown_content WriteOk])
            (created_files st ++ [file_path]))
  | WriteOtherError message => Raise (LibraryError message)
  | WriteOSError =>
      let log1 := fs_log st ++ [mkAttempt file_path markdown_content WriteOSError] in
      let fallback_file_path :=
        join2 out_dir (fallback_filename sanitized_doc_name_prefix i) in
      match try_write log1 fallback_file_path markdown_content with
      | WriteOk =>
          Ok (mkSaveState
                (log1 ++ [mkAttempt fallback_file_path markdown_content WriteOk])
                (created_files st ++ [fallback_file_path]))
      | WriteOSError =>
          Ok (mkSaveState
                (log1 ++ [mkAttempt fallback_file_path markdown_content WriteOSError])
                (created_files st))
      | WriteOtherError message => Raise (LibraryError message)
      end
  end.

(** The loop over [enumerate(articles)], from index [i]. *)
Fixpoint save_loop (out_dir sanitized_doc_name_prefix : pystr)
    (st : SaveState) (i : nat) (articles : list Document) : result SaveState :=
  match articles with
  | [] => Ok st
  | article_doc :: rest =>
      st' <- save_article out_dir sanitized_doc_name_prefix st i article_doc ;;
      save_loop out_dir sanitized_doc_name_prefix st' (S i) rest
  end.

Definition save_articles_to_markdown (log : FsLog) (articles : list Document)
    (out_dir doc_base_name : pystr) : result SaveState :=
  match makedirs log out_dir with
  | Some message => Raise (LibraryError message)
  | None =>
      let sanitized_doc_name_prefix := sanitize_string_for_filename doc_base_name 40 in
      save_loop out_dir sanitized_doc_name_prefix (mkSaveState log []) 0 articles
  end.

(** *** process_document *)
Definition process_document (log : FsLog) (file_path out_dir : pystr)
  : result (FsLog * DocResult) :=
  let doc_base_name := fst (splitext (basename file_path)) in
  doc_text <- extract_text_from_file file_path ;;
  articles <- segment_into_articles doc_text ;;
  articles <- enrich_articles_with_metadata articles ;;
  saved <- save_articles_to_markdown log articles out_dir doc_base_name ;;
  Ok (fs_log saved,
      mkDocResult doc_base_name (length articles) (length (created_files saved)) out_dir).

End DocumentProcessor.

End Processor.

(* ================================================================== *)
(** ** float (IEEE 754 binary64) *)
(* ================================================================== *)

(** A finite [float] is the rational number it stands for.  Every operation
    gives the exact result rounded to the nearest number that has 53
    significant bits and an exponent of at least -1074, the even one of two
    that are equally near; a result of magnitude [2 ^ 1024] or more
    overflows. *)
Module PyFloat.
Import QArith Qround Qpower Exn.
Local Open Scope Q_scope.

(** The integer [k] with [2 ^ k <= x < 2 ^ (k + 1)], for a positive [x]. *)
Definition floor_log2 (x : Q) : Z :=
  let k := (Z.log2 (Qnum x) - Z.log2 (Z.pos (Qden x)))%Z in
  if Qle_bool (2 ^ k) x then k else (k - 1)%Z.

(** The nearest integer, the even one of two that are equally near. *)
Definition round_half_even (x : Q) : Z :=
  let f := Qfloor x in
  match Qcompare (x - inject_Z f) (1 # 2) with
  | Lt => f
  | Gt => (f + 1)%Z
  | Eq => if Z.even f then f else (f + 1)%Z
  end.

Definition round_positive (x : Q) : Q :=
  let e := Z.max (floor_log2 x - 52) (-1074) in
  inject_Z (round_half_even (x / 2 ^ e)) * 2 ^ e.

Definition round_binary64 (x : Q) : Q :=
  match Qcompare x 0 with
  | Eq => 0
  | Gt => round_positive x
  | Lt => - round_positive (- x)
  end.

Definition overflows (x : Q) : bool :=
  Qle_bool (2 ^ 1024) x || Qle_bool x (- 2 ^ 1024).

Inductive pyfloat : Type :=
| Finite (x : Q)
| Infinite.

Definition lit_division_by_zero : PyStr.pystr := Eval cbv in PyStr.py "division by zero".
Definition lit_division_too_large : PyStr.pystr :=
  Eval cbv in PyStr.py "integer division result too large for a float".
Definition lit_infinity_to_integer : PyStr.pystr :=
  Eval cbv in PyStr.py "cannot convert float infinity to integer".

(** [a / b] for two [int]: the quotient, correctly rounded. *)
Definition int_true_divide (a b : Z) : result Q :=
  if (b =? 0)%Z then Raise (LibraryError lit_division_by_zero)
  else
    let x := round_binary64 (inject_Z a / inject_Z b) in
    if overflows x then Raise (LibraryError lit_division_too_large) else Ok x.

(** [x * y] for two finite [float]. *)
Definition float_mul (x y : Q) : pyfloat :=
  let p := round_binary64 (x * y) in
  if overflows p then Infinite else Finite p.

(** [int(x)]: the integral part. *)
Definition int_of_float (x : pyfloat) : result Z :=
  match x with
  | Finite q => Ok (if Qle_bool 0 q then Qfloor q else Qceiling q)
  | Infinite => Raise (LibraryError lit_infinity_to_integer)
  end.

End PyFloat.

(* ================================================================== *)
(** ** pathlib (POSIX) *)
(* ================================================================== *)

Module PathLib.
Import PyStr OsPath.
Local Open Scope Z_scope.

(** [s.split('/')] *)
Fixpoint split_sep (s : pystr) : list pystr :=
  match s with
  | [] => [[]]
  | c :: t =>
      if (c =? SLASH)%N then [] :: split_sep t
      else match split_sep t with
           | x :: r => (c :: x) :: r
           | [] => [[c]]
           end
  end.

(** [s.lstrip('/')] *)
Fixpoint lstrip_sep (s : pystr) : pystr :=
  match s with
  | c :: r => if (c =? SLASH)%N then lstrip_sep r else s
  | [] => []
  end.

(** A pure path: its root ([/], [//] or none) and the components after
    the root. *)
Record PurePath : Type := mkPath {
  root : pystr;
  parts : list pystr
}.

(** The root of a path string and the rest of it: exactly two leading
    slashes are a root of their own. *)
Definition splitroot (part : pystr) : pystr * pystr :=
  if startswith part [SLASH] then
    let stripped := lstrip_sep part in
    if len part - len stripped =? 2 then ([SLASH; SLASH], stripped)
    else ([SLASH], stripped)
  else ([], part).

(** [Path(s)]: empty components and [.] are dropped. *)
Definition parse (s : pystr) : PurePath :=
  let rr := splitroot s in
  mkPath (fst rr)
    (filter (fun x => truthy x && negb (str_eqb x [DOT])) (split_sep (snd rr))).

(** [p / key]: a key with a root replaces [p]. *)
Definition truediv (p : PurePath) (key : pystr) : PurePath :=
  let q := parse key in
  if truthy (root q) then q else mkPath (root p) (parts p ++ parts q).

(** [str(p)] *)
Definition to_str (p : PurePath) : pystr :=
  let s := root p ++ join [SLASH] (parts p) in
  if truthy s then s else [DOT].

(** [p.name] *)
Definition name (p : PurePath) : pystr := last (parts p) [].

(** [p.suffix] *)
Definition suffix (p : PurePath) : pystr :=
  let i := rfind DOT (name p) in
  if (0 <? i) && (i <? len (name p) - 1) then skipn (Z.to_nat i) (name p) else [].

End PathLib.

(* ================================================================== *)
(** ** main.py *)
(* ================================================================== *)

Module Main.
Import PyStr Exn OsPath Processor PathLib.
Local Open Scope Z_scope.

Inductive JobStatus : Type := PENDING | PROCESSING | COMPLETED | FAILED.

(** One entry of the [jobs] registry. *)
Record Job : Type := mkJob {
  status : JobStatus;
  progress : Z;
  message : pystr;
  created_at : Z;
  files_count : nat;
  merge_mode : bool;
  total_articles : option nat;
  error : option pystr;
  zip_path : option pystr
}.

Definition set_status (v : JobStatus) (j : Job) : Job :=
  mkJob v (progress j) (message j) (created_at j) (files_count j) (merge_mode j)
    (total_articles j) (error j) (zip_path j).

Definition set_progress (v : Z) (j : Job) : Job :=
  mkJob (status j) v (message j) (created_at j) (files_count j) (merge_mode j)
    (total_articles j) (error j) (zip_path j).

Definition set_message (v : pystr) (j : Job) : Job :=
  mkJob (status j) (progress j) v (created_at j) (files_count j) (merge_mode j)
    (total_articles j) (error j) (zip_path j).

Definition set_total_articles (v : nat) (j : Job) : Job :=
  mkJob (status j) (progress j) (message j) (created_at j) (files_count j) (merge_mode j)
    (Some v) (error j) (zip_path j).

Definition set_error (v : pystr) (j : Job) : Job :=
  mkJob (status j) (progress j) (message j) (created_at j) (files_count j) (merge_mode j)
    (total_articles j) (Some v) (zip_path j).

Definition set_zip_path (v : pystr) (j : Job) : Job :=
  mkJob (status j) (progress j) (message j) (created_at j) (files_count j) (merge_mode j)
    (total_articles j) (error j) (Some v).

Definition TEMP_DIR : pystr := Eval cbv in py "/tmp/jobs".
Definition lit_queued : pystr := Eval cbv in py "Job queued for processing".
Definition lit_processing : pystr := Eval cbv in py "Processing documents...".
Definition lit_file : pystr := Eval cbv in py "Processing file ".
Definition lit_colon : pystr := Eval cbv in py ": ".
Definition lit_archive : pystr := Eval cbv in py "Creating archive...".
Definition lit_completed : pystr := Eval cbv in py "Processing completed successfully".
Definition lit_failed : pystr := Eval cbv in py "Processing failed".
Definition lit_output : pystr := Eval cbv in py "output".
Definition lit_merged : pystr := Eval cbv in py "merged_articles".
Definition lit_zip : pystr := Eval cbv in py ".zip".

(** The entry that [upload_documents] stores for a new job. *)
Definition new_job (now : Z) (n_files : nat) (merge : bool) : Job :=
  mkJob PENDING 0 lit_queued now n_files merge None None None.

(** [Path.name] and [Path.stem] of a normalised path. *)
Definition path_name (p : pystr) : pystr := basename p.

Definition path_stem (p : pystr) : pystr :=
  let name := path_name p in
  let i := rfind DOT name in
  if (0 <? i) && (i <? len name - 1) then firstn (Z.to_nat i) name else name.

(** The worker's view: the current entry of its job, every value the entry has
    taken so far (oldest first), and the file-system log. *)
Record Worker : Type := mkWorker {
  job : Job;
  history : list Job;
  fs : FsLog
}.

(** One assignment [jobs[job_id][key] = value]. *)
Definition assign (f : Job -> Job) (w : Worker) : Worker :=
  let j := f (job w) in
  mkWorker j (history w ++ [j]) (fs w).

Definition start_worker (j : Job) (log : FsLog) : Worker := mkWorker j [j] log.

(** Everything the worker obtains from outside the sources. *)
Record Environment : Type := mkEnvironment {
  (** the lower-case forms of the Unicode database *)
  unicode_lower : pystr -> nat -> pystr;
  (** the SpaCy pipeline *)
  nlp : pystr -> pystr + Doc;
  (** the DOCX and PDF readers *)
  docx_paragraphs : pystr -> pystr + list pystr;
  pdf_pages : pystr -> pystr + list (option pystr);
  (** writing a file, and [os.makedirs(path, exist_ok=True)] *)
  try_write : FsLog -> pystr -> pystr -> write_outcome;
  makedirs : FsLog -> pystr -> option pystr;
  (** [Path.mkdir(exist_ok=True)]: the exception it raises, if any *)
  path_mkdir : FsLog -> pystr -> option pystr;
  (** [create_zip_archive(source_dir, output_zip)]: the exception it raises,
      if any *)
  create_zip_archive : FsLog -> pystr -> pystr -> option pystr
}.

(** [int((idx / len(file_paths)) * 90)] *)
Definition progress_of (idx n : nat) : result Z :=
  q <- PyFloat.int_true_divide (Z.of_nat idx) (Z.of_nat n) ;;
  PyFloat.int_of_float (PyFloat.float_mul q (QArith_base.inject_Z 90)).

Section Worker.
Variable E : Environment.

(** [processor.process_document] in this environment. *)
Definition run_document (log : FsLog) (file_path out_dir : pystr)
  : result (FsLog * DocResult) :=
  process_document (unicode_lower E) (nlp E) (docx_paragraphs E) (pdf_pages E)
    (try_write E) (makedirs E) log file_path out_dir.

Definition file_message (idx n : nat) (file_path : pystr) : pystr :=
  lit_file ++ str_of_nat (idx + 1) ++ [SLASH] ++ str_of_nat n
    ++ lit_colon ++ path_name file_path.

(** The [for idx, file_path in enumerate(file_paths)] loops of the two
    modes, from index [idx], with [total_articles] so far. *)
Fixpoint process_files (merge : bool) (output_base_dir merged_output_dir : pystr)
    (n idx : nat) (file_paths : list pystr) (total : nat) (w : Worker)
  : Worker * result nat :=
  match file_paths with
  | [] => (w, Ok total)
  | file_path :: rest =>
      let w := assign (set_message (file_message idx n file_path)) w in
      match progress_of idx n with
      | Raise e => (w, Raise e)
      | Ok percent =>
          let w := assign (set_progress percent) w in
          let target :=
            if merge then (merged_output_dir, None)
            else
              let doc_name := path_stem file_path in
              let file_output_dir :=
                to_str (truediv (parse output_base_dir) doc_name) in
              (file_output_dir, raised (path_mkdir E (fs w) file_output_dir)) in
          match snd target with
          | Some e => (w, Raise e)
          | None =>
              match run_document (fs w) file_path (fst target) with
              | Raise e => (w, Raise e)
              | Ok lr =>
                  process_files merge output_base_dir merged_output_dir n (S idx) rest
                    (total + articles_count (snd lr))
                    (mkWorker (job w) (history w) (fst lr))
              end
          end
      end
  end.

(** The body of the [try] block. *)
Definition try_block (job_id : pystr) (file_paths : list pystr) (merge : bool)
    (w : Worker) : Worker * option pyexn :=
  let w := assign (set_status PROCESSING) w in
  let w := assign (set_message lit_processing) w in
  let job_dir := join2 TEMP_DIR job_id in
  let output_base_dir := join2 job_dir lit_output in
  match raised (path_mkdir E (fs w) output_base_dir) with
  | Some e => (w, Some e)
  | None =>
      let merged_output_dir := join2 output_base_dir lit_merged in
      match raised (if merge then path_mkdir E (fs w) merged_output_dir else None) with
      | Some e => (w, Some e)
      | None =>
          match process_files merge output_base_dir merged_output_dir
                  (length file_paths) 0 file_paths 0 w with
          | (w, Raise e) => (w, Some e)
          | (w, Ok total) =>
              let w := assign (set_message lit_archive) w in
              let w := assign (set_progress 95) w in
              let zp := join2 job_dir (job_id ++ lit_zip) in
              match raised (create_zip_archive E (fs w) output_base_dir zp) with
              | Some e => (w, Some e)
              | None =>
                  let w := assign (set_status COMPLETED) w in
                  let w := assign (set_message lit_completed) w in
                  let w := assign (set_progress 100) w in
                  let w := assign (set_total_articles total) w in
                  let w := assign (set_zip_path zp) w in
                  (w, None)
              end
          end
      end
  end.

(** The [except Exception as e] handler. *)
Definition except_block (e : pyexn) (w : Worker) : Worker :=
  let w := assign (set_status FAILED) w in
  let w := assign (set_message lit_failed) w in
  let w := assign (set_error (exn_str e)) w in
  assign (set_progress 0) w.

Definition process_documents_job (job_id : pystr) (file_paths : list pystr)
    (merge : bool) (w : Worker) : Worker :=
  match try_block job_id file_paths merge w with
  | (w', None) => w'
  | (w', Some e) => except_block e w'
  end.

(** Submission, then the background task: every value the job entry takes. *)
Definition job_execution (now : Z) (job_id : pystr) (file_paths : list pystr)
    (merge : bool) (log : FsLog) : list Job :=
  history
    (process_documents_job job_id file_paths merge
       (start_worker (new_job now (length file_paths) merge) log)).

End Worker.

End Main.

(* ================================================================== *)
(** ** main.py: the registry and the endpoints *)
(* ================================================================== *)

Module Api.
Import PyStr Exn OsPath Processor Main PathLib.
Local Open Scope Z_scope.

(** The [jobs] dictionary: the entries in the order of insertion, each key
    once.  Every entry is made by [upload_documents] and has all nine keys. *)
Definition Jobs : Type := list (pystr * Job).

(** [jobs.get(job_id)] *)
Fixpoint lookup (job_id : pystr) (jobs : Jobs) : option Job :=
  match jobs with
  | [] => None
  | item :: rest => if str_eqb (fst item) job_id then Some (snd item) else lookup job_id rest
  end.

(** [del jobs[job_id]], for a key that is there. *)
Definition del_job (job_id : pystr) (jobs : Jobs) : Jobs :=
  filter (fun item => negb (str_eqb (fst item) job_id)) jobs.

(** [jobs[job_id] = job_data] *)
Fixpoint set_job (job_id : pystr) (job_data : Job) (jobs : Jobs) : Jobs :=
  match jobs with
  | [] => [(job_id, job_data)]
  | item :: rest =>
      if str_eqb (fst item) job_id then (fst item, job_data) :: rest
      else item :: set_job job_id job_data rest
  end.

(** What the endpoints have done to the file system: the directories passed
    to [rmtree], the directories made by [mkdir], and the files opened for
    writing, each with the bytes to write and the exception raised, if any. *)
Record Disk : Type := mkDisk {
  removed_dirs : list pystr;
  made_dirs : list pystr;
  written : list (pystr * list N * option pystr)
}.

(** [timedelta(hours=1)], in microseconds, the resolution of [datetime]. *)
Definition CLEANUP_TIMEOUT : Z := 3600000000.

(** The outcome of a request. *)
Inductive Reply (A : Type) : Type :=
| Respond (a : A)
| HTTPException (status_code : Z) (detail : pystr)
| Unhandled (message : pystr).
Arguments Respond {A} a.
Arguments HTTPException {A} status_code detail.
Arguments Unhandled {A} message.

Record UploadFile : Type := mkUploadFile {
  filename : pystr;
  content : list N
}.

Record UploadResponse : Type := mkUploadResponse {
  ur_job_id : pystr;
  ur_message : pystr;
  files_received : nat
}.

Record JobStatusResponse : Type := mkJobStatusResponse {
  sr_job_id : pystr;
  sr_status : JobStatus;
  sr_progress : Z;
  sr_message : pystr;
  sr_total_articles : option nat;
  sr_error : option pystr
}.

Record FileResponse : Type := mkFileResponse {
  fr_path : pystr;
  fr_media_type : pystr;
  fr_filename : pystr
}.

(** A call of [background_tasks.add_task]. *)
Inductive Task : Type :=
| ProcessDocuments (job_id : pystr) (file_paths : list pystr) (merge_mode : bool)
| CleanupJob (job_id : pystr).

Definition lit_no_files : pystr := Eval cbv in py "No files provided".
Definition lit_unsupported_type : pystr := Eval cbv in py "Unsupported file type: ".
Definition lit_only_allowed : pystr := Eval cbv in py ". Only DOCX and PDF are allowed.".
Definition lit_uploads : pystr := Eval cbv in py "uploads".
Definition lit_uploaded : pystr :=
  Eval cbv in py "Files uploaded successfully. Processing started.".
Definition lit_job_not_found : pystr := Eval cbv in py "Job not found".
Definition lit_not_completed : pystr :=
  Eval cbv in py "Job is not completed. Current status: ".
Definition lit_result_not_found : pystr := Eval cbv in py "Result file not found".
Definition lit_application_zip : pystr := Eval cbv in py "application/zip".
Definition lit_processed_articles : pystr := Eval cbv in py "processed_articles_".
Definition allowed_extensions : list pystr := Eval cbv in [py ".docx"; py ".pdf"].

(** [TEMP_DIR / job_id], as a string. *)
Definition job_dir_of (job_id : pystr) : PurePath := truediv (parse TEMP_DIR) job_id.

Section Endpoints.
Variable unicode_lower : pystr -> nat -> pystr.

(** [Path.exists()], on the disk as the endpoints have left it. *)
Variable path_exists : Disk -> pystr -> bool.

(** [Path.mkdir(exist_ok=True)], and opening a file and writing bytes to
    it: the exception raised, if any. *)
Variable path_mkdir : Disk -> pystr -> option pystr.
Variable write_bytes : Disk -> pystr -> list N -> option pystr.

(** How an f-string renders a member of [JobStatus]; this differs between
    versions of the interpreter. *)
Variable format_status : JobStatus -> pystr.

(** [shutil.rmtree(job_dir, ignore_errors=True)] when the directory exists *)
Definition rmtree_if_exists (job_dir : pystr) (disk : Disk) : Disk :=
  if path_exists disk job_dir
  then mkDisk (removed_dirs disk ++ [job_dir]) (made_dirs disk) (written disk)
  else disk.

(** *** cleanup_old_jobs *)

Definition cleanup_step (cutoff_time : Z) (acc : Jobs * Disk) (item : pystr * Job)
  : Jobs * Disk :=
  let job_id := fst item in
  let job_time := created_at (snd item) in
  if job_time <? cutoff_time then
    (del_job job_id (fst acc), rmtree_if_exists (to_str (job_dir_of job_id)) (snd acc))
  else acc.

(** The loop runs over a copy of the items taken at its start. *)
Definition cleanup_old_jobs (now : Z) (jobs : Jobs) (disk : Disk) : Jobs * Disk :=
  let cutoff_time := now - CLEANUP_TIMEOUT in
  fold_left (cleanup_step cutoff_time) jobs (jobs, disk).

(** *** upload_documents *)

Definition extension_allowed (file : UploadFile) : bool :=
  in_set (str_lower unicode_lower (suffix (parse (filename file)))) allowed_extensions.

(** The first file that the validation loop refuses. *)
Definition first_refused (files : list UploadFile) : option UploadFile :=
  find (fun file => negb (extension_allowed file)) files.

(** The loop that saves the uploaded files. *)
Fixpoint save_uploads (uploads_dir : PurePath) (files : list UploadFile)
    (disk : Disk) (file_paths : list pystr) : Disk * (pystr + list pystr) :=
  match files with
  | [] => (disk, inr file_paths)
  | file :: rest =>
      let file_path := to_str (truediv uploads_dir (filename file)) in
      let outcome := write_bytes disk file_path (content file) in
      let disk :=
        mkDisk (removed_dirs disk) (made_dirs disk)
          (written disk ++ [(file_path, content file, outcome)]) in
      match outcome with
      | Some message => (disk, inl message)
      | None => save_uploads uploads_dir rest disk (file_paths ++ [file_path])
      end
  end.

(** [now] is the time read by [cleanup_old_jobs], [created] the time read
    when the job is registered, and [uuid] the value of [str(uuid.uuid4())]. *)
Definition upload_documents (now created : Z) (uuid : pystr)
    (files : list UploadFile) (merge_mode : bool) (jobs : Jobs) (disk : Disk)
  : Reply UploadResponse * (Jobs * Disk) * option Task :=
  let cleaned := cleanup_old_jobs now jobs disk in
  if match files with [] => true | _ => false end then
    (HTTPException 400 lit_no_files, cleaned, None)
  else
    match first_refused files with
    | Some file =>
        (HTTPException 400 (lit_unsupported_type ++ filename file ++ lit_only_allowed),
         cleaned, None)
    | None =>
        let job_id := uuid in
        let job_dir := job_dir_of job_id in
        let disk := snd cleaned in
        match path_mkdir disk (to_str job_dir) with
        | Some message => (Unhandled message, cleaned, None)
        | None =>
            let disk :=
              mkDisk (removed_dirs disk) (made_dirs disk ++ [to_str job_dir])
                (written disk) in
            let uploads_dir := truediv job_dir lit_uploads in
            match path_mkdir disk (to_str uploads_dir) with
            | Some message => (Unhandled message, (fst cleaned, disk), None)
            | None =>
                let disk :=
                  mkDisk (removed_dirs disk) (made_dirs disk ++ [to_str uploads_dir])
                    (written disk) in
                match save_uploads uploads_dir files disk [] with
                | (disk, inl message) => (Unhandled message, (fst cleaned, disk), None)
                | (disk, inr file_paths) =>
                    (Respond (mkUploadResponse job_id lit_uploaded (length files)),
                     (set_job job_id (new_job created (length files) merge_mode)
                        (fst cleaned), disk),
                     Some (ProcessDocuments job_id file_paths merge_mode))
                end
            end
        end
    end.

(** *** get_job_status *)

Definition get_job_status (job_id : pystr) (jobs : Jobs) : Reply JobStatusResponse :=
  match lookup job_id jobs with
  | None => HTTPException 404 lit_job_not_found
  | Some job_data =>
      Respond (mkJobStatusResponse job_id (status job_data) (progress job_data)
                 (message job_data) (total_articles job_data) (error job_data))
  end.

(** *** download_result *)

Definition download_result (job_id : pystr) (jobs : Jobs) (disk : Disk)
  : Reply FileResponse * option Task :=
  match lookup job_id jobs with
  | None => (HTTPException 404 lit_job_not_found, None)
  | Some job_data =>
      match status job_data with
      | COMPLETED =>
          match zip_path job_data with
          | Some zp =>
              if path_exists disk zp then
                (Respond (mkFileResponse zp lit_application_zip
                            (lit_processed_articles ++ job_id ++ lit_zip)),
                 Some (CleanupJob job_id))
              else (HTTPException 404 lit_result_not_found, None)
          | None => (HTTPException 404 lit_result_not_found, None)
          end
      | other =>
          (HTTPException 400 (lit_not_completed ++ format_status other), None)
      end
  end.

(** The nested [cleanup_job], run after the response has been sent. *)
Definition cleanup_job (job_id : pystr) (jobs : Jobs) (disk : Disk) : Jobs * Disk :=
  (match lookup job_id jobs with
   | Some _ => del_job job_id jobs
   | None => jobs
   end,
   rmtree_if_exists (to_str (job_dir_of job_id)) disk).

(** *** health_check *)

Definition active_jobs (jobs : Jobs) : nat := length jobs.

End Endpoints.

End Api.

(* ================================================================== *)
(** * Properties *)
(* ================================================================== *)

(** ** Strings *)

Section StringFacts.
Import PyStr.
Local Open Scope N_scope.

Lemma truthy_nonempty (s : pystr) : truthy s = true <-> s <> [].
Proof. destruct s; simpl; split; congruence. Qed.

Lemma lstrip_suffix (s : pystr) : exists pre, s = pre ++ lstrip s.
Proof.
  induction s as [|c r [pre IH]]; simpl.
  - now exists [].
  - destruct (is_space c).
    + exists (c :: pre). simpl. now f_equal.
    + now exists [].
Qed.

Lemma lstrip_head (s : pystr) (c : cp) (t : pystr) :
  lstrip s = c :: t -> is_space c = false.
Proof.
  induction s as [|x r IH]; simpl; [discriminate|].
  destruct (is_space x) eqn:E; [exact IH|].
  intros H. injection H as -> _. exact E.
Qed.

Lemma lstrip_keeps (c : cp) (t : pystr) : is_space c = false -> lstrip (c :: t) = c :: t.
Proof. intros H. simpl. now rewrite H. Qed.

Lemma lstrip_app_nonspace (l : pystr) (c : cp) :
  is_space c = false -> lstrip (l ++ [c]) <> [].
Proof.
  intros H. induction l as [|x r IH]; simpl.
  - now rewrite H.
  - destruct (is_space x); [exact IH | discriminate].
Qed.

(** Stripping the end of a string keeps its first character when that one is
    not white space. *)
Lemma rstrip_keeps_head (c : cp) (t : pystr) :
  is_space c = false -> exists t', rstrip (c :: t) = c :: t'.
Proof.
  intros H. unfold rstrip. simpl rev.
  destruct (lstrip_suffix (rev t ++ [c])) as [pre Hpre].
  assert (Hne := lstrip_app_nonspace (rev t) c H).
  destruct (lstrip (rev t ++ [c])) as [|y ys] eqn:E; [congruence|].
  assert (Hrev : rev (y :: ys) ++ rev pre = c :: t).
  { rewrite <- rev_app_distr, <- Hpre, rev_app_distr, rev_involutive. reflexivity. }
  destruct (rev (y :: ys)) as [|z zs] eqn:Ez.
  - apply (f_equal (@rev cp)) in Ez. rewrite rev_involutive in Ez. discriminate.
  - simpl in Hrev. injection Hrev as -> _. now exists zs.
Qed.

Lemma strip_keeps_head (c : cp) (t : pystr) :
  is_space c = false -> exists t', strip (c :: t) = c :: t'.
Proof.
  intros H. unfold strip. rewrite lstrip_keeps by exact H.
  now apply rstrip_keeps_head.
Qed.

(** A stripped string is empty or starts with a character that is not white
    space. *)
Lemma strip_head (s : pystr) (c : cp) (t : pystr) :
  strip s = c :: t -> is_space c = false.
Proof.
  unfold strip. intros H.
  destruct (lstrip s) as [|x r] eqn:E.
  - discriminate.
  - assert (Hx := lstrip_head _ _ _ E).
    destruct (rstrip_keeps_head x r Hx) as [t' Ht']. rewrite Ht' in H.
    injection H as -> _. exact Hx.
Qed.

Lemma join_cons_head (sep : pystr) (c : cp) (t : pystr) (rest : list pystr) :
  exists u, join sep (@cons pystr (c :: t) rest) = c :: u.
Proof. destruct rest; simpl; eauto. Qed.

End StringFacts.

(** ** Regular expressions *)

Section ReFacts.
Import PyStr Re.

(** The least number of characters a match of the pattern takes. *)
Fixpoint min_len (r : re) : nat :=
  match r with
  | Eps => 0
  | Chr _ => 1
  | Seq a b => min_len a + min_len b
  | Opt _ => 0
  | Star _ => 0
  end.

Definition sound_at (n : nat) (f : pystr -> list (pystr * pystr)) : Prop :=
  forall s m rest, In (m, rest) (f s) -> s = m ++ rest /\ n <= length m.

Lemma star_matches_sound (f : pystr -> list (pystr * pystr)) (n : nat) :
  sound_at n f -> forall fuel, sound_at 0 (star_matches f fuel).
Proof.
  intros Hf fuel. induction fuel as [|k IH]; intros s m rest Hin; simpl in Hin.
  - destruct Hin as [Heq|[]]. injection Heq as <- <-. split; [reflexivity | simpl; lia].
  - apply in_app_or in Hin. destruct Hin as [Hin|[Heq|[]]].
    + apply in_flat_map in Hin. destruct Hin as [[m1 s1] [H1 H2]]. simpl in H2.
      destruct m1 as [|c m1']; [contradiction|].
      apply in_map_iff in H2. destruct H2 as [[m2 s2] [Heq H2]]. simpl in Heq.
      injection Heq as <- <-.
      destruct (Hf _ _ _ H1) as [-> _]. destruct (IH _ _ _ H2) as [-> _].
      split; [now rewrite app_assoc | lia].
    + injection Heq as <- <-. split; [reflexivity | simpl; lia].
Qed.

(** Every alternative splits the subject into the matched text and the rest,
    and the matched text is at least as long as the pattern requires. *)
Lemma matches_sound (r : re) : sound_at (min_len r) (matches r).
Proof.
  induction r as [|p|a IHa b IHb|a IHa|a IHa]; intros s m rest Hin; cbn [matches] in Hin.
  - destruct Hin as [Heq|[]]. injection Heq as <- <-. split; [reflexivity | simpl; lia].
  - destruct s as [|c t]; [contradiction|]. destruct (p c); [|contradiction].
    destruct Hin as [Heq|[]]. injection Heq as <- <-. split; [reflexivity | simpl; lia].
  - apply in_flat_map in Hin. destruct Hin as [[m1 s1] [H1 H2]]. simpl in H2.
    apply in_map_iff in H2. destruct H2 as [[m2 s2] [Heq H2]]. simpl in Heq.
    injection Heq as <- <-.
    destruct (IHa _ _ _ H1) as [-> L1]. destruct (IHb _ _ _ H2) as [-> L2].
    split; [now rewrite app_assoc | simpl; rewrite length_app; lia].
  - apply in_app_or in Hin. destruct Hin as [Hin|[Heq|[]]].
    + destruct (IHa _ _ _ Hin) as [-> _]. split; [reflexivity | simpl; lia].
    + injection Heq as <- <-. split; [reflexivity | simpl; lia].
  - exact (star_matches_sound (matches a) (min_len a) IHa (S (length s)) s m rest Hin).
Qed.

Lemma re_match_sound (r : re) (s m rest : pystr) :
  re_match r s = Some (m, rest) -> s = m ++ rest /\ min_len r <= length m.
Proof.
  unfold re_match. intros H. apply (matches_sound r s).
  destruct (matches r s) as [|x l]; simpl in H; [discriminate|].
  injection H as ->. now left.
Qed.

End ReFacts.

(** ** Segmentation *)

Section SegmentationFacts.
Import PyStr Re Processor.

(** A heading found in a stripped sentence is not empty. *)
Lemma matched_title_nonempty (r : re) (s t : pystr) :
  1 <= min_len r -> matched_title r (strip s) = Some t -> t <> [].
Proof.
  unfold matched_title. intros Hlen H.
  destruct (re_match r (strip s)) as [[m rest]|] eqn:E; simpl in H; [|discriminate].
  injection H as <-.
  destruct (re_match_sound _ _ _ _ E) as [Hs Hm].
  destruct m as [|c m']; [simpl in Hm; lia|].
  assert (Hc : is_space c = false) by (apply (strip_head s c (m' ++ rest)); exact Hs).
  destruct (strip_keeps_head c m' Hc) as [t' Ht']. rewrite Ht'. discriminate.
Qed.

Lemma heading_min_len (kw : pystr) : 1 <= min_len (heading_pattern kw).
Proof.
  unfold heading_pattern. simpl. lia.
Qed.

Lemma article_min_len : 1 <= min_len article_start_pattern.
Proof. vm_compute. lia. Qed.

(** What the scan maintains: emitted articles have a title and a content, and
    an open buffer starts with a line that starts with a character that is
    not white space. *)
Definition article_ok (a : Document) : Prop :=
  (exists t, article_title (metadata a) = Some t /\ t <> []) /\ page_content a <> [].

Definition buffer_ok (buf : list pystr) : Prop :=
  match buf with
  | [] => True
  | x :: _ => exists c t, x = c :: t /\ is_space c = false
  end.

Definition seg_inv (st : SegState) : Prop :=
  Forall article_ok (langchain_articles st) /\ buffer_ok (current_article_content st).

Lemma flush_content_nonempty (buf : list pystr) :
  buf <> [] -> buffer_ok buf -> strip (join [LF] buf) <> [].
Proof.
  destruct buf as [|x rest]; [congruence|]. intros _ (c & t & -> & Hc).
  destruct (join_cons_head [LF] c t rest) as [u Hu]. rewrite Hu.
  destruct (strip_keeps_head c u Hc) as [t' Ht']. rewrite Ht'. discriminate.
Qed.

Lemma add_article_inv (st : SegState) :
  seg_inv st -> seg_inv (add_article_to_list st)
                /\ current_article_content (add_article_to_list st) = []
                /\ current_article_full_title (add_article_to_list st) = None.
Proof.
  intros [Ha Hb]. unfold add_article_to_list, seg_inv. simpl.
  repeat split; try exact I.
  destruct (current_article_full_title st) as [title|]; [|exact Ha].
  destruct (current_article_content st) as [|x rest] eqn:Eb; [exact Ha|].
  destruct (truthy title) eqn:Et; [|exact Ha].
  apply Forall_app. split; [exact Ha|]. constructor; [|constructor].
  split; cbn [page_content metadata article_title].
  - exists title. split; [reflexivity | now apply truthy_nonempty].
  - apply flush_content_nonempty; [discriminate | exact Hb].
Qed.

Lemma buffer_ok_snoc (buf : list pystr) (raw : pystr) :
  strip raw <> [] -> buffer_ok buf -> buffer_ok (buf ++ [strip raw]).
Proof.
  intros Hne Hb. destruct buf as [|x rest]; simpl; [|exact Hb].
  destruct (strip raw) as [|c t] eqn:E; [congruence|].
  exists c, t. split; [reflexivity | exact (strip_head raw c t E)].
Qed.

Lemma seg_step_inv (st : SegState) (raw : pystr) :
  seg_inv st -> seg_inv (seg_step st raw).
Proof.
  intros Hinv. unfold seg_step.
  destruct (truthy (strip raw)) eqn:Et; simpl; [|exact Hinv].
  assert (Hne : strip raw <> []) by now apply truthy_nonempty.
  destruct (add_article_inv st Hinv) as ([Ha Hb] & Hnil & _).
  destruct (matched_title section_start_pattern (strip raw)); [split; assumption|].
  destruct (matched_title chapter_start_pattern (strip raw)); [split; assumption|].
  destruct (matched_title paragraph_start_pattern (strip raw)); [split; assumption|].
  destruct (matched_title article_start_pattern (strip raw)).
  - split; [exact Ha | exact (buffer_ok_snoc [] raw Hne I)].
  - destruct (truthy_opt (current_article_full_title st)); [|exact Hinv].
    destruct Hinv as [Ha' Hb']. split; [exact Ha' | exact (buffer_ok_snoc _ raw Hne Hb')].
Qed.

Lemma seg_scan_inv (sents : list pystr) (st : SegState) :
  seg_inv st -> seg_inv (seg_scan st sents).
Proof.
  revert st. induction sents as [|s r IH]; intros st H; simpl; [exact H|].
  apply IH. now apply seg_step_inv.
Qed.

Lemma seg_init_inv : seg_inv seg_init.
Proof. split; simpl; [constructor | exact I]. Qed.

(** C1. Whatever the sentences, every article that [segment_into_articles]
    emits has a non-empty title and a non-empty content, and a flush with no
    title or with an empty buffer emits nothing. *)
Theorem segment_emits_nonempty_articles :
  (forall sents : list pystr,
     Forall (fun a => (exists t, article_title (metadata a) = Some t /\ t <> [])
                      /\ page_content a <> [])
            (segment_sentences sents))
  /\ (forall st : SegState,
        truthy_opt (current_article_full_title st) = false
        \/ current_article_content st = [] ->
        langchain_articles (add_article_to_list st) = langchain_articles st).
Proof.
  split.
  - intros sents. unfold segment_sentences.
    exact (proj1 (proj1 (add_article_inv _ (seg_scan_inv sents seg_init seg_init_inv)))).
  - intros st [H|H]; unfold add_article_to_list; simpl.
    + destruct (current_article_full_title st) as [t|]; [|reflexivity].
      simpl in H. rewrite H. now destruct (current_article_content st).
    + rewrite H. now destruct (current_article_full_title st).
Qed.

End SegmentationFacts.

(** *** The five-sentence scenario *)

Definition scenario_section : PyStr.pystr := PyStr.py "Раздел 1. Общие положения.".
Definition scenario_title1 : PyStr.pystr := PyStr.py "Статья 1. Предмет регулирования.".
Definition scenario_body1 : PyStr.pystr := PyStr.py "Закон регулирует отношения.".
Definition scenario_title2 : PyStr.pystr := PyStr.py "Статья 2. Основные понятия.".
Definition scenario_body2 : PyStr.pystr := PyStr.py "Используются следующие понятия.".

Definition scenario : list PyStr.pystr :=
  [scenario_section; scenario_title1; scenario_body1; scenario_title2; scenario_body2].

Section ScenarioFacts.
Import PyStr Re Processor.

(** C3. The scenario yields exactly two articles, both under the section
    heading; each has its heading as title and its body sentence in its
    content. *)
Theorem scenario_yields_two_articles :
  exists a1 a2 : Document,
    segment_sentences scenario = [a1; a2]
    /\ section_title (metadata a1) = Some scenario_section
    /\ section_title (metadata a2) = Some scenario_section
    /\ article_title (metadata a1) = Some scenario_title1
    /\ contains (page_content a1) scenario_body1 = true
    /\ article_title (metadata a2) = Some scenario_title2
    /\ contains (page_content a2) scenario_body2 = true.
Proof.
  exists (mkDocument (scenario_title1 ++ [LF] ++ scenario_body1)
            (mkMetadata (Some scenario_title1) (Some scenario_section) None None None None)).
  exists (mkDocument (scenario_title2 ++ [LF] ++ scenario_body2)
            (mkMetadata (Some scenario_title2) (Some scenario_section) None None None None)).
  repeat split; vm_compute; reflexivity.
Qed.

End ScenarioFacts.

(** *** Carry-over of the hierarchical state *)

Section CarryOverFacts.
Import PyStr Re Processor.

Lemma matched_title_subject_nonempty (r : re) (s t : pystr) :
  1 <= min_len r -> matched_title r s = Some t -> s <> [].
Proof.
  unfold matched_title. intros Hlen H.
  destruct (re_match r s) as [[m rest]|] eqn:E; [|discriminate].
  destruct (re_match_sound _ _ _ _ E) as [-> Hm].
  destruct m; [simpl in Hm; lia | discriminate].
Qed.

(** A flush leaves the emitted articles alone or adds one, tagged with the
    current section. *)
Lemma flush_appends (st : SegState) :
  exists new,
    langchain_articles (add_article_to_list st) = langchain_articles st ++ new
    /\ Forall (fun a => section_title (metadata a)
                        = keep_if_truthy (current_section_title st)) new.
Proof.
  unfold add_article_to_list. cbn [langchain_articles].
  destruct (current_article_full_title st) as [title|];
    [|exists []; now rewrite app_nil_r].
  destruct (current_article_content st) as [|x rest];
    [exists []; now rewrite app_nil_r|].
  destruct (truthy title); [|exists []; now rewrite app_nil_r].
  eexists. split; [reflexivity|]. constructor; [reflexivity | constructor].
Qed.

Lemma flush_keeps_hierarchy (st : SegState) :
  current_section_title (add_article_to_list st) = current_section_title st
  /\ current_chapter_title (add_article_to_list st) = current_chapter_title st
  /\ current_paragraph_title (add_article_to_list st) = current_paragraph_title st.
Proof. repeat split. Qed.

(** A sentence that is not a section heading keeps the section, and emits at
    most what a flush emits. *)
Lemma seg_step_keeps_section (st : SegState) (raw : pystr) :
  matched_title section_start_pattern (strip raw) = None ->
  current_section_title (seg_step st raw) = current_section_title st
  /\ (langchain_articles (seg_step st raw) = langchain_articles st
      \/ langchain_articles (seg_step st raw)
         = langchain_articles (add_article_to_list st)).
Proof.
  intros H. unfold seg_step. rewrite H.
  destruct (truthy (strip raw)); cbn [negb]; [|now split; [|left]].
  destruct (matched_title chapter_start_pattern (strip raw)); [now split; [|right]|].
  destruct (matched_title paragraph_start_pattern (strip raw)); [now split; [|right]|].
  destruct (matched_title article_start_pattern (strip raw)); [now split; [|right]|].
  destruct (truthy_opt (current_article_full_title st)); now split; [|left].
Qed.

Definition carries (t : pystr) (a : Document) : Prop :=
  section_title (metadata a) = Some t.

Lemma scan_under_section (t : pystr) (before : list Document) (mid : list pystr) :
  t <> [] ->
  Forall (fun s => matched_title section_start_pattern (strip s) = None) mid ->
  forall st after,
    current_section_title st = Some t ->
    langchain_articles st = before ++ after ->
    Forall (carries t) after ->
    exists after',
      current_section_title (seg_scan st mid) = Some t
      /\ langchain_articles (seg_scan st mid) = before ++ after'
      /\ Forall (carries t) after'.
Proof.
  intros Ht Hmid. induction Hmid as [|s mid Hs _ IH]; intros st after Hsec Hart Hall.
  - exists after. now repeat split.
  - cbn [seg_scan fold_left]. fold (seg_scan (seg_step st s) mid).
    destruct (seg_step_keeps_section st s Hs) as [Hk [Hsame|Hflush]].
    + apply (IH _ after); [congruence | congruence | exact Hall].
    + destruct (flush_appends st) as (new & Hnew & Hcar).
      apply (IH _ (after ++ new)).
      * congruence.
      * rewrite Hflush, Hnew, Hart. now rewrite app_assoc.
      * apply Forall_app. split; [exact Hall|].
        rewrite Hsec in Hcar. unfold keep_if_truthy in Hcar. cbn [truthy_opt] in Hcar.
        apply truthy_nonempty in Ht. rewrite Ht in Hcar. exact Hcar.
Qed.

(** C2. Once a section heading [h] has been scanned, every article emitted
    afterwards, up to and including the flush at the next section heading or at
    the end of the text, has its title [t] as section title.  A chapter
    heading keeps the section and clears the paragraph marker, and a flush
    keeps section, chapter and paragraph marker. *)
Theorem section_title_carries_over
  (pre mid : list pystr) (h t : pystr)
  (Hhead : matched_title section_start_pattern (strip h) = Some t)
  (Hmid : Forall (fun s => matched_title section_start_pattern (strip s) = None) mid) :
  (exists after,
     segment_sentences (pre ++ h :: mid)
     = langchain_articles (seg_scan seg_init (pre ++ [h])) ++ after
     /\ Forall (fun a => section_title (metadata a) = Some t) after)
  /\ (forall (st : SegState) (raw t2 : pystr),
        matched_title section_start_pattern (strip raw) = Some t2 ->
        langchain_articles (seg_step st raw)
        = langchain_articles (add_article_to_list st)
        /\ current_section_title (seg_step st raw) = Some t2)
  /\ (forall (st : SegState) (raw c : pystr),
        matched_title section_start_pattern (strip raw) = None ->
        matched_title chapter_start_pattern (strip raw) = Some c ->
        current_section_title (seg_step st raw) = current_section_title st
        /\ current_chapter_title (seg_step st raw) = Some c
        /\ current_paragraph_title (seg_step st raw) = None)
  /\ (forall st : SegState,
        current_section_title (add_article_to_list st) = current_section_title st
        /\ current_chapter_title (add_article_to_list st) = current_chapter_title st
        /\ current_paragraph_title (add_article_to_list st) = current_paragraph_title st).
Proof.
  assert (Ht : t <> []) by exact (matched_title_nonempty _ h t (heading_min_len _) Hhead).
  assert (Hstep : forall st raw t2,
             matched_title section_start_pattern (strip raw) = Some t2 ->
             langchain_articles (seg_step st raw)
             = langchain_articles (add_article_to_list st)
             /\ current_section_title (seg_step st raw) = Some t2).
  { intros st raw t2 H. unfold seg_step. rewrite H.
    assert (Hne := matched_title_subject_nonempty _ _ t2 (heading_min_len _) H).
    apply truthy_nonempty in Hne. rewrite Hne. now split. }
  split; [|split; [exact Hstep|split; [|exact flush_keeps_hierarchy]]].
  - unfold segment_sentences.
    replace (pre ++ h :: mid) with ((pre ++ [h]) ++ mid) by now rewrite <- app_assoc.
    unfold seg_scan at 1. rewrite fold_left_app. fold (seg_scan seg_init (pre ++ [h])).
    set (st1 := seg_scan seg_init (pre ++ [h])).
    fold (seg_scan st1 mid).
    assert (Hsec1 : current_section_title st1 = Some t).
    { unfold st1, seg_scan. rewrite fold_left_app. cbn [fold_left].
      apply (Hstep _ h t Hhead). }
    destruct (scan_under_section t (langchain_articles st1) mid Ht Hmid st1 [] Hsec1
                (eq_sym (app_nil_r _)) (Forall_nil _)) as (after' & Hs & Ha & Hc).
    destruct (flush_appends (seg_scan st1 mid)) as (new & Hnew & Hcar).
    exists (after' ++ new). split.
    + rewrite Hnew, Ha. now rewrite app_assoc.
    + apply Forall_app. split; [exact Hc|].
      rewrite Hs in Hcar. unfold keep_if_truthy in Hcar. cbn [truthy_opt] in Hcar.
      apply truthy_nonempty in Ht. rewrite Ht in Hcar. exact Hcar.
  - intros st raw c Hn Hc. unfold seg_step. rewrite Hn, Hc.
    assert (Hne := matched_title_subject_nonempty _ _ c (heading_min_len _) Hc).
    apply truthy_nonempty in Hne. rewrite Hne. now repeat split.
Qed.

(** The scenario's section heading followed by its four other sentences. *)
Lemma section_title_carries_over_witness :
  (exists after,
     segment_sentences ([] ++ scenario_section
                            :: [scenario_title1; scenario_body1;
                                scenario_title2; scenario_body2])
     = langchain_articles (seg_scan seg_init ([] ++ [scenario_section])) ++ after
     /\ Forall (fun a => section_title (metadata a)
                         = Some (strip scenario_section)) after)
  /\ length (segment_sentences scenario) = 2.
Proof.
  split; [|vm_compute; reflexivity].
  apply (section_title_carries_over []
           [scenario_title1; scenario_body1; scenario_title2; scenario_body2]
           scenario_section (strip scenario_section)).
  - vm_compute. reflexivity.
  - repeat constructor; vm_compute; reflexivity.
Defined.

End CarryOverFacts.

(** ** Keywords *)

Section KeywordFacts.
Import PyStr Exn Processor.

Lemma str_eqb_eq (a b : pystr) : str_eqb a b = true <-> a = b.
Proof. unfold str_eqb. destruct (list_eq_dec N.eq_dec a b); split; congruence. Qed.

Lemma in_set_In (x : pystr) (l : list pystr) : in_set x l = true <-> In x l.
Proof.
  unfold in_set. rewrite existsb_exists. split.
  - intros (y & Hy & E). apply str_eqb_eq in E. now subst.
  - intros H. exists x. split; [exact H | now apply str_eqb_eq].
Qed.

(** Counting a key again keeps the keys; a new key goes last. *)
Lemma counter_incr_keys (k : pystr) (c : Counter) :
  map fst (counter_incr k c)
  = if in_set k (map fst c) then map fst c else map fst c ++ [k].
Proof.
  induction c as [|[k' n] t IH]; [reflexivity|].
  cbn [counter_incr fst snd map in_set existsb]. fold (in_set k (map fst t)).
  destruct (str_eqb k' k) eqn:E.
  - apply str_eqb_eq in E. subst k'.
    assert (R : str_eqb k k = true) by now apply str_eqb_eq.
    now rewrite R.
  - assert (R : str_eqb k k' = false).
    { destruct (str_eqb k k') eqn:E'; [|reflexivity].
      apply str_eqb_eq in E'. subst. assert (str_eqb k' k' = true) by now apply str_eqb_eq.
      congruence. }
    rewrite R. cbn [orb map fst]. rewrite IH.
    now destruct (in_set k (map fst t)).
Qed.

Lemma counter_incr_NoDup (k : pystr) (c : Counter) :
  NoDup (map fst c) -> NoDup (map fst (counter_incr k c)).
Proof.
  intros H. rewrite counter_incr_keys.
  destruct (in_set k (map fst c)) eqn:E; [exact H|].
  apply NoDup_app; [exact H | repeat constructor; intros [] | ].
  intros x Hx [<-|[]]. apply in_set_In in Hx. congruence.
Qed.

Lemma insert_desc_perm (x : pystr * nat) (l : Counter) :
  Permutation (insert_desc x l) (x :: l).
Proof.
  induction l as [|y t IH]; cbn [insert_desc]; [reflexivity|].
  destruct (snd y <? snd x)%nat; [reflexivity|].
  rewrite IH. apply perm_swap.
Qed.

Lemma most_common_perm (c : Counter) : Permutation (most_common c) c.
Proof.
  unfold most_common.
  assert (G : forall acc, Permutation (fold_left (fun a x => insert_desc x a) c acc)
                                      (acc ++ c)).
  { induction c as [|x t IH]; intros acc; cbn [fold_left].
    - now rewrite app_nil_r.
    - rewrite IH, insert_desc_perm. cbn [app]. apply Permutation_middle. }
  exact (G []).
Qed.

Section WithPipeline.
Variable unicode_lower : pystr -> nat -> pystr.
Variable nlp : pystr -> pystr + Doc.

Lemma count_candidates_NoDup (title_tokens : list pystr) (doc : list Token) :
  NoDup (map fst (count_candidates unicode_lower title_tokens doc)).
Proof.
  unfold count_candidates.
  assert (G : forall acc : Counter,
             NoDup (map fst acc) ->
             NoDup (map fst
               (fold_left
                  (fun candidates token =>
                     if token_passes token && truthy (strip (text token)) then
                       let lemma := str_lower unicode_lower (lemma_ token) in
                       if negb (in_set lemma title_tokens)
                       then counter_incr lemma candidates
                       else candidates
                     else candidates) doc acc))).
  { induction doc as [|tk r IH]; intros acc H; cbn [fold_left]; [exact H|].
    apply IH.
    destruct (token_passes tk && truthy (strip (text tk))); [|exact H].
    cbv zeta. destruct (negb (in_set _ title_tokens)); [|exact H].
    now apply counter_incr_NoDup. }
  apply G. constructor.
Qed.

Lemma filter_candidates_spec (title_tokens : list pystr) (c : Counter) :
  NoDup (map fst c) ->
  NoDup (filter_candidates title_tokens c)
  /\ Forall (fun k => (2 < len k)%Z /\ ~ In k title_tokens) (filter_candidates title_tokens c).
Proof.
  intros H. unfold filter_candidates.
  assert (Hmc : NoDup (map fst (most_common c))).
  { apply (Permutation_NoDup (l := map fst c)); [|exact H].
    apply Permutation_map, Permutation_sym, most_common_perm. }
  induction (most_common c) as [|[k n] t IH]; cbn [filter map fst].
  - split; constructor.
  - inversion Hmc as [|? ? Hnotin Hnd]; subst.
    destruct (IH Hnd) as [IH1 IH2].
    destruct ((2 <? len k)%Z && negb (in_set k title_tokens)) eqn:E; cbn [map fst].
    + apply andb_prop in E. destruct E as [E1 E2].
      split.
      * constructor; [|exact IH1]. intros Hin. apply Hnotin.
        apply in_map_iff in Hin. destruct Hin as (y & <- & Hy).
        apply filter_In in Hy. apply in_map. tauto.
      * constructor; [|exact IH2]. split; [now apply Z.ltb_lt|].
        intros Hin. apply in_set_In in Hin. rewrite Hin in E2. discriminate.
    + now split.
Qed.

Lemma slice_to_nonneg {A} (l : list A) (n : Z) :
  (0 <= n)%Z -> slice_to l n = firstn (Z.to_nat n) l.
Proof. intros H. unfold slice_to. destruct (Z.ltb_spec n 0); [lia | reflexivity]. Qed.

Lemma In_firstn_In {A} (n : nat) (l : list A) (x : A) : In x (firstn n l) -> In x l.
Proof.
  intros H. rewrite <- (firstn_skipn n l). apply in_or_app. now left.
Qed.

Lemma NoDup_firstn {A} (n : nat) (l : list A) : NoDup l -> NoDup (firstn n l).
Proof.
  revert n. induction l as [|x t IH]; intros [|n] H; cbn [firstn]; try constructor.
  - inversion H as [|? ? Hx Hnd]; subst. intros Hin. apply Hx.
    exact (In_firstn_In n t x Hin).
  - inversion H; subst. now apply IH.
Qed.

(** C4. For a non-negative [num_keywords] (7 unless the caller says
    otherwise), the keywords returned are at most [num_keywords], pairwise
    distinct, longer than two characters, and none of them is among the
    filtered (lower-cased) lemmas of the title. *)
Theorem keywords_bounded_distinct_long_untitled
  (text_ title_ : pystr) (num_keywords : Z) (kws : list pystr) (tp : pystr)
  (Hn : (0 <= num_keywords)%Z)
  (Hrun : extract_keywords_and_topic unicode_lower nlp text_ title_ num_keywords
          = Ok (kws, tp)) :
  (Z.of_nat (length kws) <= num_keywords)%Z
  /\ NoDup kws
  /\ Forall (fun k => (2 < len k)%Z) kws
  /\ exists title_doc,
       nlp title_ = inr title_doc
       /\ Forall (fun k => ~ In k (title_token_set unicode_lower (tokens title_doc))) kws.
Proof.
  unfold extract_keywords_and_topic, bind, call in Hrun.
  destruct (nlp text_) as [e|doc]; [discriminate|].
  destruct (nlp title_) as [e|title_doc]; [discriminate|].
  cbv zeta in Hrun. injection Hrun as <- _.
  set (tt := title_token_set unicode_lower (tokens title_doc)).
  destruct (filter_candidates_spec tt (count_candidates unicode_lower tt (tokens doc))
              (count_candidates_NoDup tt (tokens doc))) as [Hnd Hall].
  rewrite slice_to_nonneg by exact Hn.
  set (fc := filter_candidates tt (count_candidates unicode_lower tt (tokens doc))) in *.
  assert (Hsub : Forall (fun k => (2 < len k)%Z /\ ~ In k tt) (firstn (Z.to_nat num_keywords) fc)).
  { apply Forall_forall. intros k Hk. rewrite Forall_forall in Hall. apply Hall.
    rewrite <- (firstn_skipn (Z.to_nat num_keywords) fc). apply in_or_app. now left. }
  split; [|split; [|split]].
  - assert (L := firstn_le_length (Z.to_nat num_keywords) fc). lia.
  - now apply NoDup_firstn.
  - eapply Forall_impl; [|exact Hsub]. now intros k [H _].
  - exists title_doc. split; [reflexivity|].
    eapply Forall_impl; [|exact Hsub]. now intros k [_ H].
Qed.

End WithPipeline.

(** A lower-casing that leaves code points outside ASCII as they are. *)
Definition keep_nonascii (s : pystr) (i : nat) : pystr := [nth i s 0%N].

(** A small pipeline: every word is a token and its own lemma. *)
Definition toy_token (w : pystr) : Token := mkToken w w false false false.

Definition toy_nlp (s : pystr) : pystr + Doc :=
  if str_eqb s (py "Статья 1. Закон") then
    inr (mkDoc [s] (map toy_token [py "статья"; py "1"; py "закон"]))
  else
    inr (mkDoc [s] (map toy_token
          [py "закон"; py "право"; py "суд"; py "право"; py "и"; py "суд"; py "право"])).

Lemma keywords_bounded_distinct_long_untitled_witness :
  extract_keywords_and_topic keep_nonascii toy_nlp (py "текст") (py "Статья 1. Закон") 7
  = Ok ([py "право"; py "суд"], py "право")
  /\ ((Z.of_nat (length [py "право"; py "суд"]) <= 7)%Z
      /\ NoDup [py "право"; py "суд"]
      /\ Forall (fun k => (2 < len k)%Z) [py "право"; py "суд"]
      /\ exists title_doc,
           toy_nlp (py "Статья 1. Закон") = inr title_doc
           /\ Forall (fun k => ~ In k (title_token_set keep_nonascii (tokens title_doc)))
                     [py "право"; py "суд"]).
Proof.
  split; [vm_compute; reflexivity|].
  apply (keywords_bounded_distinct_long_untitled keep_nonascii toy_nlp
           (py "текст") (py "Статья 1. Закон") 7 [py "право"; py "суд"] (py "право")).
  - lia.
  - vm_compute. reflexivity.
Defined.

End KeywordFacts.

(** ** File names *)

Section FilenameFacts.
Import PyStr Re OsPath Processor.
Local Open Scope Z_scope.

Lemma len_app (a b : pystr) : len (a ++ b) = len a + len b.
Proof. unfold len. rewrite length_app. lia. Qed.

Lemma len_nonneg (a : pystr) : 0 <= len a.
Proof. unfold len. lia. Qed.

Lemma len_firstn_le (n : nat) (a : pystr) : len (firstn n a) <= Z.of_nat n.
Proof. unfold len. assert (H := firstn_le_length n a). lia. Qed.

Lemma In_lstrip (x : cp) (s : pystr) : In x (lstrip s) -> In x s.
Proof.
  induction s as [|c r IH]; cbn [lstrip]; [tauto|].
  destruct (is_space c); [right; auto | tauto].
Qed.

Lemma In_strip (x : cp) (s : pystr) : In x (strip s) -> In x s.
Proof.
  unfold strip, rstrip. intros H. apply In_lstrip.
  apply in_rev in H. apply In_lstrip in H. now apply in_rev in H.
Qed.

Lemma len_slice_to (s : pystr) (n : Z) : 0 <= n -> len (slice_to s n) <= n.
Proof.
  intros H. rewrite slice_to_nonneg by exact H.
  assert (L := len_firstn_le (Z.to_nat n) s). lia.
Qed.

Lemma In_slice_to (x : cp) (s : pystr) (n : Z) : In x (slice_to s n) -> In x s.
Proof. unfold slice_to. destruct (n <? 0); apply In_firstn_In. Qed.

(** What every part of a file name satisfies: bounded, and free of slashes. *)
Definition part_ok (bound : Z) (p : pystr) : Prop := len p <= bound /\ ~ In SLASH p.

Lemma part_ok_weaken (a b : Z) (p : pystr) : a <= b -> part_ok a p -> part_ok b p.
Proof. intros H [H1 H2]. split; [lia | exact H2]. Qed.

Lemma part_ok_nil (b : Z) : 0 <= b -> part_ok b [].
Proof. intros H. split; [unfold len; simpl; lia | intros []]. Qed.

Lemma sanitize_ok (text_ : pystr) (n : Z) :
  0 <= n -> part_ok n (sanitize_string_for_filename text_ n).
Proof.
  intros Hn. unfold sanitize_string_for_filename. split.
  - now apply len_slice_to.
  - intros H. apply In_slice_to, In_strip in H.
    unfold replace_char in H. apply in_map_iff in H. destruct H as (c & Hc & Hin).
    apply filter_In in Hin. destruct Hin as [_ Hmem].
    destruct (c =? SPACE)%N; [discriminate|].
    subst c. vm_compute in Hmem. discriminate.
Qed.

Lemma structure_id_ok (title prefix : pystr) :
  part_ok 50 (get_structure_filename_id title prefix 50).
Proof.
  unfold get_structure_filename_id.
  destruct (re_search _ title); [apply sanitize_ok; lia | apply part_ok_nil; lia].
Qed.

Lemma keyword_segment_ok (kws : list pystr) :
  part_ok 50 (join [UNDERSCORE]
                (map (fun k => sanitize_string_for_filename k 20) (slice_to kws 2))).
Proof.
  rewrite slice_to_nonneg by lia. change (Z.to_nat 2) with 2%nat.
  destruct kws as [|k1 [|k2 r]]; cbn [firstn map join].
  - apply part_ok_nil; lia.
  - apply (part_ok_weaken 20); [lia | apply sanitize_ok; lia].
  - destruct (sanitize_ok k1 20 ltac:(lia)) as [L1 S1].
    destruct (sanitize_ok k2 20 ltac:(lia)) as [L2 S2].
    split.
    + rewrite !len_app. change (len [UNDERSCORE]) with 1. lia.
    + intros H. apply in_app_or in H. destruct H as [H|H]; [tauto|].
      apply in_app_or in H. destruct H as [[H|[]]|H]; [discriminate | tauto].
Qed.

Lemma Forall_app2 {A} (P : A -> Prop) (l1 l2 : list A) :
  Forall P l1 -> Forall P l2 -> Forall P (l1 ++ l2).
Proof. intros H1 H2. apply Forall_app. now split. Qed.

Lemma Forall_optional (P : pystr -> Prop) (b : bool) (x : pystr) :
  P x -> Forall P (if b then [x] else []).
Proof. intros H. destruct b; repeat constructor. exact H. Qed.

Lemma filename_parts_ok (prefix : pystr) (i : nat) (a : Document) :
  part_ok 40 prefix -> Forall (part_ok 50) (filename_parts prefix i a).
Proof.
  intros Hp. unfold filename_parts. cbv zeta.
  apply Forall_app2.
  { constructor; [|constructor]. apply (part_ok_weaken 40); [lia | exact Hp]. }
  apply Forall_app2; [apply Forall_optional, structure_id_ok|].
  apply Forall_app2; [apply Forall_optional, structure_id_ok|].
  apply Forall_app2; [apply Forall_optional, structure_id_ok|].
  apply Forall_app2; [apply Forall_optional, structure_id_ok|].
  apply Forall_app2.
  { destruct (truthy (strip _)); [|constructor].
    apply Forall_optional, sanitize_ok. lia. }
  destruct (match keywords (metadata a) with Some l => l | None => [] end) as [|k r];
    [constructor|].
  apply Forall_optional, keyword_segment_ok.
Qed.

(** Joined parts longer than one part can be contain the separator. *)
Lemma join_parts_ok (ps : list pystr) :
  Forall (part_ok 50) ps ->
  ~ In SLASH (join [UNDERSCORE] ps)
  /\ (50 < len (join [UNDERSCORE] ps) -> In UNDERSCORE (join [UNDERSCORE] ps)).
Proof.
  induction ps as [|p [|q r] IH]; intros H; cbn [join].
  - split; [intros [] | unfold len; simpl; lia].
  - inversion H as [|? ? [L S] _]; subst. split; [exact S | lia].
  - inversion H as [|? ? [L S] Hr]; subst. destruct (IH Hr) as [S' _]. split.
    + intros Hin. apply in_app_or in Hin. destruct Hin as [Hin|Hin]; [tauto|].
      apply in_app_or in Hin. destruct Hin as [[E|[]]|Hin]; [discriminate | tauto].
    + intros _. apply in_or_app. right. now left.
Qed.

Lemma rfind_from_absent (c : cp) (p : pystr) (i last : Z) :
  ~ In c p -> rfind_from c p i last = last.
Proof.
  revert i last. induction p as [|x t IH]; intros i last H; cbn [rfind_from]; [reflexivity|].
  rewrite IH by (intros Hin; apply H; now right).
  destruct (N.eqb_spec x c) as [->|_]; [|reflexivity]. exfalso. apply H. now left.
Qed.

Lemma rfind_from_last (c : cp) (l r : pystr) (i last : Z) :
  ~ In c r -> rfind_from c (l ++ c :: r) i last = i + len l.
Proof.
  intros Hr. revert i last. induction l as [|x t IH]; intros i last; cbn [app rfind_from].
  - rewrite N.eqb_refl. rewrite rfind_from_absent by exact Hr. unfold len. simpl. lia.
  - rewrite IH. unfold len. cbn [length]. lia.
Qed.

(** [splitext] of a plain name with a [.md] extension. *)
Lemma splitext_md (base : pystr) :
  ~ In SLASH base -> (exists c, In c base /\ c <> DOT) ->
  splitext (base ++ lit_md) = (base, lit_md).
Proof.
  intros Hs (c & Hc & Hd). unfold splitext.
  assert (R1 : rfind SLASH (base ++ lit_md) = -1).
  { unfold rfind. apply rfind_from_absent. intros H. apply in_app_or in H.
    destruct H as [H|H]; [tauto|]. vm_compute in H. intuition discriminate. }
  assert (R2 : rfind DOT (base ++ lit_md) = len base).
  { unfold rfind. change lit_md with (DOT :: [109; 100]%N).
    rewrite rfind_from_last; [lia|]. vm_compute. intuition discriminate. }
  rewrite R1, R2. change (-1 + 1) with 0.
  assert (T : Z.to_nat (len base) = length base) by (unfold len; lia).
  unfold substr. rewrite Z.sub_0_r, T. change (Z.to_nat 0) with 0%nat. cbn [skipn].
  rewrite firstn_app, Nat.sub_diag, firstn_all, firstn_O, app_nil_r.
  rewrite skipn_app, Nat.sub_diag, skipn_all, skipn_O. cbn [app].
  assert (E : existsb (fun c => negb (c =? DOT)%N) base = true).
  { apply existsb_exists. exists c. split; [exact Hc|].
    destruct (N.eqb_spec c DOT); [contradiction | reflexivity]. }
  rewrite E. assert (L := len_nonneg base).
  destruct (Z.ltb_spec (-1) (len base)); [reflexivity | lia].
Qed.

Lemma startswith_app (a b : pystr) : startswith (a ++ b) a = true.
Proof.
  induction a as [|x t IH]; cbn [app startswith]; [now destruct b|].
  now rewrite N.eqb_refl, IH.
Qed.

Lemma endswith_app (a b : pystr) : endswith (a ++ b) b = true.
Proof. unfold endswith. rewrite rev_app_distr. apply startswith_app. Qed.

(** C5. The synthesized file name is at most 200 characters long and ends in
    [.md]; a longer assembled name is cut, before the extension, to exactly
    200 characters, and a shorter one is kept as it is. *)
Theorem synthesized_filename_capped (doc_base_name : pystr) (i : nat) (a : Document) :
  let prefix := sanitize_string_for_filename doc_base_name 40 in
  let base := join [UNDERSCORE] (filter truthy (filename_parts prefix i a)) in
  let filename := synthesize_filename prefix i a in
  len filename <= 200
  /\ endswith filename lit_md = true
  /\ (200 < len (base ++ lit_md) ->
      filename = firstn 197 base ++ lit_md /\ len filename = 200)
  /\ (len (base ++ lit_md) <= 200 -> filename = base ++ lit_md).
Proof.
  intros prefix base filename.
  assert (Hparts : Forall (part_ok 50) (filter truthy (filename_parts prefix i a))).
  { assert (H := filename_parts_ok prefix i a (sanitize_ok doc_base_name 40 ltac:(lia))).
    rewrite Forall_forall in *. intros p Hp. apply filter_In in Hp. now apply H. }
  destruct (join_parts_ok _ Hparts) as [Hslash Hsep]. fold base in Hslash, Hsep.
  assert (Lmd : len lit_md = 3) by reflexivity.
  assert (Hlong : 200 < len (base ++ lit_md) ->
                  filename = firstn 197 base ++ lit_md /\ len filename = 200).
  { intros Hgt. rewrite len_app, Lmd in Hgt.
    assert (Hfn : filename = firstn 197 base ++ lit_md).
    { unfold filename, synthesize_filename. cbv zeta. fold prefix. fold base.
      unfold max_total_filename_length.
      assert (R : (200 <? len (base ++ lit_md)) = true)
        by (apply Z.ltb_lt; rewrite len_app, Lmd; lia).
      rewrite R, splitext_md.
      - cbn [fst snd]. rewrite Lmd, slice_to_nonneg by lia. reflexivity.
      - exact Hslash.
      - exists UNDERSCORE. split; [apply Hsep; lia | discriminate]. }
    split; [exact Hfn|]. rewrite Hfn, len_app, Lmd. unfold len in *.
    rewrite firstn_length_le by lia. lia. }
  assert (Hshort : len (base ++ lit_md) <= 200 -> filename = base ++ lit_md).
  { intros Hle. unfold filename, synthesize_filename. cbv zeta. fold prefix. fold base.
    unfold max_total_filename_length.
    destruct (Z.ltb_spec 200 (len (base ++ lit_md))); [lia | reflexivity]. }
  destruct (Z.le_gt_cases (len (base ++ lit_md)) 200) as [Hle|Hgt].
  - split; [rewrite (Hshort Hle); exact Hle|].
    split; [rewrite (Hshort Hle); apply endswith_app|].
    split; [intros; lia | exact Hshort].
  - destruct (Hlong Hgt) as [Hfn Hlen]. rewrite Hfn.
    split; [rewrite <- Hfn; lia|]. split; [apply endswith_app|].
    split; [intros _; split; [reflexivity | now rewrite <- Hfn] | intros; lia].
Qed.

End FilenameFacts.

(** ** Format dispatch of the extractor *)

(** The characters of the two supported extensions. *)
Definition is_ext_char (c : PyStr.cp) : bool := Re.mem c (PyStr.py ".docxpf").

(** An ASCII letter [c] is the letter [e], in either case. *)
Definition same_letter (c e : PyStr.cp) : bool :=
  ((c =? e) || ((65 <=? c) && (c <=? 90) && (c + 32 =? e)))%N.

Fixpoint ci_prefix (s pre : PyStr.pystr) : bool :=
  match pre, s with
  | [], _ => true
  | e :: pre', c :: s' => same_letter c e && ci_prefix s' pre'
  | _ :: _, [] => false
  end.

(** The path has the extension [ext]: it ends with it, letters compared
    without regard to case. *)
Definition has_extension (file_path ext : PyStr.pystr) : bool :=
  ci_prefix (rev file_path) (rev ext).

Section ExtractorFacts.
Import PyStr Exn Extractors.
Local Open Scope N_scope.

Variable unicode_lower : pystr -> nat -> pystr.
Variable docx_paragraphs : pystr -> pystr + list pystr.
Variable pdf_pages : pystr -> pystr + list (option pystr).

(** The two facts about the Unicode database that the dispatch rests on:
    the lower-case form of a code point outside ASCII is not empty and has
    none of the characters of the two extensions (it has an ASCII character
    only for U+0130 and U+212A, an [i] and a [k]). *)
Hypothesis lower_nonempty :
  forall s i c, nth_error s i = Some c -> 128 <= c -> unicode_lower s i <> [].
Hypothesis lower_no_ext_char :
  forall s i c x, nth_error s i = Some c -> 128 <= c ->
                  In x (unicode_lower s i) -> is_ext_char x = false.

Lemma lower_from_snoc (s : pystr) (i : nat) (r : pystr) (c : cp) :
  lower_from unicode_lower s i (r ++ [c])
  = lower_from unicode_lower s i r
    ++ (if c <? 128 then [ascii_lower c] else unicode_lower s (i + length r)).
Proof.
  revert i. induction r as [|x t IH]; intros i; cbn [app lower_from length].
  - now rewrite app_nil_r, Nat.add_0_r.
  - rewrite IH, <- app_assoc. now rewrite Nat.add_succ_r.
Qed.

Lemma same_letter_lower (c e : cp) :
  is_ext_char e = true -> (ascii_lower c =? e) = same_letter c e.
Proof.
  intros He. unfold ascii_lower, same_letter.
  assert (Hlow : (65 <=? e) && (e <=? 90) = false).
  { unfold is_ext_char, Re.mem in He. apply existsb_exists in He.
    destruct He as (y & Hy & E). apply N.eqb_eq in E. subst y.
    vm_compute in Hy. intuition (subst; reflexivity). }
  destruct ((65 <=? c) && (c <=? 90)) eqn:U; cbn [andb orb].
  - destruct (N.eqb_spec c e) as [->|_]; [congruence | reflexivity].
  - now rewrite orb_false_r.
Qed.

Lemma ext_char_ascii (e : cp) : is_ext_char e = true -> e < 128.
Proof.
  unfold is_ext_char, Re.mem. intros He. apply existsb_exists in He.
  destruct He as (y & Hy & E). apply N.eqb_eq in E. subst y.
  vm_compute in Hy. intuition (subst; reflexivity).
Qed.

(** Lower-casing and then comparing the end of the path is comparing the end
    of the path without regard to case. *)
Lemma lowered_suffix (s : pystr) (rext : pystr) :
  forallb is_ext_char rext = true ->
  forall pre rest post,
    s = pre ++ rest ++ post ->
    startswith (rev (lower_from unicode_lower s (length pre) rest)) rext
    = ci_prefix (rev rest) rext.
Proof.
  induction rext as [|e re IH]; intros Hall pre rest post Hs.
  - now destruct (rev _), (rev rest).
  - cbn [forallb] in Hall. apply andb_prop in Hall. destruct Hall as [He Hre].
    destruct rest as [|c0 r0] using rev_ind; [reflexivity|]. clear IHr0.
    rename c0 into c, r0 into r.
    rewrite lower_from_snoc, !rev_app_distr. cbn [rev app].
    destruct (N.ltb_spec c 128) as [Hc|Hc].
    + cbn [rev app startswith ci_prefix].
      rewrite (same_letter_lower c e He). f_equal.
      apply (IH Hre pre r ([c] ++ post)). now rewrite Hs, <- app_assoc.
    + assert (Hnth : nth_error s (length pre + length r) = Some c).
      { assert (Hs' : s = (pre ++ r) ++ c :: post)
          by (rewrite Hs, <- !app_assoc; reflexivity).
        rewrite Hs', nth_error_app2 by (rewrite length_app; lia).
        rewrite length_app, Nat.sub_diag. reflexivity. }
      assert (Hne := lower_nonempty s _ c Hnth Hc).
      destruct (rev (unicode_lower s (length pre + length r))) as [|x xs] eqn:Ex.
      { apply (f_equal (@rev cp)) in Ex. rewrite rev_involutive in Ex. contradiction. }
      cbn [app startswith ci_prefix].
      assert (Hx : is_ext_char x = false).
      { apply (lower_no_ext_char s _ c x Hnth Hc). apply in_rev. rewrite Ex. now left. }
      assert (R1 : (x =? e) = false).
      { destruct (N.eqb_spec x e) as [->|_]; [congruence | reflexivity]. }
      assert (R2 : same_letter c e = false).
      { unfold same_letter. assert (L := ext_char_ascii e He).
        destruct (N.eqb_spec c e) as [->|_]; [lia|]. destruct (N.leb_spec c 90); [lia|].
        now rewrite andb_false_r. }
      now rewrite R1, R2.
Qed.

Lemma endswith_lower (file_path ext : pystr) :
  forallb is_ext_char ext = true ->
  endswith (str_lower unicode_lower file_path) ext = has_extension file_path ext.
Proof.
  intros H. unfold endswith, str_lower, has_extension.
  apply (lowered_suffix file_path (rev ext)) with (pre := []) (post := []).
  - rewrite forallb_forall in *. intros x Hx. apply H. now apply in_rev.
  - now rewrite app_nil_r.
Qed.

Lemma pdf_is_not_docx (file_path : pystr) :
  has_extension file_path ext_pdf = true -> has_extension file_path ext_docx = false.
Proof.
  unfold has_extension. destruct (rev file_path) as [|c r]; [discriminate|].
  cbn [rev ext_pdf ext_docx app ci_prefix]. intros H. apply andb_prop in H.
  destruct H as [H _]. unfold same_letter in *.
  apply orb_prop in H.
  assert (Hc : c = 102 \/ c = 70).
  { destruct H as [H|H]; [apply N.eqb_eq in H; now left|].
    apply andb_prop in H. destruct H as [_ H]. apply N.eqb_eq in H. right. lia. }
  destruct Hc as [-> | ->]; reflexivity.
Qed.

(** C8. [extract_text] raises its unsupported-format error exactly for the
    paths whose extension is neither [.docx] nor [.pdf], whatever the case of
    the letters, and passes every other path to the extractor of its
    format, whose result it returns. *)
Theorem extract_text_dispatch (file_path : pystr) :
  (extract_text unicode_lower docx_paragraphs pdf_pages file_path
   = Raise (UnsupportedFormat file_path)
   <-> has_extension file_path ext_docx = false
       /\ has_extension file_path ext_pdf = false)
  /\ (has_extension file_path ext_docx = true ->
      extract_text unicode_lower docx_paragraphs pdf_pages file_path
      = extract_from_docx docx_paragraphs file_path)
  /\ (has_extension file_path ext_pdf = true ->
      extract_text unicode_lower docx_paragraphs pdf_pages file_path
      = extract_from_pdf pdf_pages file_path).
Proof.
  unfold extract_text. cbv zeta.
  rewrite (endswith_lower file_path ext_docx eq_refl).
  rewrite (endswith_lower file_path ext_pdf eq_refl).
  split; [|split].
  - destruct (has_extension file_path ext_docx) eqn:D.
    + split; [|intros [? _]; discriminate].
      unfold extract_from_docx, bind, call.
      destruct (docx_paragraphs file_path); discriminate.
    + destruct (has_extension file_path ext_pdf) eqn:P.
      * split; [|intros [_ ?]; discriminate].
        unfold extract_from_pdf, bind, call.
        destruct (pdf_pages file_path); discriminate.
      * split; [now split | reflexivity].
  - intros H. now rewrite H.
  - intros H. now rewrite (pdf_is_not_docx file_path H), H.
Qed.

End ExtractorFacts.

Section ExtractorWitness.
Import PyStr Exn Extractors.
Local Open Scope N_scope.

Definition toy_docx (file_path : pystr) : pystr + list pystr :=
  inr [py "Статья 1. Закон"; py "Текст."].

Definition toy_pdf (file_path : pystr) : pystr + list (option pystr) :=
  inr [Some (py "Статья 1. Закон"); None; Some []; Some (py "Текст.")].

Lemma keep_nonascii_nonempty (s : pystr) (i : nat) (c : cp) :
  nth_error s i = Some c -> 128 <= c -> keep_nonascii s i <> [].
Proof. discriminate. Qed.

Lemma keep_nonascii_no_ext_char (s : pystr) (i : nat) (c x : cp) :
  nth_error s i = Some c -> 128 <= c -> In x (keep_nonascii s i) -> is_ext_char x = false.
Proof.
  intros Hn Hc [<-|[]]. unfold keep_nonascii.
  rewrite (nth_error_nth s i 0 Hn).
  destruct (is_ext_char c) eqn:E; [|reflexivity].
  unfold is_ext_char, Re.mem in E. apply existsb_exists in E.
  destruct E as (y & Hy & E). apply N.eqb_eq in E. subst y.
  vm_compute in Hy. intuition (subst; lia).
Qed.

Lemma extract_text_dispatch_witness :
  extract_text keep_nonascii toy_docx toy_pdf (py "/tmp/jobs/j/uploads/Закон.PDF")
  = Ok (py "Статья 1. Закон" ++ [LF] ++ py "Текст.")
  /\ (extract_text keep_nonascii toy_docx toy_pdf (py "notes.txt")
      = Raise (UnsupportedFormat (py "notes.txt"))
      <-> has_extension (py "notes.txt") ext_docx = false
          /\ has_extension (py "notes.txt") ext_pdf = false).
Proof.
  split; [vm_compute; reflexivity|].
  exact (proj1 (extract_text_dispatch keep_nonascii toy_docx toy_pdf
                  keep_nonascii_nonempty keep_nonascii_no_ext_char (py "notes.txt"))).
Defined.

End ExtractorWitness.

(** ** Writing the articles *)

Section WriterFacts.
Import PyStr Exn OsPath Processor.

Variable try_write : FsLog -> pystr -> pystr -> write_outcome.

(** C9. When the write under the synthesized name fails with an [OSError],
    one more write is attempted, under the sanitized base name followed by
    [_Article_], the index counted from one and [.md].  If that one succeeds
    its path is recorded; if it fails with an [OSError] too, nothing is
    recorded for the article and the loop goes on with the next one. *)
Theorem fallback_write_retried_once
  (out_dir doc_base_name : pystr) (st : SaveState) (i : nat) (a : Document)
  (rest : list Document) :
  let prefix := sanitize_string_for_filename doc_base_name 40 in
  let content := render_markdown i a in
  let file_path := join2 out_dir (synthesize_filename prefix i a) in
  let fallback_path :=
    join2 out_dir (prefix ++ lit_article ++ str_of_nat (i + 1) ++ lit_md) in
  let failed := mkAttempt file_path content WriteOSError in
  try_write (fs_log st) file_path content = WriteOSError ->
  match try_write (fs_log st ++ [failed]) fallback_path content with
  | WriteOk =>
      save_article try_write out_dir prefix st i a
      = Ok (mkSaveState
              (fs_log st ++ [failed; mkAttempt fallback_path content WriteOk])
              (created_files st ++ [fallback_path]))
  | WriteOSError =>
      let skipped :=
        mkSaveState
          (fs_log st ++ [failed; mkAttempt fallback_path content WriteOSError])
          (created_files st) in
      save_article try_write out_dir prefix st i a = Ok skipped
      /\ save_loop try_write out_dir prefix st i (a :: rest)
         = save_loop try_write out_dir prefix skipped (S i) rest
  | WriteOtherError message =>
      save_article try_write out_dir prefix st i a = Raise (LibraryError message)
  end.
Proof.
  intros prefix content file_path fallback_path failed Hfail.
  assert (Hstep :
    save_article try_write out_dir prefix st i a
    = match try_write (fs_log st ++ [failed]) fallback_path content with
      | WriteOk =>
          Ok (mkSaveState
                ((fs_log st ++ [failed]) ++ [mkAttempt fallback_path content WriteOk])
                (created_files st ++ [fallback_path]))
      | WriteOSError =>
          Ok (mkSaveState
                ((fs_log st ++ [failed]) ++ [mkAttempt fallback_path content WriteOSError])
                (created_files st))
      | WriteOtherError message => Raise (LibraryError message)
      end).
  { unfold save_article. cbv zeta. fold content. fold file_path. rewrite Hfail.
    reflexivity. }
  destruct (try_write (fs_log st ++ [failed]) fallback_path content) eqn:E;
    rewrite <- ?app_assoc in Hstep; cbn [app] in Hstep.
  - exact Hstep.
  - cbv zeta. split; [exact Hstep|].
    cbn [save_loop]. rewrite Hstep. reflexivity.
  - exact Hstep.
Qed.

(** Each article adds at most one path to the list of created files. *)
Lemma save_article_count (out_dir prefix : pystr) (st st' : SaveState) (i : nat)
    (a : Document) :
  save_article try_write out_dir prefix st i a = Ok st' ->
  length (created_files st') <= length (created_files st) + 1.
Proof.
  unfold save_article. cbv zeta.
  destruct (try_write (fs_log st) _ _).
  - intros H. injection H as <-. cbn [created_files]. rewrite length_app. simpl. lia.
  - destruct (try_write _ _ _); intros H; try discriminate; injection H as <-;
      cbn [created_files]; [rewrite length_app; simpl|]; lia.
  - discriminate.
Qed.

Lemma save_loop_count (out_dir prefix : pystr) (articles : list Document) :
  forall (st st' : SaveState) (i : nat),
    save_loop try_write out_dir prefix st i articles = Ok st' ->
    length (created_files st') <= length (created_files st) + length articles.
Proof.
  induction articles as [|a rest IH]; intros st st' i H; cbn [save_loop] in H.
  - injection H as <-. simpl. lia.
  - unfold bind in H.
    destruct (save_article try_write out_dir prefix st i a) as [st1|e] eqn:E;
      [|discriminate].
    apply save_article_count in E. apply IH in H. cbn [length]. lia.
Qed.

Lemma mapM_length {A B} (f : A -> result B) (l : list A) (l' : list B) :
  mapM f l = Ok l' -> length l' = length l.
Proof.
  revert l'. induction l as [|a t IH]; intros l' H; cbn [mapM] in H.
  - now injection H as <-.
  - unfold bind in H. destruct (f a); [|discriminate].
    destruct (mapM f t) as [bs|]; [|discriminate].
    injection H as <-. cbn [length]. now rewrite (IH bs eq_refl).
Qed.

Section Pipeline.
Variable unicode_lower : pystr -> nat -> pystr.
Variable nlp : pystr -> pystr + Doc.
Variable docx_paragraphs : pystr -> pystr + list pystr.
Variable pdf_pages : pystr -> pystr + list (option pystr).
Variable makedirs : FsLog -> pystr -> option pystr.

(** A document never has more files created than articles found. *)
Lemma process_document_counts (log log' : FsLog) (file_path out_dir : pystr)
    (r : DocResult) :
  process_document unicode_lower nlp docx_paragraphs pdf_pages try_write makedirs
    log file_path out_dir = Ok (log', r) ->
  files_created r <= articles_count r.
Proof.
  unfold process_document, bind. cbv zeta.
  destruct (extract_text_from_file _ _ _ _) as [doc_text|]; [|discriminate].
  destruct (segment_into_articles nlp doc_text) as [arts|]; [|discriminate].
  destruct (enrich_articles_with_metadata unicode_lower nlp arts) as [arts'|] eqn:En;
    [|discriminate].
  destruct (save_articles_to_markdown _ _ _ _ _ _) as [saved|] eqn:Sv; [|discriminate].
  intros H. injection H as _ <-. cbn [files_created articles_count].
  unfold save_articles_to_markdown in Sv.
  destruct (makedirs log out_dir); [discriminate|].
  apply save_loop_count in Sv. cbn [created_files length] in Sv. lia.
Qed.

End Pipeline.

End WriterFacts.

Section WriterWitness.
Import PyStr Exn OsPath Processor.

(** A disk on which no file can be written. *)
Definition read_only_disk (log : FsLog) (path content : pystr) : write_outcome :=
  WriteOSError.

Definition toy_article : Document :=
  mkDocument (py "Статья 1. Закон. Текст.")
    (mkMetadata (Some (py "Статья 1. Закон")) None None None
       (Some [py "текст"]) (Some (py "текст"))).

Lemma fallback_write_retried_once_witness :
  save_loop read_only_disk (py "out") (sanitize_string_for_filename (py "doc") 40)
    (mkSaveState [] []) 0 [toy_article]
  = Ok (mkSaveState
          [mkAttempt (py "out/doc_Статья_1_Закон_текст.md")
             (render_markdown 0 toy_article) WriteOSError;
           mkAttempt (py "out/doc_Article_1.md")
             (render_markdown 0 toy_article) WriteOSError]
          []).
Proof.
  destruct (fallback_write_retried_once read_only_disk (py "out") (py "doc")
              (mkSaveState [] []) 0 toy_article [] eq_refl) as [_ H].
  rewrite H. vm_compute. reflexivity.
Defined.

End WriterWitness.

(** ** Floating-point rounding and the progress of a job *)

Section RoundingFacts.
Import QArith Qround Qpower Lqa Exn PyFloat Main.
Local Open Scope Q_scope.

Lemma two_pos (k : Z) : 0 < 2 ^ k.
Proof. apply Qpower_0_lt. reflexivity. Qed.

Lemma two_succ (k : Z) : 2 ^ (k + 1) == 2 * 2 ^ k.
Proof. rewrite Qpower_plus by discriminate. rewrite Qmult_comm. reflexivity. Qed.

Lemma two_inject (k : Z) : (0 <= k)%Z -> inject_Z (2 ^ k) == 2 ^ k.
Proof. intros H. now rewrite Zpower_Qpower. Qed.

Lemma floor_log2_spec (x : Q) :
  0 < x -> 2 ^ floor_log2 x <= x /\ x < 2 ^ (floor_log2 x + 1).
Proof.
  intros Hx. unfold floor_log2. cbv zeta.
  destruct x as [a b]. cbn [Qnum Qden].
  assert (Ha : (0 < a)%Z) by (unfold Qlt in Hx; cbn in Hx; lia).
  set (la := Z.log2 a). set (lb := Z.log2 (Z.pos b)).
  destruct (Z.log2_spec a Ha) as [A1 A2].
  destruct (Z.log2_spec (Z.pos b) eq_refl) as [B1 B2].
  fold la in A1, A2. fold lb in B1, B2.
  assert (Hla : (0 <= la)%Z) by apply Z.log2_nonneg.
  assert (Hlb : (0 <= lb)%Z) by apply Z.log2_nonneg.
  assert (QA1 : 2 ^ la <= inject_Z a)
    by (rewrite <- two_inject by exact Hla; now rewrite <- Zle_Qle).
  assert (QA2 : inject_Z a < 2 * 2 ^ la).
  { rewrite <- two_succ, <- two_inject by lia. rewrite <- Zlt_Qlt.
    replace (la + 1)%Z with (Z.succ la) by lia. exact A2. }
  assert (QB1 : 2 ^ lb <= inject_Z (Z.pos b))
    by (rewrite <- two_inject by exact Hlb; now rewrite <- Zle_Qle).
  assert (QB2 : inject_Z (Z.pos b) < 2 * 2 ^ lb).
  { rewrite <- two_succ, <- two_inject by lia. rewrite <- Zlt_Qlt.
    replace (lb + 1)%Z with (Z.succ lb) by lia. exact B2. }
  assert (Hb : 0 < inject_Z (Z.pos b)) by reflexivity.
  assert (Pa := two_pos la). assert (Pb := two_pos lb).
  assert (Pk := two_pos (la - lb)).
  assert (Ek : 2 ^ (la - lb) * 2 ^ lb == 2 ^ la).
  { rewrite <- Qpower_plus by discriminate. now replace (la - lb + lb)%Z with la by lia. }
  assert (Ex : (a # b) * inject_Z (Z.pos b) == inject_Z a).
  { rewrite Qmake_Qdiv. field. discriminate. }
  destruct (Qle_bool (2 ^ (la - lb)) (a # b)) eqn:E.
  - apply Qle_bool_iff in E. split; [exact E|].
    rewrite two_succ. nra.
  - assert (E' : a # b < 2 ^ (la - lb)).
    { apply Qnot_le_lt. intros H. apply Qle_bool_iff in H. congruence. }
    replace (la - lb - 1 + 1)%Z with (la - lb)%Z by lia. split; [|exact E'].
    assert (Ek' : 2 * 2 ^ (la - lb - 1) == 2 ^ (la - lb)).
    { rewrite <- two_succ. now replace (la - lb - 1 + 1)%Z with (la - lb)%Z by lia. }
    assert (Pk' := two_pos (la - lb - 1)). nra.
Qed.

Lemma rhe_cases (x : Q) :
  let f := Qfloor x in
  (round_half_even x = f /\ x - inject_Z f <= 1 # 2)
  \/ (round_half_even x = (f + 1)%Z /\ 1 # 2 <= x - inject_Z f).
Proof.
  cbv zeta. unfold round_half_even. cbv zeta.
  destruct (Qcompare (x - inject_Z (Qfloor x)) (1 # 2)) eqn:E.
  - apply Qeq_alt in E. destruct (Z.even (Qfloor x)); [left|right]; split;
      try reflexivity; rewrite E; apply Qle_refl.
  - apply Qlt_alt in E. left. split; [reflexivity | now apply Qlt_le_weak].
  - apply Qgt_alt in E. right. split; [reflexivity | now apply Qlt_le_weak].
Qed.

Lemma rhe_mono (x y : Q) : x <= y -> (round_half_even x <= round_half_even y)%Z.
Proof.
  intros H. assert (Hf := Qfloor_resp_le x y H).
  destruct (Z.eq_dec (Qfloor x) (Qfloor y)) as [Ef|Nf].
  - unfold round_half_even. cbv zeta. rewrite <- Ef.
    set (f := Qfloor x).
    destruct (Qcompare (x - inject_Z f) (1 # 2)) eqn:Ex,
             (Qcompare (y - inject_Z f) (1 # 2)) eqn:Ey;
      try (destruct (Z.even f)); try lia;
      rewrite <- ?Qeq_alt, <- ?Qlt_alt, <- ?Qgt_alt in *; exfalso; lra.
  - destruct (rhe_cases x) as [[-> _]|[-> _]], (rhe_cases y) as [[-> _]|[-> _]]; lia.
Qed.

Lemma rhe_int (k : Z) : round_half_even (inject_Z k) = k.
Proof.
  unfold round_half_even. cbv zeta. rewrite Qfloor_Z.
  destruct (Qcompare (inject_Z k - inject_Z k) (1 # 2)) eqn:E;
    [apply Qeq_alt in E | reflexivity | apply Qgt_alt in E]; exfalso; lra.
Qed.

Lemma rhe_upper (x : Q) (k : Z) : x <= inject_Z k -> (round_half_even x <= k)%Z.
Proof. intros H. rewrite <- (rhe_int k). now apply rhe_mono. Qed.

Lemma rhe_lower (x : Q) (k : Z) : inject_Z k <= x -> (k <= round_half_even x)%Z.
Proof. intros H. rewrite <- (rhe_int k) at 1. now apply rhe_mono. Qed.

Definition exponent (x : Q) : Z := Z.max (floor_log2 x - 52) (-1074).

Lemma round_positive_mono (x y : Q) :
  0 < x -> x <= y -> round_positive x <= round_positive y.
Proof.
  intros Hx Hxy. assert (Hy : 0 < y) by lra.
  unfold round_positive. cbv zeta. fold (exponent x). fold (exponent y).
  destruct (floor_log2_spec x Hx) as [X1 X2].
  destruct (floor_log2_spec y Hy) as [Y1 Y2].
  assert (Hfl : (floor_log2 x <= floor_log2 y)%Z).
  { assert (L : 2 ^ floor_log2 x < 2 ^ (floor_log2 y + 1)) by lra.
    apply Qpower_lt_compat_l_inv in L; [lia | reflexivity]. }
  assert (He : (exponent x <= exponent y)%Z) by (unfold exponent; lia).
  assert (Px := two_pos (exponent x)). assert (Py := two_pos (exponent y)).
  destruct (Z.eq_dec (exponent x) (exponent y)) as [E|N].
  - rewrite E. apply Qmult_le_compat_r; [|lra].
    rewrite <- Zle_Qle. apply rhe_mono.
    apply Qle_shift_div_l; [exact Py|].
    assert (D : x / 2 ^ exponent y * 2 ^ exponent y == x) by (field; lra).
    lra.
  - assert (Ey : exponent y = (floor_log2 y - 52)%Z) by (unfold exponent in *; lia).
    assert (Ex : (floor_log2 x - 52 <= exponent x)%Z) by (unfold exponent; lia).
    assert (U : inject_Z (round_half_even (x / 2 ^ exponent x)) <= inject_Z (2 ^ 53)).
    { rewrite <- Zle_Qle. apply rhe_upper. rewrite two_inject by lia.
      apply Qle_shift_div_r; [exact Px|].
      rewrite <- Qpower_plus by discriminate.
      assert (L : 2 ^ (floor_log2 x + 1) <= 2 ^ (53 + exponent x))
        by (apply Qpower_le_compat_l; [lia | discriminate]).
      lra. }
    assert (V : inject_Z (2 ^ 52) <= inject_Z (round_half_even (y / 2 ^ exponent y))).
    { rewrite <- Zle_Qle. apply rhe_lower. rewrite two_inject by lia.
      apply Qle_shift_div_l; [exact Py|].
      rewrite <- Qpower_plus by discriminate.
      replace (52 + exponent y)%Z with (floor_log2 y) by lia. exact Y1. }
    rewrite two_inject in U, V by lia.
    apply Qle_trans with (2 ^ 53 * 2 ^ exponent x).
    + apply Qmult_le_compat_r; [exact U | lra].
    + apply Qle_trans with (2 ^ 52 * 2 ^ exponent y).
      * rewrite <- !Qpower_plus by discriminate.
        apply Qpower_le_compat_l; [lia | discriminate].
      * apply Qmult_le_compat_r; [exact V | lra].
Qed.

Lemma round_positive_nonneg (x : Q) : 0 < x -> 0 <= round_positive x.
Proof.
  intros Hx. unfold round_positive. cbv zeta.
  set (e := Z.max (floor_log2 x - 52) (-1074)).
  assert (P := two_pos e).
  apply Qmult_le_0_compat; [|lra].
  change 0 with (inject_Z 0). rewrite <- Zle_Qle. apply rhe_lower.
  apply Qle_shift_div_l; [exact P|]. change (inject_Z 0) with 0. lra.
Qed.

Lemma round_binary64_mono (x y : Q) :
  0 <= x -> x <= y -> round_binary64 x <= round_binary64 y.
Proof.
  intros Hx Hxy. unfold round_binary64.
  destruct (Qcompare x 0) eqn:Ex, (Qcompare y 0) eqn:Ey;
    rewrite <- ?Qeq_alt, <- ?Qlt_alt, <- ?Qgt_alt in *; try (exfalso; lra).
  - apply Qle_refl.
  - now apply round_positive_nonneg.
  - now apply round_positive_mono.
Qed.

Lemma round_binary64_nonneg (x : Q) : 0 <= x -> 0 <= round_binary64 x.
Proof. intros H. exact (round_binary64_mono 0 x (Qle_refl 0) H). Qed.


(** [1] and [90] are numbers of the format. *)
Lemma round_binary64_one : round_binary64 1 == 1.
Proof. vm_compute. reflexivity. Qed.

Lemma round_binary64_ninety : round_binary64 (inject_Z 90) == inject_Z 90.
Proof. vm_compute. reflexivity. Qed.

Lemma not_overflows (x : Q) (k : Z) :
  0 <= x -> x <= inject_Z k -> (k < 2 ^ 1024)%Z -> overflows x = false.
Proof.
  intros H0 Hk Hlt. unfold overflows.
  assert (P : inject_Z k < 2 ^ 1024).
  { rewrite <- two_inject by lia. now rewrite <- Zlt_Qlt. }
  assert (A : Qle_bool (2 ^ 1024) x = false).
  { destruct (Qle_bool (2 ^ 1024) x) eqn:E; [|reflexivity].
    apply Qle_bool_iff in E. exfalso. lra. }
  assert (B : Qle_bool x (- 2 ^ 1024) = false).
  { destruct (Qle_bool x (- 2 ^ 1024)) eqn:E; [|reflexivity].
    apply Qle_bool_iff in E. assert (T := two_pos 1024). exfalso. lra. }
  now rewrite A, B.
Qed.

(** The quotient of the index by the number of files, as a [float]. *)
Definition share (idx n : nat) : Q :=
  round_binary64 (inject_Z (Z.of_nat idx) / inject_Z (Z.of_nat n)).

(** The percentage stored for the file at [idx] of [n]. *)
Definition percent (idx n : nat) : Z :=
  Qfloor (round_binary64 (share idx n * inject_Z 90)).

Lemma ratio_bounds (idx n : nat) :
  (idx < n)%nat ->
  0 <= inject_Z (Z.of_nat idx) / inject_Z (Z.of_nat n)
  /\ inject_Z (Z.of_nat idx) / inject_Z (Z.of_nat n) <= 1.
Proof.
  intros H.
  assert (Hn : 0 < inject_Z (Z.of_nat n))
    by (change 0 with (inject_Z 0); rewrite <- Zlt_Qlt; lia).
  assert (Hi : 0 <= inject_Z (Z.of_nat idx))
    by (change 0 with (inject_Z 0); rewrite <- Zle_Qle; lia).
  assert (Hin : inject_Z (Z.of_nat idx) <= inject_Z (Z.of_nat n))
    by (rewrite <- Zle_Qle; lia).
  split.
  - apply Qle_shift_div_l; [exact Hn | lra].
  - apply Qle_shift_div_r; [exact Hn | lra].
Qed.

Lemma ratio_mono (i j n : nat) :
  (i <= j)%nat -> (j < n)%nat ->
  inject_Z (Z.of_nat i) / inject_Z (Z.of_nat n)
  <= inject_Z (Z.of_nat j) / inject_Z (Z.of_nat n).
Proof.
  intros Hij Hj.
  assert (Hn : 0 < inject_Z (Z.of_nat n))
    by (change 0 with (inject_Z 0); rewrite <- Zlt_Qlt; lia).
  assert (H : inject_Z (Z.of_nat i) <= inject_Z (Z.of_nat j))
    by (rewrite <- Zle_Qle; lia).
  unfold Qdiv. apply Qmult_le_compat_r; [exact H|].
  apply Qlt_le_weak. now apply Qinv_lt_0_compat.
Qed.

Lemma share_bounds (idx n : nat) : (idx < n)%nat -> 0 <= share idx n /\ share idx n <= 1.
Proof.
  intros H. destruct (ratio_bounds idx n H) as [A B]. unfold share. split.
  - now apply round_binary64_nonneg.
  - apply Qle_trans with (round_binary64 1); [now apply round_binary64_mono|].
    apply Qle_lteq. right. exact round_binary64_one.
Qed.

Lemma scaled_bounds (idx n : nat) :
  (idx < n)%nat ->
  0 <= round_binary64 (share idx n * inject_Z 90)
  /\ round_binary64 (share idx n * inject_Z 90) <= inject_Z 90.
Proof.
  intros H. destruct (share_bounds idx n H) as [A B].
  assert (N : 0 < inject_Z 90) by reflexivity.
  split.
  - apply round_binary64_nonneg. apply Qmult_le_0_compat; lra.
  - apply Qle_trans with (round_binary64 (inject_Z 90));
      [|apply Qle_lteq; right; exact round_binary64_ninety].
    apply round_binary64_mono.
    + apply Qmult_le_0_compat; lra.
    + apply Qle_trans with (1 * inject_Z 90).
      * apply Qmult_le_compat_r; lra.
      * apply Qle_lteq. right. ring.
Qed.

(** Inside the loop the computation of the percentage raises nothing. *)
Lemma progress_of_percent (idx n : nat) :
  (idx < n)%nat -> progress_of idx n = Ok (percent idx n).
Proof.
  intros H. destruct (share_bounds idx n H) as [A B].
  destruct (scaled_bounds idx n H) as [C D].
  unfold progress_of, int_true_divide, bind.
  destruct (Z.eqb_spec (Z.of_nat n) 0) as [E|_]; [lia|]. cbv zeta.
  fold (share idx n).
  rewrite (not_overflows (share idx n) 1 A B eq_refl).
  unfold float_mul. cbv zeta.
  rewrite (not_overflows _ 90 C D eq_refl).
  unfold int_of_float, percent.
  apply Qle_bool_iff in C. now rewrite C.
Qed.

(** The percentage grows with the index and stays between 0 and 90. *)
Lemma percent_mono (i j n : nat) :
  (i <= j)%nat -> (j < n)%nat -> (percent i n <= percent j n)%Z.
Proof.
  intros Hij Hj. unfold percent. apply Qfloor_resp_le.
  assert (Hi : (i < n)%nat) by lia.
  destruct (share_bounds i n Hi) as [A _].
  destruct (ratio_bounds i n Hi) as [R _].
  assert (S : share i n <= share j n).
  { unfold share. apply round_binary64_mono; [exact R | now apply ratio_mono]. }
  assert (N : 0 < inject_Z 90) by reflexivity.
  apply round_binary64_mono.
  - apply Qmult_le_0_compat; lra.
  - apply Qmult_le_compat_r; lra.
Qed.

Lemma percent_bounds (idx n : nat) : (idx < n)%nat -> (0 <= percent idx n <= 90)%Z.
Proof.
  intros H. destruct (scaled_bounds idx n H) as [C D]. unfold percent. split.
  - rewrite <- (Qfloor_Z 0). now apply Qfloor_resp_le.
  - rewrite <- (Qfloor_Z 90). now apply Qfloor_resp_le.
Qed.

(** Seven files of ten done: the quotient 0.7 is rounded down a little, and
    so is its product with 90, which is just below 63. *)
Example percent_seven_of_ten : progress_of 7 10 = Ok 62%Z.
Proof. vm_compute. reflexivity. Qed.

End RoundingFacts.

(** ** The job worker *)

Section TraceFacts.
Import PyStr Exn Processor Main.
Local Open Scope Z_scope.

(** Consecutive elements of a list are related. *)
Fixpoint chain {A : Type} (R : A -> A -> Prop) (l : list A) : Prop :=
  match l with
  | a :: (b :: _) as t => R a b /\ chain R t
  | _ => True
  end.

Lemma chain_snoc {A : Type} (R : A -> A -> Prop) (h : list A) (a b : A) :
  chain R (h ++ [a]) -> R a b -> chain R ((h ++ [a]) ++ [b]).
Proof.
  intros Hc Hr. induction h as [|x t IH]; cbn [app chain] in *.
  - now repeat split.
  - destruct (t ++ [a]) as [|y u] eqn:E.
    + destruct t; discriminate.
    + destruct Hc as [Hxy Hc]. cbn [app]. split; [exact Hxy|].
      now apply IH.
Qed.

Definition terminal (s : JobStatus) : Prop := s = COMPLETED \/ s = FAILED.

(** The moves of the status: none, or one of the three of the life cycle. *)
Definition status_step (a b : JobStatus) : Prop :=
  a = b
  \/ (a = PENDING /\ b = PROCESSING)
  \/ (a = PROCESSING /\ (b = COMPLETED \/ b = FAILED)).

(** One assignment to the job entry: the status moves as the life cycle
    allows, and the progress does not go down unless the job is finished. *)
Definition job_step (j j' : Job) : Prop :=
  status_step (status j) (status j')
  /\ (~ terminal (status j) -> progress j <= progress j').

(** The history is a legal trace and ends with the current entry. *)
Definition trace_ok (w : Worker) : Prop :=
  (exists h, history w = h ++ [job w]) /\ chain job_step (history w).

Lemma assign_ok (f : Job -> Job) (w : Worker) :
  trace_ok w -> job_step (job w) (f (job w)) -> trace_ok (assign f w).
Proof.
  intros [[h Hh] Hc] Hs. unfold assign, trace_ok. cbn [job history]. split.
  - now exists (history w).
  - rewrite Hh in *. now apply chain_snoc.
Qed.

Lemma same_status_step (j j' : Job) :
  status j' = status j -> progress j <= progress j' -> job_step j j'.
Proof. intros Hs Hp. split; [left; now rewrite Hs | intros _; exact Hp]. Qed.

Lemma assign_message_ok (m : pystr) (w : Worker) :
  trace_ok w -> trace_ok (assign (set_message m) w).
Proof. intros H. apply assign_ok; [exact H|]. apply same_status_step; simpl; [reflexivity|lia]. Qed.

Lemma assign_progress_ok (v : Z) (w : Worker) :
  trace_ok w -> (~ terminal (status (job w)) -> progress (job w) <= v) ->
  trace_ok (assign (set_progress v) w).
Proof.
  intros H Hv. apply assign_ok; [exact H|]. split; [now left | exact Hv].
Qed.

Section WithEnvironment.
Variable E : Environment.

(** The worker is processing, with a progress that no later file lowers. *)
Definition processing (n idx : nat) (w : Worker) : Prop :=
  trace_ok w
  /\ status (job w) = PROCESSING
  /\ 0 <= progress (job w) <= 95
  /\ (forall k, (idx <= k)%nat -> (k < n)%nat -> progress (job w) <= percent k n).

Lemma process_files_ok (merge : bool) (ob md : pystr) (n : nat)
    (files : list pystr) :
  forall (idx total : nat) (w w' : Worker) (r : result nat),
    (idx + length files = n)%nat ->
    processing n idx w ->
    process_files E merge ob md n idx files total w = (w', r) ->
    processing n n w'.
Proof.
  induction files as [|fp rest IH]; intros idx total w w' r Hn Hw Hrun;
    cbn [process_files] in Hrun.
  - injection Hrun as <- _. cbn [length] in Hn.
    assert (Hi : idx = n) by lia. subst idx. exact Hw.
  - cbn [length] in Hn. destruct Hw as (Ht & Hs & Hb & Hk).
    assert (Hidx : (idx < n)%nat) by lia.
    rewrite (progress_of_percent idx n Hidx) in Hrun.
    cbv zeta in Hrun.
    set (w1 := assign (set_message (file_message idx n fp)) w) in *.
    set (w2 := assign (set_progress (percent idx n)) w1) in *.
    assert (H2 : processing n (S idx) w2).
    { split; [|split; [exact Hs | split]].
      - apply (assign_progress_ok (percent idx n) w1).
        + now apply assign_message_ok.
        + intros _. cbn. apply Hk; lia.
      - cbn. assert (B := percent_bounds idx n Hidx). lia.
      - intros k Hk1 Hk2. cbn. apply percent_mono; lia. }
    assert (Hstop : processing n n w2).
    { destruct H2 as (A & B & C & D).
      split; [exact A | split; [exact B | split; [exact C | intros k Hk1 Hk2; lia]]]. }
    destruct (snd (if merge then _ else _)) as [e|].
    { injection Hrun as <- _. exact Hstop. }
    destruct (run_document E (fs w2) fp _) as [lr|e].
    + apply (IH (S idx) (total + articles_count (snd lr))%nat
                (mkWorker (job w2) (history w2) (fst lr)) w' r);
        [lia | | exact Hrun].
      destruct H2 as (A & B & C & D).
      split; [|split; [exact B | split; [exact C | exact D]]].
      destruct A as [[h Hh] Hc]. split; [now exists h | exact Hc].
    + injection Hrun as <- _. exact Hstop.
Qed.

Lemma try_block_ok (job_id : pystr) (files : list pystr) (merge : bool)
    (w w' : Worker) (o : option pyexn) :
  trace_ok w -> status (job w) = PENDING -> progress (job w) = 0 ->
  try_block E job_id files merge w = (w', o) ->
  trace_ok w'
  /\ match o with
     | None => status (job w') = COMPLETED /\ progress (job w') = 100
     | Some _ => status (job w') = PROCESSING
     end.
Proof.
  intros Ht Hs Hp Hrun. unfold try_block in Hrun. cbv zeta in Hrun.
  set (w1 := assign (set_status PROCESSING) w) in *.
  set (w2 := assign (set_message lit_processing) w1) in *.
  assert (H1 : trace_ok w1).
  { apply assign_ok; [exact Ht|]. split.
    - right. left. now split.
    - intros _. cbn. lia. }
  assert (H2 : processing (length files) 0 w2).
  { split; [|split; [reflexivity | split]].
    - now apply assign_message_ok.
    - cbn. rewrite Hp. lia.
    - intros k _ Hk. cbn. rewrite Hp. apply percent_bounds. exact Hk. }
  assert (Hstop : trace_ok w2 /\ status (job w2) = PROCESSING).
  { destruct H2 as (A & B & _). now split. }
  destruct (raised (path_mkdir E (fs w2) _)) as [e|].
  { injection Hrun as <- <-. exact Hstop. }
  destruct (raised (if merge then _ else None)) as [e|].
  { injection Hrun as <- <-. exact Hstop. }
  destruct (process_files E merge _ _ (length files) 0 files 0 w2) as [w3 r] eqn:Ef.
  apply process_files_ok in Ef; [|reflexivity | exact H2].
  destruct Ef as (A & B & C & _).
  destruct r as [total|e].
  - set (w4 := assign (set_message lit_archive) w3) in *.
    set (w5 := assign (set_progress 95) w4) in *.
    assert (H5 : trace_ok w5).
    { apply assign_progress_ok; [now apply assign_message_ok|]. intros _. cbn. lia. }
    destruct (raised (create_zip_archive E (fs w5) _ _)) as [e|].
    + injection Hrun as <- <-. split; [exact H5 | exact B].
    + injection Hrun as <- <-. split; [|split; reflexivity].
      apply assign_message_ok || idtac.
      apply assign_ok.
      { apply assign_ok.
        { apply assign_progress_ok.
          { apply assign_message_ok. apply assign_ok; [exact H5|].
            split; [right; right; split; [exact B | now left] | intros _; cbn; lia]. }
          intros _. cbn. lia. }
        apply same_status_step; cbn; [reflexivity | lia]. }
      apply same_status_step; cbn; [reflexivity | lia].
  - injection Hrun as <- <-. now split.
Qed.

Lemma except_block_ok (e : pyexn) (w : Worker) :
  trace_ok w -> status (job w) = PROCESSING ->
  trace_ok (except_block e w)
  /\ status (job (except_block e w)) = FAILED
  /\ progress (job (except_block e w)) = 0
  /\ error (job (except_block e w)) = Some (exn_str e).
Proof.
  intros Ht Hs. unfold except_block. cbv zeta. split; [|now repeat split].
  apply assign_progress_ok.
  - apply assign_ok.
    + apply assign_message_ok. apply assign_ok; [exact Ht|].
      split; [right; right; split; [exact Hs | now right] | intros _; cbn; lia].
    + apply same_status_step; cbn; [reflexivity | lia].
  - intros Hnt. exfalso. apply Hnt. right. reflexivity.
Qed.

(** C6. From submission to the end of the worker, the status of the job only
    moves from Pending to Processing and from Processing to Completed or to
    Failed, where it stays; the progress never goes down while the job is
    Pending or Processing; and the worker leaves the job Completed or
    Failed. *)
Theorem job_trace_follows_lifecycle (now : Z) (job_id : pystr) (files : list pystr)
    (merge : bool) (log : FsLog) :
  let trace := job_execution E now job_id files merge log in
  hd_error trace = Some (new_job now (length files) merge)
  /\ chain (fun j j' =>
              (status j = status j'
               \/ (status j = PENDING /\ status j' = PROCESSING)
               \/ (status j = PROCESSING
                   /\ (status j' = COMPLETED \/ status j' = FAILED)))
              /\ (status j = PENDING \/ status j = PROCESSING ->
                  progress j <= progress j'))
           trace
  /\ exists final,
       last trace final = final
       /\ trace <> []
       /\ (status (last trace final) = COMPLETED
           \/ status (last trace final) = FAILED).
Proof.
  intros trace. unfold trace, job_execution, process_documents_job.
  set (j0 := new_job now (length files) merge).
  assert (H0 : trace_ok (start_worker j0 log)).
  { split; [now exists [] | exact I]. }
  destruct (try_block E job_id files merge (start_worker j0 log)) as [w' o] eqn:Et.
  assert (Hhd : forall w, (exists h, history w = (j0 :: h)) -> hd_error (history w) = Some j0).
  { intros w [h ->]. reflexivity. }
  assert (Hpre : exists h, history w' = j0 :: h).
  { clear -Et. unfold try_block in Et. cbv zeta in Et.
    assert (G : forall merge ob md n files idx total w w2 r,
               process_files E merge ob md n idx files total w = (w2, r) ->
               exists h, history w2 = history w ++ h).
    { clear. intros merge ob md n files.
      induction files as [|fp rest IH]; intros idx total w w2 r H; cbn [process_files] in H.
      - injection H as <- _. exists []. now rewrite app_nil_r.
      - cbv zeta in H.
        destruct (progress_of idx n) as [percent_|e].
        2:{ injection H as <- _. cbn [assign history]. eauto. }
        destruct (snd _) as [e|].
        + injection H as <- _. cbn [assign history]. rewrite <- app_assoc. eauto.
        + destruct (run_document E _ fp _) as [lr|e].
          * apply IH in H. destruct H as [h ->]. cbn [assign history job fs].
            rewrite <- !app_assoc. eauto.
          * injection H as <- _. cbn [assign history]. rewrite <- app_assoc. eauto. }
    destruct (raised (path_mkdir E _ _)); [injection Et as <- _; cbn; eauto|].
    destruct (raised (if merge then _ else None)); [injection Et as <- _; cbn; eauto|].
    destruct (process_files E merge _ _ _ 0 files 0 _) as [w3 r] eqn:Ef.
    apply G in Ef. destruct Ef as [h Hh]. cbn in Hh.
    destruct r.
    - destruct (raised (create_zip_archive E _ _ _)); injection Et as <- _;
        cbn [assign history job fs]; rewrite Hh; cbn; eauto.
    - injection Et as <- _. rewrite Hh. cbn. eauto. }
  destruct (try_block_ok job_id files merge _ w' o H0 eq_refl eq_refl Et) as [Hw' Ho].
  assert (Hconv : forall l, chain job_step l ->
            chain (fun j j' =>
              (status j = status j'
               \/ (status j = PENDING /\ status j' = PROCESSING)
               \/ (status j = PROCESSING
                   /\ (status j' = COMPLETED \/ status j' = FAILED)))
              /\ (status j = PENDING \/ status j = PROCESSING ->
                  progress j <= progress j')) l).
  { induction l as [|a [|b t] IH]; cbn [chain]; try tauto.
    intros [[Hs Hp] Hc]. split; [|now apply IH]. split; [exact Hs|].
    intros Hnt. apply Hp. unfold terminal. intros [T|T]; destruct Hnt; congruence. }
  assert (Hlast : forall w, trace_ok w -> forall d, last (history w) d = job w).
  { intros w [[h Hh] _] d. rewrite Hh. apply last_last. }
  assert (Hne : forall w, trace_ok w -> history w <> []).
  { intros w [[h Hh] _]. rewrite Hh. now destruct h. }
  destruct o as [e|].
  - destruct (except_block_ok e w' Hw' Ho) as (Hx & Hs & _).
    split; [|split].
    + apply Hhd. destruct Hpre as [h Hh]. unfold except_block. cbn [assign history].
      rewrite Hh. cbn. eauto.
    + apply Hconv. now destruct Hx.
    + exists (job (except_block e w')). rewrite (Hlast _ Hx).
      split; [reflexivity|]. split; [now apply Hne | now right].
  - destruct Ho as [Hs _]. split; [|split].
    + now apply Hhd.
    + apply Hconv. now destruct Hw'.
    + exists (job w'). rewrite (Hlast _ Hw').
      split; [reflexivity|]. split; [now apply Hne | now left].
Qed.

End WithEnvironment.

End TraceFacts.

Section WorkerOutcomes.
Import PyStr Exn Processor Main.
Local Open Scope Z_scope.

(** An environment for examples: a document reader and a pipeline that
    always answer, and a disk whose writes are decided by [disk]. *)
Definition toy_env (docx : pystr -> pystr + list pystr)
    (disk : FsLog -> pystr -> pystr -> write_outcome) : Environment :=
  mkEnvironment keep_nonascii toy_nlp docx toy_pdf disk
    (fun _ _ => None) (fun _ _ => None) (fun _ _ _ => None).

Definition writable_disk (log : FsLog) (path content : pystr) : write_outcome :=
  WriteOk.


Definition toy_upload : list pystr := [py "/tmp/jobs/j/uploads/doc.docx"].

Lemma job_trace_follows_lifecycle_witness :
  let trace := job_execution (toy_env toy_docx writable_disk) 0 (py "j") toy_upload false [] in
  hd_error trace = Some (new_job 0 (length toy_upload) false)
  /\ chain (fun j j' =>
              (status j = status j'
               \/ (status j = PENDING /\ status j' = PROCESSING)
               \/ (status j = PROCESSING
                   /\ (status j' = COMPLETED \/ status j' = FAILED)))
              /\ (status j = PENDING \/ status j = PROCESSING ->
                  progress j <= progress j'))
           trace
  /\ exists final,
       last trace final = final
       /\ trace <> []
       /\ (status (last trace final) = COMPLETED
           \/ status (last trace final) = FAILED).
Proof.
  exact (job_trace_follows_lifecycle (toy_env toy_docx writable_disk)
           0 (py "j") toy_upload false []).
Defined.

Section WithEnvironment.
Variable E : Environment.


(** The running total is the sum of the article counts of the documents, and
    each document has at most as many files as articles. *)
Lemma process_files_total (merge : bool) (ob md : pystr) (n : nat) (files : list pystr) :
  forall (idx total total' : nat) (w w' : Worker),
    process_files E merge ob md n idx files total w = (w', Ok total') ->
    exists results : list DocResult,
      Forall2 (fun fp r => exists log log' dir,
                             run_document E log fp dir = Ok (log', r))
              files results
      /\ Forall (fun r => (files_created r <= articles_count r)%nat) results
      /\ total' = (total + list_sum (map articles_count results))%nat.
Proof.
  induction files as [|fp rest IH]; intros idx total total' w w' H;
    cbn [process_files] in H.
  - injection H as _ <-. exists []. split; [constructor | split; [constructor|]].
    simpl. lia.
  - cbv zeta in H. destruct (progress_of idx n) as [percent_|e]; [|discriminate].
    destruct (snd _) as [e|]; [discriminate|].
    match type of H with
    | context [run_document E ?l fp ?d] =>
        destruct (run_document E l fp d) as [[log' r]|e] eqn:Er; [|discriminate]
    end.
    apply IH in H. destruct H as (results & HF2 & HF & ->).
    exists (r :: results). split; [|split].
    + constructor; [eauto | exact HF2].
    + constructor; [|exact HF]. unfold run_document in Er.
      exact (process_document_counts _ _ _ _ _ _ _ _ _ _ _ Er).
    + simpl. lia.
Qed.

Lemma try_block_total (job_id : pystr) (files : list pystr) (merge : bool)
    (w w' : Worker) :
  try_block E job_id files merge w = (w', None) ->
  status (job w') = COMPLETED
  /\ exists results : list DocResult,
       Forall2 (fun fp r => exists log log' dir,
                              run_document E log fp dir = Ok (log', r))
               files results
       /\ Forall (fun r => (files_created r <= articles_count r)%nat) results
       /\ total_articles (job w') = Some (list_sum (map articles_count results)).
Proof.
  unfold try_block. cbv zeta.
  destruct (raised (path_mkdir E _ _)); [discriminate|].
  destruct (raised (if merge then _ else None)); [discriminate|].
  destruct (process_files E merge _ _ _ 0 files 0 _) as [w3 [total|e]] eqn:Ef;
    [|discriminate].
  destruct (raised (create_zip_archive E _ _ _)); [discriminate|].
  intros H. injection H as <-. split; [reflexivity|].
  apply process_files_total in Ef. destruct Ef as (results & A & B & ->).
  exists results. now repeat split.
Qed.

End WithEnvironment.

(** C10. A document never has more files created than articles; a completed
    job reports the sum of the article counts of its documents; and that sum
    can exceed the number of files written, as on a disk that refuses every
    write. *)
Theorem total_articles_counts_segmented_articles :
  (forall (E : Environment) (log log' : FsLog) (file_path out_dir : pystr)
          (r : DocResult),
      run_document E log file_path out_dir = Ok (log', r) ->
      (files_created r <= articles_count r)%nat)
  /\ (forall (E : Environment) (job_id : pystr) (files : list pystr) (merge : bool)
             (w : Worker),
         status (job (process_documents_job E job_id files merge w)) = COMPLETED ->
         exists results : list DocResult,
           Forall2 (fun fp r => exists log log' dir,
                                  run_document E log fp dir = Ok (log', r))
                   files results
           /\ Forall (fun r => (files_created r <= articles_count r)%nat) results
           /\ total_articles (job (process_documents_job E job_id files merge w))
              = Some (list_sum (map articles_count results)))
  /\ (let E := toy_env toy_docx read_only_disk in
      let w := process_documents_job E (py "j") toy_upload false
                 (start_worker (new_job 0 1 false) []) in
      status (job w) = COMPLETED
      /\ total_articles (job w) = Some 1%nat
      /\ fs w = [mkAttempt (py "/tmp/jobs/j/output/doc/doc_Статья_1_Закон_право_суд.md")
                   (render_markdown 0
                      (mkDocument (py "Статья 1. Закон" ++ [LF] ++ py "Текст.")
                         (mkMetadata (Some (py "Статья 1. Закон")) None None None
                            (Some [py "право"; py "суд"]) (Some (py "право")))))
                   WriteOSError;
                 mkAttempt (py "/tmp/jobs/j/output/doc/doc_Article_1.md")
                   (render_markdown 0
                      (mkDocument (py "Статья 1. Закон" ++ [LF] ++ py "Текст.")
                         (mkMetadata (Some (py "Статья 1. Закон")) None None None
                            (Some [py "право"; py "суд"]) (Some (py "право")))))
                   WriteOSError]
      /\ exists log', run_document E [] (py "/tmp/jobs/j/uploads/doc.docx")
                        (py "/tmp/jobs/j/output/doc")
                      = Ok (log', mkDocResult (py "doc") 1 0 (py "/tmp/jobs/j/output/doc"))).
Proof.
  split; [|split].
  - intros E log log' file_path out_dir r H. unfold run_document in H.
    exact (process_document_counts _ _ _ _ _ _ _ _ _ _ _ H).
  - intros E job_id files merge w Hdone. unfold process_documents_job in *.
    destruct (try_block E job_id files merge w) as [w' [e|]] eqn:Et.
    + cbn in Hdone. discriminate.
    + apply try_block_total in Et. tauto.
  - cbv zeta. split; [vm_compute; reflexivity|]. split; [vm_compute; reflexivity|].
    split; [vm_compute; reflexivity|]. eexists. vm_compute. reflexivity.
Qed.



End WorkerOutcomes.

(* ================================================================== *)
(** * Further properties *)
(* ================================================================== *)

(** ** Segmentation: one article per article heading *)

Section HeadingFacts.
Import PyStr Re Processor.

(** The title that a sentence opens an article with, when the loop takes it
    for an article heading: it is not blank and none of the section, chapter
    and paragraph patterns matches it first. *)
Definition article_heading (raw : pystr) : option pystr :=
  let sent_text := strip raw in
  if negb (truthy sent_text) then None
  else match matched_title section_start_pattern sent_text,
             matched_title chapter_start_pattern sent_text,
             matched_title paragraph_start_pattern sent_text with
       | None, None, None => matched_title article_start_pattern sent_text
       | _, _, _ => None
       end.

Definition headings (sents : list pystr) : list pystr :=
  flat_map (fun raw => match article_heading raw with
                       | Some t => [t]
                       | None => []
                       end) sents.

Definition titles (articles : list Document) : list (option pystr) :=
  map (fun a => article_title (metadata a)) articles.

(** The title of the open article, if there is one. *)
Definition open_title (st : SegState) : list (option pystr) :=
  match current_article_full_title st with
  | Some t => [Some t]
  | None => []
  end.

(** An open article has a non-empty title and a buffer that starts with the
    heading sentence, of which the title is the stripped beginning. *)
Definition open_ok (st : SegState) : Prop :=
  match current_article_full_title st with
  | Some t =>
      t <> []
      /\ exists c m r rest,
           current_article_content st = (c :: m ++ r) :: rest
           /\ is_space c = false
           /\ t = strip (c :: m)
  | None => True
  end.

Lemma flush_titles (st : SegState) :
  open_ok st ->
  titles (langchain_articles (add_article_to_list st))
  = titles (langchain_articles st) ++ open_title st.
Proof.
  unfold open_ok, open_title, add_article_to_list. cbn [langchain_articles].
  destruct (current_article_full_title st) as [t|]; [|now rewrite app_nil_r].
  intros (Ht & c & m & r & rest & -> & _).
  apply truthy_nonempty in Ht. rewrite Ht.
  unfold titles. now rewrite map_app.
Qed.

Lemma matched_title_shape (r : re) (raw t : pystr) :
  1 <= min_len r -> matched_title r (strip raw) = Some t ->
  exists c m rest, strip raw = c :: m ++ rest /\ is_space c = false /\ t = strip (c :: m).
Proof.
  unfold matched_title. intros Hlen H.
  destruct (re_match r (strip raw)) as [[m rest]|] eqn:E; [|discriminate].
  cbn in H. injection H as <-.
  destruct (re_match_sound _ _ _ _ E) as [Hs Hm].
  destruct m as [|c m']; [simpl in Hm; lia|].
  exists c, m', rest. repeat split; [exact Hs|].
  apply (strip_head raw c (m' ++ rest)). exact Hs.
Qed.

Lemma flush_closes (st : SegState) :
  current_article_full_title (add_article_to_list st) = None
  /\ current_article_content (add_article_to_list st) = [].
Proof. now split. Qed.

Lemma open_title_closed (st : SegState) :
  current_article_full_title st = None -> open_title st = [] /\ open_ok st.
Proof. intros H. unfold open_title, open_ok. now rewrite H. Qed.

Lemma seg_step_titles (st : SegState) (raw : pystr) :
  open_ok st ->
  open_ok (seg_step st raw)
  /\ titles (langchain_articles (seg_step st raw)) ++ open_title (seg_step st raw)
     = (titles (langchain_articles st) ++ open_title st)
       ++ map Some (headings [raw]).
Proof.
  intros Hok. unfold headings, article_heading. cbn [flat_map]. rewrite app_nil_r.
  unfold seg_step. cbv zeta.
  destruct (truthy (strip raw)) eqn:Et; cbn [negb].
  2:{ split; [exact Hok | now rewrite app_nil_r]. }
  assert (Hflush := flush_titles st Hok).
  assert (Hclosed : forall sec ch par,
            let st' := mkSegState (langchain_articles (add_article_to_list st))
                         (current_article_full_title (add_article_to_list st))
                         (current_article_content (add_article_to_list st)) sec ch par in
            open_ok st'
            /\ titles (langchain_articles st') ++ open_title st'
               = (titles (langchain_articles st) ++ open_title st) ++ map Some []).
  { intros sec ch par st'.
    destruct (open_title_closed st' eq_refl) as [Ho Hk]. rewrite Ho.
    split; [exact Hk|]. cbn [map]. rewrite !app_nil_r. exact Hflush. }
  destruct (matched_title section_start_pattern (strip raw)); [apply Hclosed|].
  destruct (matched_title chapter_start_pattern (strip raw)); [apply Hclosed|].
  destruct (matched_title paragraph_start_pattern (strip raw)); [apply Hclosed|].
  destruct (matched_title article_start_pattern (strip raw)) as [t|] eqn:Ea.
  - split.
    + unfold open_ok. cbn [current_article_full_title current_article_content].
      split; [exact (matched_title_nonempty _ raw t article_min_len Ea)|].
      destruct (matched_title_shape _ raw t article_min_len Ea) as (c & m & r & Hs & Hc & Ht).
      exists c, m, r, []. rewrite Hs. now repeat split.
    + unfold open_title at 1. cbn [current_article_full_title langchain_articles].
      rewrite Hflush. reflexivity.
  - cbn [map]. rewrite app_nil_r.
    unfold open_ok, open_title in *.
    destruct (current_article_full_title st) as [t|] eqn:Et'; cbn [truthy_opt].
    + destruct Hok as (Hne & c & m & r & rest & Hb & Hc & Ht).
      assert (Htr : truthy t = true) by now apply truthy_nonempty.
      rewrite Htr. cbn [current_article_full_title current_article_content langchain_articles].
      split; [|reflexivity]. split; [exact Hne|].
      exists c, m, r, (rest ++ [strip raw]). rewrite Hb. now repeat split.
    + rewrite ?Et'. now split.
Qed.

Lemma seg_scan_titles (sents : list pystr) :
  forall st, open_ok st ->
    open_ok (seg_scan st sents)
    /\ titles (langchain_articles (seg_scan st sents)) ++ open_title (seg_scan st sents)
       = (titles (langchain_articles st) ++ open_title st) ++ map Some (headings sents).
Proof.
  induction sents as [|raw rest IH]; intros st Hok; cbn [seg_scan fold_left].
  - split; [exact Hok | now rewrite app_nil_r].
  - destruct (seg_step_titles st raw Hok) as [Hok1 H1].
    destruct (IH _ Hok1) as [Hok2 H2]. split; [exact Hok2|].
    unfold seg_scan in H2. rewrite H2, H1, <- app_assoc, <- map_app.
    unfold headings. cbn [flat_map]. now rewrite app_nil_r.
Qed.

(** The titles of the articles of a text are, in order, the headings of its
    article-heading sentences: each heading gives one article, and nothing
    else does. *)
Theorem one_article_per_heading (sents : list pystr) :
  titles (segment_sentences sents) = map Some (headings sents)
  /\ length (segment_sentences sents) = length (headings sents)
  /\ (headings sents = [] -> segment_sentences sents = []).
Proof.
  assert (H : titles (segment_sentences sents) = map Some (headings sents)).
  { unfold segment_sentences.
    destruct (seg_scan_titles sents seg_init I) as [Hok H].
    rewrite (flush_titles _ Hok), H. reflexivity. }
  split; [exact H|].
  assert (L : length (segment_sentences sents) = length (headings sents)).
  { apply (f_equal (@length _)) in H. unfold titles in H. now rewrite !length_map in H. }
  split; [exact L|]. intros E. rewrite E in L.
  now destruct (segment_sentences sents).
Qed.

End HeadingFacts.

(** ** Segmentation: the content starts with the title *)

Section ContentFacts.
Import PyStr Re Processor.

Lemma startswith_iff (s p : pystr) : startswith s p = true <-> exists r, s = p ++ r.
Proof.
  revert s. induction p as [|x t IH]; intros s; cbn [startswith].
  - split; [intros _; now exists s | intros _; now destruct s].
  - destruct s as [|c u]; cbn [startswith].
    + split; [discriminate | intros [r H]; discriminate].
    + rewrite andb_true_iff, N.eqb_eq, IH. split.
      * intros [-> [r ->]]. now exists r.
      * intros [r H]. injection H as -> ->. split; [reflexivity | now exists r].
Qed.

Lemma lstrip_through (a : pystr) (d : cp) (b : pystr) :
  is_space d = false -> exists a', lstrip (a ++ d :: b) = a' ++ d :: b.
Proof.
  intros Hd. induction a as [|x t [a' IH]]; cbn [app lstrip].
  - rewrite Hd. now exists [].
  - destruct (is_space x); [now exists a' | now exists (x :: t)].
Qed.

(** Stripping the end of a string removes white space only. *)
Lemma rstrip_shape (s : pystr) :
  (exists ws, s = rstrip s ++ ws)
  /\ (rstrip s = [] \/ exists q d, rstrip s = q ++ [d] /\ is_space d = false).
Proof.
  unfold rstrip. destruct (lstrip_suffix (rev s)) as [pre Hpre]. split.
  - exists (rev pre). rewrite <- rev_app_distr, <- Hpre. now rewrite rev_involutive.
  - destruct (lstrip (rev s)) as [|d t] eqn:E; [now left|]. right.
    exists (rev t), d. split; [reflexivity | exact (lstrip_head _ _ _ E)].
Qed.

Lemma rstrip_through (q : pystr) (d : cp) (y : pystr) :
  is_space d = false -> exists z, rstrip ((q ++ [d]) ++ y) = (q ++ [d]) ++ z.
Proof.
  intros Hd. unfold rstrip. rewrite !rev_app_distr. cbn [rev app].
  destruct (lstrip_through (rev y) d (rev q) Hd) as [a' Ha]. rewrite Ha.
  exists (rev a'). rewrite rev_app_distr. cbn [rev]. now rewrite rev_involutive.
Qed.

(** The stripped beginning of a text is a beginning of the stripped text. *)
Lemma strip_prefix (c : cp) (m x : pystr) :
  is_space c = false -> exists tail, strip ((c :: m) ++ x) = strip (c :: m) ++ tail.
Proof.
  intros Hc. unfold strip. cbn [app]. rewrite !lstrip_keeps by exact Hc.
  destruct (rstrip_shape (c :: m)) as [[ws Hws] [Hnil|(q & d & Hq & Hd)]].
  - destruct (rstrip_keeps_head c m Hc) as [t' Ht]. congruence.
  - rewrite Hq in *. change (c :: m ++ x) with ((c :: m) ++ x). rewrite Hws.
    rewrite <- app_assoc. apply rstrip_through. exact Hd.
Qed.

Definition titled (a : Document) : Prop :=
  exists t, article_title (metadata a) = Some t /\ startswith (page_content a) t = true.

Lemma join_first (sep x : pystr) (rest : list pystr) :
  exists tail, join sep (x :: rest) = x ++ tail.
Proof. destruct rest; cbn [join]; [exists []; now rewrite app_nil_r | eauto]. Qed.

Lemma flush_titled (st : SegState) :
  open_ok st -> Forall titled (langchain_articles st) ->
  Forall titled (langchain_articles (add_article_to_list st)).
Proof.
  unfold open_ok, add_article_to_list. cbn [langchain_articles].
  destruct (current_article_full_title st) as [t|]; [|auto].
  intros (Hne & c & m & r & rest & Hb & Hc & Ht) Hall. rewrite Hb.
  destruct (truthy t); [|exact Hall].
  apply Forall_app. split; [exact Hall|]. constructor; [|constructor].
  exists t. split; [reflexivity|]. cbn [page_content]. apply startswith_iff.
  destruct (join_first [LF] (c :: m ++ r) rest) as [tail Hj].
  assert (Hj' : join [LF] ((c :: m ++ r) :: rest) = (c :: m) ++ (r ++ tail)).
  { transitivity ((c :: m ++ r) ++ tail); [exact Hj|]. cbn [app]. now rewrite app_assoc. }
  assert (Hgoal : exists r0, strip (join [LF] ((c :: m ++ r) :: rest)) = t ++ r0).
  { rewrite Hj', Ht. apply strip_prefix. exact Hc. }
  exact Hgoal.
Qed.

Lemma seg_step_articles (st : SegState) (raw : pystr) :
  langchain_articles (seg_step st raw) = langchain_articles st
  \/ langchain_articles (seg_step st raw) = langchain_articles (add_article_to_list st).
Proof.
  unfold seg_step. cbv zeta.
  destruct (negb (truthy (strip raw))); [now left|].
  destruct (matched_title section_start_pattern _); [now right|].
  destruct (matched_title chapter_start_pattern _); [now right|].
  destruct (matched_title paragraph_start_pattern _); [now right|].
  destruct (matched_title article_start_pattern _); [now right|].
  destruct (truthy_opt _); now left.
Qed.

(** The content of every article starts with its title: the heading sentence
    is the first line of the content. *)
Theorem content_starts_with_title (sents : list pystr) :
  Forall (fun a => exists t, article_title (metadata a) = Some t
                             /\ startswith (page_content a) t = true)
         (segment_sentences sents).
Proof.
  unfold segment_sentences.
  assert (G : forall l st, open_ok st -> Forall titled (langchain_articles st) ->
                           open_ok (seg_scan st l)
                           /\ Forall titled (langchain_articles (seg_scan st l))).
  { induction l as [|raw rest IH]; intros st Hok Hall; cbn [seg_scan fold_left];
      [now split|].
    apply IH.
    - exact (proj1 (seg_step_titles st raw Hok)).
    - destruct (seg_step_articles st raw) as [-> | ->];
        [exact Hall | now apply flush_titled]. }
  destruct (G sents seg_init I (Forall_nil _)) as [Hok Hall].
  exact (flush_titled _ Hok Hall).
Qed.

End ContentFacts.

(** ** Keywords: ranked by frequency *)

Section RankingFacts.
Import PyStr Exn Processor.

Variable unicode_lower : pystr -> nat -> pystr.
Variable nlp : pystr -> pystr + Doc.

(** The lower-cased lemmas that the loop over the content counts: those of
    the tokens that pass the filters and are not lemmas of the title. *)
Definition counted_lemmas (title_tokens : list pystr) (doc : list Token) : list pystr :=
  flat_map
    (fun token =>
       if token_passes token && truthy (strip (text token)) then
         if negb (in_set (str_lower unicode_lower (lemma_ token)) title_tokens)
         then [str_lower unicode_lower (lemma_ token)]
         else []
       else [])
    doc.

(** How often a lemma is counted. *)
Definition frequency (title_tokens : list pystr) (doc : list Token) (k : pystr) : nat :=
  count_occ (list_eq_dec N.eq_dec) (counted_lemmas title_tokens doc) k.

Definition counter_of (l : list pystr) (acc : Counter) : Counter :=
  fold_left (fun c k => counter_incr k c) l acc.

Lemma count_candidates_counter (title_tokens : list pystr) (doc : list Token) :
  count_candidates unicode_lower title_tokens doc
  = counter_of (counted_lemmas title_tokens doc) [].
Proof.
  unfold count_candidates, counter_of, counted_lemmas.
  generalize (@nil (pystr * nat)). induction doc as [|tk r IH]; intros acc;
    cbn [fold_left flat_map]; [reflexivity|].
  rewrite fold_left_app, IH. f_equal.
  destruct (token_passes tk && truthy (strip (text tk))); [|reflexivity].
  cbv zeta. now destruct (negb (in_set _ title_tokens)).
Qed.

(** The count that a counter holds for a key, 0 for a missing key. *)
Fixpoint counter_get (c : Counter) (k : pystr) : nat :=
  match c with
  | [] => 0
  | kn :: t => if str_eqb (fst kn) k then snd kn else counter_get t k
  end.

Lemma str_eqb_refl (k : pystr) : str_eqb k k = true.
Proof. now apply str_eqb_eq. Qed.

Lemma str_eqb_neq (a b : pystr) : a <> b -> str_eqb a b = false.
Proof.
  intros H. destruct (str_eqb a b) eqn:E; [|reflexivity].
  apply str_eqb_eq in E. contradiction.
Qed.

Lemma counter_get_incr (k k' : pystr) (c : Counter) :
  counter_get (counter_incr k c) k'
  = if str_eqb k k' then S (counter_get c k) else counter_get c k'.
Proof.
  induction c as [|[k0 n0] t IH]; cbn [counter_incr counter_get fst snd].
  - destruct (str_eqb k k'); reflexivity.
  - destruct (str_eqb k0 k) eqn:E0; cbn [counter_get fst snd].
    + apply str_eqb_eq in E0. subst k0.
      destruct (str_eqb k k') eqn:E1; [reflexivity|]. reflexivity.
    + destruct (str_eqb k0 k') eqn:E1.
      * apply str_eqb_eq in E1. subst k0.
        destruct (str_eqb k k') eqn:E2; [|reflexivity].
        apply str_eqb_eq in E2. subst k'. rewrite str_eqb_refl in E0. discriminate.
      * exact IH.
Qed.

Lemma counter_get_counter_of (l : list pystr) (k : pystr) :
  forall acc, counter_get (counter_of l acc) k
              = counter_get acc k + count_occ (list_eq_dec N.eq_dec) l k.
Proof.
  unfold counter_of. induction l as [|x t IH]; intros acc; cbn [fold_left count_occ].
  - lia.
  - rewrite IH, counter_get_incr.
    destruct (list_eq_dec N.eq_dec x k) as [->|Hne].
    + rewrite str_eqb_refl. lia.
    + rewrite (str_eqb_neq x k Hne). reflexivity.
Qed.

Lemma counter_get_In (c : Counter) (k : pystr) (n : nat) :
  NoDup (map fst c) -> In (k, n) c -> counter_get c k = n.
Proof.
  induction c as [|[k0 n0] t IH]; cbn [map fst counter_get snd]; [intros _ []|].
  intros Hnd [H|H].
  - injection H as -> ->. now rewrite str_eqb_refl.
  - inversion Hnd as [|? ? Hnot Hnd']; subst.
    rewrite str_eqb_neq; [now apply IH|].
    intros ->. apply Hnot. apply in_map_iff. now exists (k, n).
Qed.

(** Each entry of the counter holds the frequency of its lemma. *)
Lemma count_candidates_frequency (title_tokens : list pystr) (doc : list Token)
    (k : pystr) (n : nat) :
  In (k, n) (count_candidates unicode_lower title_tokens doc) ->
  n = frequency title_tokens doc k.
Proof.
  intros H. rewrite <- (counter_get_In _ k n (count_candidates_NoDup _ _ _) H).
  rewrite count_candidates_counter, counter_get_counter_of. reflexivity.
Qed.

Definition by_count (a b : pystr * nat) : Prop := snd b <= snd a.

Lemma insert_desc_In (x y : pystr * nat) (l : Counter) :
  In y (insert_desc x l) -> y = x \/ In y l.
Proof.
  intros H. apply (Permutation_in _ (insert_desc_perm x l)) in H.
  destruct H; [now left; subst | now right].
Qed.

Lemma insert_desc_sorted (x : pystr * nat) (l : Counter) :
  StronglySorted by_count l -> StronglySorted by_count (insert_desc x l).
Proof.
  induction l as [|y t IH]; cbn [insert_desc]; intros H.
  - repeat constructor.
  - inversion H as [|? ? Ht Hy]; subst.
    destruct (Nat.ltb_spec (snd y) (snd x)).
    + constructor; [exact H|]. constructor; [unfold by_count; lia|].
      rewrite Forall_forall in *. intros z Hz. specialize (Hy z Hz).
      unfold by_count in *. lia.
    + constructor; [now apply IH|].
      rewrite Forall_forall in *. intros z Hz.
      destruct (insert_desc_In x z t Hz) as [->|Hz']; [exact H0 | now apply Hy].
Qed.

Lemma most_common_sorted (c : Counter) : StronglySorted by_count (most_common c).
Proof.
  unfold most_common.
  assert (G : forall acc, StronglySorted by_count acc ->
                          StronglySorted by_count
                            (fold_left (fun a x => insert_desc x a) c acc)).
  { induction c as [|x t IH]; intros acc H; cbn [fold_left]; [exact H|].
    apply IH. now apply insert_desc_sorted. }
  apply G. constructor.
Qed.

Lemma sorted_filter {A} (R : A -> A -> Prop) (f : A -> bool) (l : list A) :
  StronglySorted R l -> StronglySorted R (filter f l).
Proof.
  induction 1 as [|x l Hs IH Hx]; cbn [filter]; [constructor|].
  destruct (f x); [|exact IH]. constructor; [exact IH|].
  rewrite Forall_forall in *. intros y Hy. apply filter_In in Hy. now apply Hx.
Qed.

Lemma sorted_firstn {A} (R : A -> A -> Prop) (n : nat) (l : list A) :
  StronglySorted R l -> StronglySorted R (firstn n l).
Proof.
  intros H. revert n. induction H as [|x l Hs IH Hx]; intros [|n]; cbn [firstn];
    try constructor.
  - apply IH.
  - rewrite Forall_forall in *. intros y Hy. apply Hx. exact (In_firstn_In n l y Hy).
Qed.

Lemma sorted_keys (freq : pystr -> nat) (l : Counter) :
  StronglySorted by_count l ->
  (forall kn, In kn l -> snd kn = freq (fst kn)) ->
  StronglySorted (fun a b => freq b <= freq a) (map fst l).
Proof.
  induction 1 as [|x l Hs IH Hx]; intros Hf; cbn [map]; [constructor|].
  constructor.
  - apply IH. intros kn Hkn. apply Hf. now right.
  - rewrite Forall_forall in *. intros k Hk. apply in_map_iff in Hk.
    destruct Hk as (kn & <- & Hkn). specialize (Hx kn Hkn). unfold by_count in Hx.
    rewrite <- (Hf kn (or_intror Hkn)), <- (Hf x (or_introl eq_refl)). exact Hx.
Qed.

Lemma slice_to_firstn {A} (l : list A) (n : Z) : exists m, slice_to l n = firstn m l.
Proof. unfold slice_to. destruct (n <? 0)%Z; eauto. Qed.

(** The keywords come in the order of their frequency in the content, the
    most frequent first, and the topic is the first of them, or the fixed
    label when there is none.  Each keyword is counted at least once. *)
Theorem keywords_ranked_by_frequency
  (text_ title_ : pystr) (num_keywords : Z) (kws : list pystr) (tp : pystr)
  (Hrun : extract_keywords_and_topic unicode_lower nlp text_ title_ num_keywords
          = Ok (kws, tp)) :
  exists doc title_doc,
    nlp text_ = inr doc /\ nlp title_ = inr title_doc
    /\ let freq := frequency (title_token_set unicode_lower (tokens title_doc))
                     (tokens doc) in
       StronglySorted (fun a b => freq b <= freq a) kws
       /\ Forall (fun k => 1 <= freq k) kws
       /\ tp = hd default_topic kws.
Proof.
  unfold extract_keywords_and_topic, bind, call in Hrun.
  destruct (nlp text_) as [e|doc]; [discriminate|].
  destruct (nlp title_) as [e|title_doc]; [discriminate|].
  cbv zeta in Hrun. injection Hrun as <- <-.
  exists doc, title_doc. split; [reflexivity|]. split; [reflexivity|]. cbv zeta.
  set (tt := title_token_set unicode_lower (tokens title_doc)).
  set (c := count_candidates unicode_lower tt (tokens doc)).
  destruct (slice_to_firstn (filter_candidates tt c) num_keywords) as [m ->].
  unfold filter_candidates. rewrite firstn_map.
  set (ranked := firstn m (filter _ (most_common c))).
  assert (Hin : forall kn, In kn ranked -> In kn c).
  { intros kn H. apply In_firstn_In in H. apply filter_In in H.
    apply (Permutation_in _ (most_common_perm c)). tauto. }
  assert (Hf : forall kn, In kn ranked -> snd kn = frequency tt (tokens doc) (fst kn)).
  { intros [k n] H. apply (count_candidates_frequency tt (tokens doc) k n). now apply Hin. }
  split; [|split].
  - apply sorted_keys; [|exact Hf].
    apply sorted_firstn, sorted_filter, most_common_sorted.
  - apply Forall_forall. intros k Hk. apply in_map_iff in Hk.
    destruct Hk as ([k' n] & <- & Hkn). cbn [fst].
    assert (Hn := Hf _ Hkn). cbn [fst snd] in Hn. rewrite <- Hn.
    assert (Hpos : forall l acc, (forall kn, In kn acc -> 1 <= snd kn) ->
                     forall kn, In kn (counter_of l acc) -> 1 <= snd kn).
    { clear. unfold counter_of. induction l as [|x t IH]; intros acc Ha kn H;
        cbn [fold_left] in H; [now apply Ha|].
      apply (IH (counter_incr x acc)); [|exact H].
      clear -Ha. induction acc as [|[k0 n0] u IHu]; cbn [counter_incr fst snd].
      - intros kn [<-|[]]. cbn. lia.
      - destruct (str_eqb k0 x).
        + intros kn [<-|H]; [cbn; lia | apply Ha; now right].
        + intros kn [<-|H]; [apply (Ha (k0, n0)); now left|].
          apply IHu; [|exact H]. intros z Hz. apply Ha. now right. }
    apply (Hpos (counted_lemmas tt (tokens doc)) [] (fun kn (H : In kn []) => match H with end)
             (k', n)).
    rewrite <- count_candidates_counter. now apply Hin.
  - now destruct (map fst ranked).
Qed.

End RankingFacts.

Section RankingWitness.
Import PyStr Exn Processor.

Lemma keywords_ranked_by_frequency_witness :
  exists doc title_doc,
    toy_nlp (py "текст") = inr doc /\ toy_nlp (py "Статья 1. Закон") = inr title_doc
    /\ let freq := frequency keep_nonascii
                     (title_token_set keep_nonascii (tokens title_doc)) (tokens doc) in
       StronglySorted (fun a b => freq b <= freq a) [py "право"; py "суд"]
       /\ Forall (fun k => 1 <= freq k) [py "право"; py "суд"]
       /\ py "право" = hd default_topic [py "право"; py "суд"].
Proof.
  apply (keywords_ranked_by_frequency keep_nonascii toy_nlp
           (py "текст") (py "Статья 1. Закон") 7 [py "право"; py "суд"] (py "право")).
  vm_compute. reflexivity.
Defined.

End RankingWitness.

(** ** Enrichment and sanitizing *)

Section EnrichFacts.
Import PyStr Exn Processor.

Variable unicode_lower : pystr -> nat -> pystr.
Variable nlp : pystr -> pystr + Doc.

Lemma mapM_Forall2 {A B} (f : A -> result B) (l : list A) (l' : list B) :
  mapM f l = Ok l' -> Forall2 (fun a b => f a = Ok b) l l'.
Proof.
  revert l'. induction l as [|a t IH]; intros l' H; cbn [mapM] in H.
  - injection H as <-. constructor.
  - unfold bind in H. destruct (f a) as [b|] eqn:E; [|discriminate].
    destruct (mapM f t) as [bs|]; [|discriminate].
    injection H as <-. constructor; [exact E | now apply IH].
Qed.

(** Enrichment returns the articles it was given, in order, each with its
    text and its titles untouched and with the keywords and the topic that
    [extract_keywords_and_topic] finds for it with the default of seven. *)
Theorem enrichment_keeps_articles (articles enriched : list Document)
    (Hrun : enrich_articles_with_metadata unicode_lower nlp articles = Ok enriched) :
  Forall2
    (fun a a' =>
       page_content a' = page_content a
       /\ article_title (metadata a') = article_title (metadata a)
       /\ section_title (metadata a') = section_title (metadata a)
       /\ chapter_title (metadata a') = chapter_title (metadata a)
       /\ paragraph_title (metadata a') = paragraph_title (metadata a)
       /\ exists kws tp,
            keywords (metadata a') = Some kws
            /\ topic (metadata a') = Some tp
            /\ extract_keywords_and_topic unicode_lower nlp (page_content a)
                 (get_or (article_title (metadata a)) []) 7 = Ok (kws, tp)
            /\ length kws <= 7)
    articles enriched.
Proof.
  unfold enrich_articles_with_metadata in Hrun. apply mapM_Forall2 in Hrun.
  induction Hrun as [|a a' l l' H _ IH]; constructor; [|exact IH].
  unfold enrich_article, bind in H. cbv zeta in H.
  destruct (extract_keywords_and_topic _ _ _ _ 7) as [[kws tp]|] eqn:E; [|discriminate].
  injection H as <-. cbn. repeat split. exists kws, tp. repeat split.
  unfold extract_keywords_and_topic, bind, call in E.
  destruct (nlp (page_content a)); [discriminate|].
  destruct (nlp (get_or _ _)); [discriminate|].
  cbv zeta in E. injection E as <- _.
  rewrite slice_to_nonneg by lia. apply firstn_le_length.
Qed.

End EnrichFacts.

Section EnrichWitness.
Import PyStr Exn Processor.

Lemma enrichment_keeps_articles_witness :
  enrich_articles_with_metadata keep_nonascii toy_nlp
    [mkDocument (py "текст") (mkMetadata (Some (py "Статья 1. Закон")) None None None None None)]
  = Ok [mkDocument (py "текст")
          (mkMetadata (Some (py "Статья 1. Закон")) None None None
             (Some [py "право"; py "суд"]) (Some (py "право")))]
  /\ Forall2 (fun a a' => page_content a' = page_content a)
       [mkDocument (py "текст")
          (mkMetadata (Some (py "Статья 1. Закон")) None None None None None)]
       [mkDocument (py "текст")
          (mkMetadata (Some (py "Статья 1. Закон")) None None None
             (Some [py "право"; py "суд"]) (Some (py "право")))].
Proof.
  assert (Hrun :
    enrich_articles_with_metadata keep_nonascii toy_nlp
      [mkDocument (py "текст")
         (mkMetadata (Some (py "Статья 1. Закон")) None None None None None)]
    = Ok [mkDocument (py "текст")
            (mkMetadata (Some (py "Статья 1. Закон")) None None None
               (Some [py "право"; py "суд"]) (Some (py "право")))])
    by (vm_compute; reflexivity).
  split; [exact Hrun|].
  eapply Forall2_impl;
    [|exact (enrichment_keeps_articles keep_nonascii toy_nlp _ _ Hrun)].
  intros a a' H. exact (proj1 H).
Defined.

End EnrichWitness.

Section SanitizeFacts.
Import PyStr Re Processor.
Local Open Scope Z_scope.

(** A sanitized string has none of the characters that are unsafe in a file
    name and no space, it does not start with white space, and for a
    non-negative [max_length] it is at most that long. *)
Theorem sanitized_is_safe (text_ : pystr) (max_length : Z) :
  let s := sanitize_string_for_filename text_ max_length in
  Forall (fun c => ~ In c unsafe_chars /\ c <> SPACE) s
  /\ (0 <= max_length -> len s <= max_length /\ (forall c t, s = c :: t -> is_space c = false)).
Proof.
  cbv zeta. unfold sanitize_string_for_filename. split.
  - apply Forall_forall. intros c Hc. apply In_slice_to, In_strip in Hc.
    unfold replace_char in Hc. apply in_map_iff in Hc. destruct Hc as (x & Hx & Hin).
    apply filter_In in Hin. destruct Hin as [_ Hmem].
    destruct (x =? SPACE)%N eqn:Ex.
    + subst c. split; [|discriminate]. vm_compute. intuition discriminate.
    + apply N.eqb_neq in Ex. subst c. split; [|exact Ex]. intros Hu.
      assert (M : mem x unsafe_chars = true).
      { unfold mem. apply existsb_exists. exists x. split; [exact Hu | apply N.eqb_refl]. }
      rewrite M in Hmem. discriminate.
  - intros Hn. split; [now apply len_slice_to|].
    intros c t H. rewrite slice_to_nonneg in H by exact Hn.
    destruct (strip _) as [|d u] eqn:E; [now destruct (Z.to_nat max_length)|].
    destruct (Z.to_nat max_length); [discriminate|]. cbn [firstn] in H.
    injection H as <- _. exact (strip_head _ _ _ E).
Qed.

End SanitizeFacts.

(** ** Writing: where the files go *)

Section PathFacts.
Import PyStr Re Exn OsPath Processor.
Local Open Scope N_scope.

Lemma digits_fuel_digits (fuel : nat) :
  forall n acc, Forall (fun c => 48 <= c <= 57) acc ->
                Forall (fun c => 48 <= c <= 57) (digits_fuel fuel n acc).
Proof.
  induction fuel as [|f IH]; intros n acc H; cbn [digits_fuel]; [exact H|].
  assert (Hd : Forall (fun c => 48 <= c <= 57) ((48 + n mod 10) :: acc)).
  { constructor; [|exact H]. assert (Hm : n mod 10 < 10) by (apply N.mod_lt; discriminate).
    cbv beta. revert Hm. generalize (n mod 10). intros m Hm. lia. }
  cbv zeta. destruct (n <? 10); [exact Hd | now apply IH].
Qed.

(** [str(n)] is made of decimal digits. *)
Lemma str_of_nat_digits (n : nat) : Forall (fun c => 48 <= c <= 57) (str_of_nat n).
Proof. unfold str_of_nat, str_of_N. apply digits_fuel_digits. constructor. Qed.

(** A plain file name: no slash, and the [.md] extension. *)
Definition plain_md (name : pystr) : Prop :=
  ~ In SLASH name /\ endswith name lit_md = true.

Lemma no_slash_app (a b : pystr) : ~ In SLASH a -> ~ In SLASH b -> ~ In SLASH (a ++ b).
Proof. intros Ha Hb H. apply in_app_or in H. tauto. Qed.

Lemma lit_md_no_slash : ~ In SLASH lit_md.
Proof. vm_compute. intuition discriminate. Qed.

Lemma synthesized_plain (doc_base_name : pystr) (i : nat) (a : Document) :
  plain_md (synthesize_filename (sanitize_string_for_filename doc_base_name 40) i a).
Proof.
  set (prefix := sanitize_string_for_filename doc_base_name 40).
  assert (Hparts : Forall (part_ok 50) (filter truthy (filename_parts prefix i a))).
  { assert (H := filename_parts_ok prefix i a (sanitize_ok doc_base_name 40 ltac:(lia))).
    rewrite Forall_forall in *. intros p Hp. apply filter_In in Hp. now apply H. }
  destruct (join_parts_ok _ Hparts) as [Hslash Hsep].
  unfold synthesize_filename. cbv zeta.
  set (base := join [UNDERSCORE] (filter truthy (filename_parts prefix i a))) in *.
  destruct (Z.ltb_spec max_total_filename_length (len (base ++ lit_md))) as [Hgt|Hle].
  - unfold max_total_filename_length in *. rewrite len_app in Hgt.
    change (len lit_md) with 3%Z in Hgt.
    rewrite splitext_md;
      [|exact Hslash | exists UNDERSCORE; split; [apply Hsep; lia | discriminate]].
    cbn [fst snd]. split; [|apply endswith_app].
    apply no_slash_app; [|exact lit_md_no_slash].
    intros H. apply In_slice_to in H. contradiction.
  - split; [|apply endswith_app]. apply no_slash_app; [exact Hslash | exact lit_md_no_slash].
Qed.

Lemma fallback_plain (doc_base_name : pystr) (i : nat) :
  plain_md (fallback_filename (sanitize_string_for_filename doc_base_name 40) i).
Proof.
  unfold fallback_filename. split.
  - apply no_slash_app; [exact (proj2 (sanitize_ok doc_base_name 40 ltac:(lia)))|].
    apply no_slash_app; [vm_compute; intuition discriminate|].
    apply no_slash_app; [|exact lit_md_no_slash].
    intros H. assert (D := str_of_nat_digits (i + 1)). rewrite Forall_forall in D.
    specialize (D SLASH H). unfold SLASH in D. lia.
  - rewrite !app_assoc. apply endswith_app.
Qed.

(** A plain name joined to a directory stays in that directory. *)
Lemma join2_plain (dir name : pystr) :
  ~ In SLASH name ->
  basename (join2 dir name) = name
  /\ (join2 dir name = dir ++ name \/ join2 dir name = dir ++ [SLASH] ++ name).
Proof.
  intros Hn.
  assert (Hsw : startswith name [SLASH] = false).
  { destruct name as [|c t]; [reflexivity|]. cbn [startswith].
    destruct (N.eqb_spec c SLASH) as [->|_]; [|reflexivity]. exfalso. apply Hn. now left. }
  assert (Hb : forall pre, (pre = [] \/ exists q, pre = q ++ [SLASH]) ->
                           basename (pre ++ name) = name).
  { intros pre Hpre. unfold basename, rfind.
    destruct Hpre as [->|[q ->]].
    - cbn [app]. rewrite rfind_from_absent by exact Hn. reflexivity.
    - rewrite <- app_assoc. cbn [app]. rewrite rfind_from_last by exact Hn.
      replace (Z.to_nat (0 + len q + 1)) with (length (q ++ [SLASH]))
        by (rewrite length_app; unfold len; cbn [length]; lia).
      change (q ++ SLASH :: name) with (q ++ [SLASH] ++ name).
      rewrite app_assoc, skipn_app, skipn_all, Nat.sub_diag. reflexivity. }
  unfold join2. rewrite Hsw.
  destruct (negb (truthy dir) || endswith dir [SLASH]) eqn:E.
  - split; [|now left]. apply Hb.
    apply orb_prop in E. destruct E as [E|E].
    + left. now destruct dir.
    + right. unfold endswith in E. apply startswith_iff in E. destruct E as [r Hr].
      cbn [rev app] in Hr. exists (rev r).
      apply (f_equal (@rev cp)) in Hr. rewrite rev_involutive in Hr. rewrite Hr.
      reflexivity.
  - split; [|now right]. rewrite app_assoc. apply Hb. right. now exists dir.
Qed.

Section WithDisk.
Variable try_write : FsLog -> pystr -> pystr -> write_outcome.
Variable makedirs : FsLog -> pystr -> option pystr.

(** What the loop adds to the log and to the list of created files. *)
Definition written_in (out_dir : pystr) (new : FsLog) (created : list pystr) : Prop :=
  Forall (fun att => exists name, at_path att = join2 out_dir name /\ plain_md name) new
  /\ created = map at_path (filter (fun att => match at_outcome att with
                                               | WriteOk => true
                                               | _ => false
                                               end) new).

Lemma save_article_written (out_dir doc_base_name : pystr) (st st' : SaveState) (i : nat)
    (a : Document) :
  save_article try_write out_dir (sanitize_string_for_filename doc_base_name 40) st i a
  = Ok st' ->
  exists new created,
    fs_log st' = fs_log st ++ new
    /\ created_files st' = created_files st ++ created
    /\ written_in out_dir new created.
Proof.
  unfold save_article. cbv zeta.
  set (prefix := sanitize_string_for_filename doc_base_name 40).
  set (content := render_markdown i a).
  set (p1 := join2 out_dir (synthesize_filename prefix i a)).
  set (p2 := join2 out_dir (fallback_filename prefix i)).
  assert (H1 : exists name, p1 = join2 out_dir name /\ plain_md name)
    by (eexists; split; [reflexivity | apply synthesized_plain]).
  assert (H2 : exists name, p2 = join2 out_dir name /\ plain_md name)
    by (eexists; split; [reflexivity | apply fallback_plain]).
  destruct (try_write (fs_log st) p1 content).
  - intros H. injection H as <-. exists [mkAttempt p1 content WriteOk], [p1].
    repeat split. repeat constructor. exact H1.
  - destruct (try_write _ p2 content); intros H; try discriminate; injection H as <-.
    + exists [mkAttempt p1 content WriteOSError; mkAttempt p2 content WriteOk], [p2].
      cbn [fs_log created_files]. rewrite <- app_assoc. repeat split.
      repeat constructor; assumption.
    + exists [mkAttempt p1 content WriteOSError; mkAttempt p2 content WriteOSError], [].
      cbn [fs_log created_files]. rewrite <- app_assoc, app_nil_r. repeat split.
      repeat constructor; assumption.
  - discriminate.
Qed.

Lemma written_in_app (out_dir : pystr) (n1 n2 : FsLog) (c1 c2 : list pystr) :
  written_in out_dir n1 c1 -> written_in out_dir n2 c2 ->
  written_in out_dir (n1 ++ n2) (c1 ++ c2).
Proof.
  intros [A1 B1] [A2 B2]. split.
  - apply Forall_app. now split.
  - rewrite filter_app, map_app. now subst.
Qed.

Lemma save_loop_written (out_dir doc_base_name : pystr) (articles : list Document) :
  forall (st st' : SaveState) (i : nat),
    save_loop try_write out_dir (sanitize_string_for_filename doc_base_name 40)
      st i articles = Ok st' ->
    exists new created,
      fs_log st' = fs_log st ++ new
      /\ created_files st' = created_files st ++ created
      /\ written_in out_dir new created.
Proof.
  induction articles as [|a rest IH]; intros st st' i H; cbn [save_loop] in H.
  - injection H as <-. exists [], []. rewrite !app_nil_r. repeat split. constructor.
  - unfold bind in H.
    destruct (save_article try_write out_dir _ st i a) as [st1|] eqn:E; [|discriminate].
    apply save_article_written in E. destruct E as (n1 & c1 & L1 & C1 & W1).
    apply IH in H. destruct H as (n2 & c2 & L2 & C2 & W2).
    exists (n1 ++ n2), (c1 ++ c2). rewrite L2, L1, C2, C1, !app_assoc.
    split; [reflexivity|]. split; [reflexivity|]. now apply written_in_app.
Qed.

(** Every file that [save_articles_to_markdown] tries to write lies directly
    in the output directory and has a name that ends in [.md]; the paths it
    returns are those of the writes that succeeded, in order. *)
Theorem articles_written_inside_output_dir (log : FsLog) (articles : list Document)
    (out_dir doc_base_name : pystr) (saved : SaveState)
    (Hrun : save_articles_to_markdown try_write makedirs log articles out_dir doc_base_name
            = Ok saved) :
  exists new,
    fs_log saved = log ++ new
    /\ Forall (fun att => exists name,
                 at_path att = join2 out_dir name
                 /\ basename (at_path att) = name
                 /\ ~ In SLASH name
                 /\ endswith name lit_md = true) new
    /\ created_files saved
       = map at_path (filter (fun att => match at_outcome att with
                                         | WriteOk => true
                                         | _ => false
                                         end) new).
Proof.
  unfold save_articles_to_markdown in Hrun.
  destruct (makedirs log out_dir); [discriminate|].
  apply save_loop_written in Hrun. destruct Hrun as (new & created & L & C & [W1 W2]).
  cbn [fs_log created_files app] in L, C. exists new. split; [exact L|]. split.
  - eapply Forall_impl; [|exact W1]. intros att (name & Hp & Hs & He).
    exists name. repeat split; try assumption.
    rewrite Hp. exact (proj1 (join2_plain out_dir name Hs)).
  - now rewrite C, W2.
Qed.

End WithDisk.

End PathFacts.

Section PathWitness.
Import PyStr Re Exn OsPath Processor.

Lemma articles_written_inside_output_dir_witness :
  exists new,
    fs_log (mkSaveState
              [mkAttempt (py "out/doc_Статья_1_Закон_текст.md")
                 (render_markdown 0 toy_article) WriteOk]
              [py "out/doc_Статья_1_Закон_текст.md"])
    = [] ++ new
    /\ Forall (fun att => exists name,
                 at_path att = join2 (py "out") name
                 /\ basename (at_path att) = name
                 /\ ~ In SLASH name
                 /\ endswith name lit_md = true) new
    /\ created_files (mkSaveState
              [mkAttempt (py "out/doc_Статья_1_Закон_текст.md")
                 (render_markdown 0 toy_article) WriteOk]
              [py "out/doc_Статья_1_Закон_текст.md"])
       = map at_path (filter (fun att => match at_outcome att with
                                         | WriteOk => true
                                         | _ => false
                                         end) new).
Proof.
  apply (articles_written_inside_output_dir writable_disk (fun _ _ => None) []
           [toy_article] (py "out") (py "doc")).
  vm_compute. reflexivity.
Defined.

End PathWitness.

(** ** Segmentation: the articles, read off the sentences *)

Section ShapeFacts.
Import PyStr Re Processor.

(** What the loop takes a sentence for. *)
Inductive Line : Type :=
| Blank
| SectionHeading (t : pystr)
| ChapterHeading (t : pystr)
| ParagraphHeading (t : pystr)
| ArticleHeading (t : pystr)
| Text.

Definition classify (raw : pystr) : Line :=
  let sent_text := strip raw in
  if negb (truthy sent_text) then Blank
  else match matched_title section_start_pattern sent_text with
       | Some t => SectionHeading t
       | None =>
       match matched_title chapter_start_pattern sent_text with
       | Some t => ChapterHeading t
       | None =>
       match matched_title paragraph_start_pattern sent_text with
       | Some t => ParagraphHeading t
       | None =>
       match matched_title article_start_pattern sent_text with
       | Some t => ArticleHeading t
       | None => Text
       end end end end.

(** The sentences that follow an article heading and belong to its article:
    those before the next heading of any kind, blank ones left out. *)
Fixpoint body_of (sents : list pystr) : list pystr :=
  match sents with
  | [] => []
  | raw :: rest =>
      match classify raw with
      | Blank => body_of rest
      | Text => strip raw :: body_of rest
      | _ => []
      end
  end.

(** The articles of a list of sentences, given the section, chapter and
    paragraph in force at its start. *)
Fixpoint articles_from (sec chap par : option pystr) (sents : list pystr)
  : list Document :=
  match sents with
  | [] => []
  | raw :: rest =>
      match classify raw with
      | SectionHeading t => articles_from (Some t) None None rest
      | ChapterHeading t => articles_from sec (Some t) None rest
      | ParagraphHeading t => articles_from sec chap (Some t) rest
      | ArticleHeading t =>
          mkDocument (strip (join [LF] (strip raw :: body_of rest)))
            (mkMetadata (Some t) sec chap par None None)
          :: articles_from sec chap par rest
      | Blank | Text => articles_from sec chap par rest
      end
  end.

Definition kept (o : option pystr) : Prop := keep_if_truthy o = o.

Lemma kept_none : kept None.
Proof. reflexivity. Qed.

Lemma kept_heading (kw raw t : pystr) :
  matched_title (heading_pattern kw) (strip raw) = Some t -> kept (Some t).
Proof.
  intros H. unfold kept, keep_if_truthy. cbn [truthy_opt].
  assert (Ht := matched_title_nonempty _ _ t (heading_min_len kw) H).
  apply truthy_nonempty in Ht. now rewrite Ht.
Qed.

(** The state of the loop, as far as the articles still to come depend on
    it. *)
Definition shape_ok (st : SegState) : Prop :=
  kept (current_section_title st)
  /\ kept (current_chapter_title st)
  /\ kept (current_paragraph_title st)
  /\ match current_article_full_title st with
     | Some t => truthy t = true /\ current_article_content st <> []
     | None => True
     end.

(** The article that the open buffer gives once [more] sentences have been
    added to it. *)
Definition close (st : SegState) (more : list pystr) : list Document :=
  match current_article_full_title st with
  | Some t =>
      [ mkDocument (strip (join [LF] (current_article_content st ++ more)))
          (mkMetadata (Some t) (current_section_title st) (current_chapter_title st)
             (current_paragraph_title st) None None) ]
  | None => []
  end.

Lemma flush_close (st : SegState) :
  shape_ok st ->
  langchain_articles (add_article_to_list st) = langchain_articles st ++ close st [].
Proof.
  intros (Hs & Hc & Hp & Ho). unfold add_article_to_list, close.
  cbn [langchain_articles].
  destruct (current_article_full_title st) as [t|]; [|now rewrite app_nil_r].
  destruct Ho as [Ht Hne]. rewrite Ht, app_nil_r.
  destruct (current_article_content st) as [|x l] eqn:E; [contradiction|].
  unfold kept in *. now rewrite Hs, Hc, Hp.
Qed.

Lemma scan_shape (sents : list pystr) :
  forall st, shape_ok st ->
    langchain_articles (add_article_to_list (seg_scan st sents))
    = langchain_articles st
      ++ close st (body_of sents)
      ++ articles_from (current_section_title st) (current_chapter_title st)
           (current_paragraph_title st) sents.
Proof.
  induction sents as [|raw rest IH]; intros st Hok.
  - cbn [seg_scan fold_left body_of articles_from]. rewrite app_nil_r.
    now apply flush_close.
  - cbn [seg_scan fold_left body_of articles_from]. fold (seg_scan (seg_step st raw) rest).
    assert (Hflush := flush_close st Hok).
    destruct Hok as (Hs & Hc & Hp & Ho).
    assert (Hhead : forall sec chap par,
              kept sec -> kept chap -> kept par ->
              let st' := mkSegState (langchain_articles (add_article_to_list st))
                           (current_article_full_title (add_article_to_list st))
                           (current_article_content (add_article_to_list st))
                           sec chap par in
              langchain_articles (add_article_to_list (seg_scan st' rest))
              = langchain_articles st ++ close st []
                ++ articles_from sec chap par rest).
    { intros sec chap par Ks Kc Kp st'.
      rewrite (IH st') by (repeat split; assumption).
      assert (Hc' : close st' (body_of rest) = []) by reflexivity.
      rewrite Hc'.
      change (langchain_articles st') with (langchain_articles (add_article_to_list st)).
      rewrite Hflush. cbn [app]. now rewrite <- app_assoc. }
    unfold seg_step, classify. cbv zeta.
    destruct (flush_closes st) as [Hcl1 Hcl2].
    destruct (flush_keeps_hierarchy st) as (Hk1 & Hk2 & Hk3).
    remember (add_article_to_list st) as fl eqn:Hfl in *.
    rewrite ?Hk1, ?Hk2, ?Hk3.
    destruct (truthy (strip raw)) eqn:Et; cbn [negb].
    2:{ apply IH. repeat split; assumption. }
    destruct (matched_title section_start_pattern (strip raw)) as [t|] eqn:E1.
    { apply Hhead; [exact (kept_heading _ _ _ E1) | exact kept_none | exact kept_none]. }
    destruct (matched_title chapter_start_pattern (strip raw)) as [t|] eqn:E2.
    { apply Hhead; [exact Hs | exact (kept_heading _ _ _ E2) | exact kept_none]. }
    destruct (matched_title paragraph_start_pattern (strip raw)) as [t|] eqn:E3.
    { apply Hhead; [exact Hs | exact Hc | exact (kept_heading _ _ _ E3)]. }
    destruct (matched_title article_start_pattern (strip raw)) as [t|] eqn:E4.
    + rewrite IH.
      * unfold close at 1.
        cbn [langchain_articles current_section_title current_chapter_title
             current_paragraph_title current_article_full_title
             current_article_content].
        rewrite Hflush, Hcl2. cbn [app]. now rewrite <- !app_assoc.
      * repeat split; try assumption.
        -- cbn [current_article_full_title].
           apply truthy_nonempty.
           exact (matched_title_nonempty _ _ t article_min_len E4).
        -- cbn [current_article_content]. rewrite Hcl2. discriminate.
    + unfold close. destruct (current_article_full_title st) as [t|] eqn:Eo;
        cbn [truthy_opt].
      * destruct Ho as [Ht Hne]. rewrite Ht. rewrite IH.
        -- cbn [langchain_articles current_section_title current_chapter_title
                current_paragraph_title]. unfold close.
           cbn [current_article_full_title current_article_content].
           now rewrite <- app_assoc.
        -- repeat split; try assumption. cbn [current_article_content].
           now destruct (current_article_content st).
      * rewrite IH by (repeat split; try assumption; now rewrite Eo).
        unfold close. now rewrite Eo.
Qed.

(** The articles of a text are those of its article headings, in order: each
    has the heading's title, the section, chapter and paragraph titles in
    force at the heading (a section heading clears chapter and paragraph, a
    chapter heading clears the paragraph), and as content the heading
    sentence and the sentences after it up to the next heading of any kind,
    each stripped, blank ones dropped, joined by line feeds and stripped.
    Sentences outside such a run appear in no article. *)
Theorem articles_read_off_sentences (sents : list pystr) :
  segment_sentences sents = articles_from None None None sents.
Proof.
  unfold segment_sentences. rewrite scan_shape.
  - reflexivity.
  - repeat split.
Qed.

End ShapeFacts.

(** ** The worker: what a finished job holds *)

Section OutcomeFacts.
Import PyStr Exn OsPath Processor Main.
Local Open Scope Z_scope.

Variable E : Environment.

(** The fields of a job entry that only the end of the worker writes. *)
Definition untouched (j0 j : Job) : Prop :=
  created_at j = created_at j0
  /\ files_count j = files_count j0
  /\ merge_mode j = merge_mode j0
  /\ total_articles j = total_articles j0
  /\ error j = error j0
  /\ zip_path j = zip_path j0.

Lemma untouched_refl (j : Job) : untouched j j.
Proof. now repeat split. Qed.

Lemma untouched_trans (a b c : Job) : untouched a b -> untouched b c -> untouched a c.
Proof. unfold untouched. intuition congruence. Qed.

Lemma process_files_untouched (merge : bool) (ob md : pystr) (n : nat)
    (files : list pystr) :
  forall (idx total : nat) (w w' : Worker) (r : result nat),
    process_files E merge ob md n idx files total w = (w', r) ->
    untouched (job w) (job w').
Proof.
  induction files as [|fp rest IH]; intros idx total w w' r H; cbn [process_files] in H.
  - injection H as <- _. apply untouched_refl.
  - cbv zeta in H.
    destruct (progress_of idx n) as [percent_|e];
      [|injection H as <- _; now repeat split].
    set (w1 := assign (set_progress percent_)
                 (assign (set_message (file_message idx n fp)) w)) in *.
    assert (H1 : untouched (job w) (job w1)) by now repeat split.
    destruct (snd _) as [e|]; [injection H as <- _; exact H1|].
    match type of H with
    | context [run_document E ?l fp ?d] =>
        destruct (run_document E l fp d) as [[log' res]|e]
    end; [|injection H as <- _; exact H1].
    apply IH in H. exact (untouched_trans _ _ _ H1 H).
Qed.

Lemma try_block_outcome (job_id : pystr) (files : list pystr) (merge : bool)
    (w w' : Worker) (o : option pyexn) :
  try_block E job_id files merge w = (w', o) ->
  match o with
  | Some _ => untouched (job w) (job w')
  | None =>
      status (job w') = COMPLETED
      /\ progress (job w') = 100
      /\ message (job w') = lit_completed
      /\ (exists total, total_articles (job w') = Some total)
      /\ zip_path (job w') = Some (join2 (join2 TEMP_DIR job_id) (job_id ++ lit_zip))
      /\ error (job w') = error (job w)
      /\ created_at (job w') = created_at (job w)
      /\ files_count (job w') = files_count (job w)
      /\ merge_mode (job w') = merge_mode (job w)
  end.
Proof.
  unfold try_block. cbv zeta.
  set (w1 := assign (set_message lit_processing) (assign (set_status PROCESSING) w)).
  assert (H1 : untouched (job w) (job w1)) by now repeat split.
  destruct (raised (path_mkdir E (fs w1) _)) as [e|]; [intros H; now injection H as <- <-|].
  destruct (raised (if merge then _ else None)) as [e|];
    [intros H; now injection H as <- <-|].
  destruct (process_files E merge _ _ (length files) 0 files 0 w1) as [w2 [total|e]] eqn:Ep;
    apply process_files_untouched in Ep;
    assert (H2 := untouched_trans _ _ _ H1 Ep).
  - destruct (raised (create_zip_archive E _ _ _)) as [e|]; intros H; injection H as <- <-.
    + exact H2.
    + destruct H2 as (A & B & C & D & F & G). cbn.
      repeat split; try assumption. now exists total.
  - intros H. injection H as <- <-. exact H2.
Qed.

(** When the worker returns, a job that [upload_documents] registered is
    either completed, with progress 100, a total and the path of the archive
    and no error, or failed, with progress 0 and an error and neither total
    nor archive; the time of creation, the number of files and the mode are
    as registered. *)
Theorem finished_job_is_completed_or_failed (now : Z) (job_id : pystr)
    (files : list pystr) (merge : bool) (log : FsLog) :
  let j := job (process_documents_job E job_id files merge
                  (start_worker (new_job now (length files) merge) log)) in
  ((status j = COMPLETED /\ progress j = 100 /\ message j = lit_completed
    /\ error j = None
    /\ zip_path j = Some (join2 (join2 TEMP_DIR job_id) (job_id ++ lit_zip))
    /\ exists total, total_articles j = Some total)
   \/ (status j = FAILED /\ progress j = 0 /\ message j = lit_failed
       /\ total_articles j = None /\ zip_path j = None
       /\ exists msg, error j = Some msg))
  /\ created_at j = now /\ files_count j = length files /\ merge_mode j = merge.
Proof.
  cbv zeta. unfold process_documents_job.
  destruct (try_block E job_id files merge _) as [w' [e|]] eqn:Et;
    apply try_block_outcome in Et; cbn [start_worker job] in Et.
  - destruct Et as (A & B & C & D & F & G). cbn in *.
    split; [right|now repeat split].
    repeat split; try assumption. now exists (exn_str e).
  - destruct Et as (A & B & C & D & F & G & H & I & J). cbn in *.
    split; [left|now repeat split]. now repeat split.
Qed.

End OutcomeFacts.

(** ** The registry of jobs *)

Section RegistryFacts.
Import PyStr Exn OsPath Processor Main PathLib Api.
Local Open Scope Z_scope.

Definition keys (jobs : Jobs) : list pystr := map fst jobs.

Lemma str_eqb_sym (a b : pystr) : str_eqb a b = str_eqb b a.
Proof.
  destruct (str_eqb b a) eqn:E.
  - apply str_eqb_eq in E. subst. apply str_eqb_refl.
  - destruct (str_eqb a b) eqn:F; [|reflexivity].
    apply str_eqb_eq in F. subst. now rewrite str_eqb_refl in E.
Qed.

Lemma lookup_absent (job_id : pystr) (jobs : Jobs) :
  lookup job_id jobs = None <-> ~ In job_id (keys jobs).
Proof.
  induction jobs as [|[k j] rest IH]; cbn [lookup keys map fst snd In].
  - tauto.
  - destruct (str_eqb k job_id) eqn:E.
    + apply str_eqb_eq in E. split; [discriminate | intros H; exfalso; apply H; now left].
    + rewrite IH. split; [|tauto].
      intros H [K|K]; [|contradiction]. subst. now rewrite str_eqb_refl in E.
Qed.

Lemma lookup_del_same (job_id : pystr) (jobs : Jobs) :
  lookup job_id (del_job job_id jobs) = None.
Proof.
  induction jobs as [|[k j] rest IH]; [reflexivity|]. cbn [del_job filter fst].
  destruct (str_eqb k job_id) eqn:E; cbn [negb]; [exact IH|].
  cbn [lookup fst]. now rewrite E.
Qed.

Lemma lookup_del_other (job_id other : pystr) (jobs : Jobs) :
  other <> job_id -> lookup other (del_job job_id jobs) = lookup other jobs.
Proof.
  intros Hne. induction jobs as [|[k j] rest IH]; [reflexivity|].
  cbn [del_job filter fst]. destruct (str_eqb k job_id) eqn:E; cbn [negb lookup fst snd].
  - apply str_eqb_eq in E. subst k.
    rewrite (str_eqb_neq job_id other) by congruence. exact IH.
  - destruct (str_eqb k other); [reflexivity | exact IH].
Qed.

Lemma lookup_set_same (job_id : pystr) (j : Job) (jobs : Jobs) :
  lookup job_id (set_job job_id j jobs) = Some j.
Proof.
  induction jobs as [|[k j0] rest IH]; cbn [set_job lookup fst snd].
  - now rewrite str_eqb_refl.
  - destruct (str_eqb k job_id) eqn:E; cbn [lookup fst snd]; now rewrite E.
Qed.

Lemma lookup_set_other (job_id other : pystr) (j : Job) (jobs : Jobs) :
  other <> job_id -> lookup other (set_job job_id j jobs) = lookup other jobs.
Proof.
  intros Hne. induction jobs as [|[k j0] rest IH]; cbn [set_job lookup fst snd].
  - now rewrite (str_eqb_neq job_id other) by congruence.
  - destruct (str_eqb k job_id) eqn:E; cbn [lookup fst snd].
    + apply str_eqb_eq in E. subst k.
      now rewrite (str_eqb_neq job_id other) by congruence.
    + destruct (str_eqb k other); [reflexivity | exact IH].
Qed.

Lemma keys_set_job (job_id : pystr) (j : Job) (jobs : Jobs) :
  keys (set_job job_id j jobs)
  = if in_set job_id (keys jobs) then keys jobs else keys jobs ++ [job_id].
Proof.
  induction jobs as [|[k j0] rest IH]; [reflexivity|].
  cbn [set_job keys map fst in_set existsb]. rewrite (str_eqb_sym job_id k).
  destruct (str_eqb k job_id) eqn:E; cbn [orb map fst]; [reflexivity|].
  fold (keys (set_job job_id j rest)). rewrite IH. fold (keys rest).
  unfold in_set. now destruct (existsb _ (keys rest)).
Qed.

Lemma set_job_NoDup (job_id : pystr) (j : Job) (jobs : Jobs) :
  NoDup (keys jobs) -> NoDup (keys (set_job job_id j jobs)).
Proof.
  intros H. rewrite keys_set_job. destruct (in_set job_id (keys jobs)) eqn:E; [exact H|].
  apply NoDup_app; [exact H | repeat constructor; intros [] |].
  intros x Hx [<-|[]]. apply in_set_In in Hx. congruence.
Qed.

Lemma keys_filter_incl (f : pystr * Job -> bool) (jobs : Jobs) :
  forall k, In k (keys (filter f jobs)) -> In k (keys jobs).
Proof.
  intros k H. unfold keys in *. apply in_map_iff in H. destruct H as (x & <- & Hx).
  apply filter_In in Hx. apply in_map. tauto.
Qed.

Lemma filter_NoDup (f : pystr * Job -> bool) (jobs : Jobs) :
  NoDup (keys jobs) -> NoDup (keys (filter f jobs)).
Proof.
  induction jobs as [|x rest IH]; cbn [keys map filter]; intros H; [constructor|].
  inversion H as [|? ? Hx Hr]; subst. destruct (f x); [|now apply IH].
  cbn [map]. constructor; [|now apply IH].
  intros K. apply Hx. exact (keys_filter_incl f rest _ K).
Qed.

(** In a dictionary an item is known by its key. *)
Lemma same_key_same_item (jobs : Jobs) (a b : pystr * Job) :
  NoDup (keys jobs) -> In a jobs -> In b jobs -> fst a = fst b -> a = b.
Proof.
  induction jobs as [|x rest IH]; cbn [keys map In]; intros H Ha Hb E; [contradiction|].
  inversion H as [|? ? Hx Hr]; subst.
  destruct Ha as [<-|Ha], Hb as [<-|Hb]; [reflexivity| | |now apply IH].
  - exfalso. apply Hx. rewrite E. now apply in_map.
  - exfalso. apply Hx. rewrite <- E. now apply in_map.
Qed.

Lemma lookup_filter (f : Job -> bool) (job_id : pystr) (jobs : Jobs) :
  NoDup (keys jobs) ->
  lookup job_id (filter (fun item => f (snd item)) jobs)
  = match lookup job_id jobs with
    | Some j => if f j then Some j else None
    | None => None
    end.
Proof.
  induction jobs as [|[k j] rest IH]; cbn [keys map filter lookup fst snd]; intros H;
    [reflexivity|].
  inversion H as [|? ? Hx Hr]; subst.
  destruct (str_eqb k job_id) eqn:E.
  - destruct (f j) eqn:F; cbn [lookup fst snd]; [now rewrite E|].
    apply str_eqb_eq in E. subst k. apply lookup_absent.
    intros K. apply Hx. exact (keys_filter_incl _ rest _ K).
  - destruct (f j); cbn [lookup fst snd]; [rewrite E|]; now apply IH.
Qed.

Section WithDisk.
Variable path_exists : Disk -> pystr -> bool.
Variable format_status : JobStatus -> pystr.

Definition expired (cutoff_time : Z) (item : pystr * Job) : bool :=
  created_at (snd item) <? cutoff_time.

(** The loop deletes the keys of the expired items it has gone through. *)
Lemma cleanup_fold (cutoff_time : Z) (todo : Jobs) :
  forall (cur : Jobs) (disk : Disk),
    fst (fold_left (cleanup_step path_exists cutoff_time) todo (cur, disk))
    = filter (fun item =>
                negb (existsb (fun o => expired cutoff_time o
                                        && str_eqb (fst o) (fst item)) todo)) cur.
Proof.
  induction todo as [|o rest IH]; intros cur disk; cbn [fold_left existsb].
  - cbn [negb fst]. induction cur as [|x t IHc]; [reflexivity|].
    cbn [filter]. now rewrite <- IHc.
  - unfold cleanup_step at 2. cbv zeta. fold (expired cutoff_time o).
    destruct (expired cutoff_time o) eqn:Eo; cbn [andb orb fst snd].
    + rewrite IH. unfold del_job.
      induction cur as [|x t IHc]; [reflexivity|]. cbn [filter].
      rewrite (str_eqb_sym (fst o) (fst x)).
      destruct (str_eqb (fst x) (fst o)); cbn [negb orb filter]; now rewrite IHc.
    + apply IH.
Qed.

Lemma cleanup_disk (cutoff_time : Z) (todo : Jobs) :
  forall (cur : Jobs) (disk : Disk),
    let disk' := snd (fold_left (cleanup_step path_exists cutoff_time) todo (cur, disk)) in
    made_dirs disk' = made_dirs disk
    /\ written disk' = written disk
    /\ exists dirs,
         removed_dirs disk' = removed_dirs disk ++ dirs
         /\ incl dirs (map (fun item => to_str (job_dir_of (fst item)))
                         (filter (expired cutoff_time) todo)).
Proof.
  induction todo as [|o rest IH]; intros cur disk; cbn [fold_left].
  - cbn. split; [reflexivity|]. split; [reflexivity|]. exists []. split.
    + now rewrite app_nil_r.
    + intros x [].
  - assert (Hstep : cleanup_step path_exists cutoff_time (cur, disk) o
                    = if expired cutoff_time o
                      then (del_job (fst o) cur,
                            rmtree_if_exists path_exists (to_str (job_dir_of (fst o))) disk)
                      else (cur, disk)) by reflexivity.
    rewrite Hstep. cbn [filter].
    destruct (expired cutoff_time o) eqn:Eo.
    + specialize (IH (del_job (fst o) cur)
                    (rmtree_if_exists path_exists (to_str (job_dir_of (fst o))) disk)).
      cbv zeta in *. destruct IH as (A & B & dirs & C & D).
      unfold rmtree_if_exists in *.
      destruct (path_exists disk (to_str (job_dir_of (fst o)))); cbn [made_dirs written
        removed_dirs] in *.
      * split; [exact A|]. split; [exact B|].
        exists (to_str (job_dir_of (fst o)) :: dirs). split.
        -- rewrite C, <- app_assoc. reflexivity.
        -- cbn [map]. intros x [<-|Hx]; [now left | right; now apply D].
      * split; [exact A|]. split; [exact B|]. exists dirs. split; [exact C|].
        cbn [map]. intros x Hx. right. now apply D.
    + apply IH.
Qed.

(** [cleanup_old_jobs] drops from the registry exactly the jobs created more
    than an hour before [now], whatever their status, and keeps the others
    as they are and in their order; the keys stay distinct; on the disk it
    only removes directories of dropped jobs. *)
Theorem cleanup_drops_exactly_the_old_jobs (now : Z) (jobs : Jobs) (disk : Disk)
    (Hkeys : NoDup (keys jobs)) :
  let after := cleanup_old_jobs path_exists now jobs disk in
  fst after = filter (fun item => negb (created_at (snd item) <? now - 3600000000)) jobs
  /\ (forall job_id,
        lookup job_id (fst after)
        = match lookup job_id jobs with
          | Some job_data =>
              if created_at job_data <? now - 3600000000 then None else Some job_data
          | None => None
          end)
  /\ NoDup (keys (fst after))
  /\ made_dirs (snd after) = made_dirs disk
  /\ written (snd after) = written disk
  /\ exists dirs,
       removed_dirs (snd after) = removed_dirs disk ++ dirs
       /\ incl dirs
            (map (fun item => to_str (job_dir_of (fst item)))
               (filter (fun item => created_at (snd item) <? now - 3600000000) jobs)).
Proof.
  cbv zeta. unfold cleanup_old_jobs. cbv zeta. change CLEANUP_TIMEOUT with 3600000000.
  set (cutoff := now - 3600000000).
  assert (Hf : fst (fold_left (cleanup_step path_exists cutoff) jobs (jobs, disk))
               = filter (fun item => negb (created_at (snd item) <? cutoff)) jobs).
  { rewrite cleanup_fold. apply filter_ext_in. intros item Hin. f_equal.
    fold (expired cutoff item).
    destruct (expired cutoff item) eqn:Ei.
    - apply existsb_exists. exists item. now rewrite Ei, str_eqb_refl.
    - destruct (existsb _ jobs) eqn:Ex; [|reflexivity].
      apply existsb_exists in Ex. destruct Ex as (o & Ho & Hand).
      apply andb_prop in Hand. destruct Hand as [Hold Hkey].
      apply str_eqb_eq in Hkey.
      rewrite (same_key_same_item jobs o item Hkeys Ho Hin Hkey) in Hold. congruence. }
  split; [exact Hf|]. rewrite Hf. split; [|split].
  - intros job_id.
    rewrite (lookup_filter (fun j => negb (created_at j <? cutoff)) job_id jobs Hkeys).
    destruct (lookup job_id jobs) as [j|]; [|reflexivity].
    now destruct (created_at j <? cutoff).
  - now apply filter_NoDup.
  - exact (cleanup_disk cutoff jobs jobs disk).
Qed.

(** A result is served only for a completed job whose archive exists; once
    the cleanup scheduled with the response has run, the job is unknown to
    the status and the download endpoints, and the other jobs are as
    before. *)
Theorem downloaded_job_is_forgotten (job_id : pystr) (jobs : Jobs) (disk : Disk)
    (response : FileResponse) (task : option Task)
    (Hserved : download_result path_exists format_status job_id jobs disk
               = (Respond response, task)) :
  (exists job_data,
     lookup job_id jobs = Some job_data
     /\ status job_data = COMPLETED
     /\ zip_path job_data = Some (fr_path response)
     /\ path_exists disk (fr_path response) = true)
  /\ task = Some (CleanupJob job_id)
  /\ let after := cleanup_job path_exists job_id jobs disk in
     get_job_status job_id (fst after) = HTTPException 404 lit_job_not_found
     /\ download_result path_exists format_status job_id (fst after) (snd after)
        = (HTTPException 404 lit_job_not_found, None)
     /\ (forall other, other <> job_id ->
           get_job_status other (fst after) = get_job_status other jobs)
     /\ (NoDup (keys jobs) -> NoDup (keys (fst after))).
Proof.
  unfold download_result in Hserved.
  destruct (lookup job_id jobs) as [job_data|] eqn:El; [|discriminate].
  destruct (status job_data) eqn:Es; try discriminate.
  destruct (zip_path job_data) as [zp|] eqn:Ez; [|discriminate].
  destruct (path_exists disk zp) eqn:Ee; [|discriminate].
  injection Hserved as <- <-. cbn [fr_path].
  split; [now exists job_data|]. split; [reflexivity|].
  cbv zeta. unfold cleanup_job. rewrite El. cbn [fst snd].
  unfold get_job_status, download_result. rewrite lookup_del_same.
  repeat split.
  - intros other Hne. now rewrite lookup_del_other.
  - intros H. now apply filter_NoDup.
Qed.

End WithDisk.

End RegistryFacts.

Section RegistryWitness.
Import PyStr Exn OsPath Processor Main PathLib Api.
Local Open Scope Z_scope.

(** Two jobs, the first created at time 0 and still being processed, the
    second created 5000 seconds later and completed. *)
Definition toy_jobs : Jobs :=
  [ (py "a", set_status PROCESSING (new_job 0 1 false));
    (py "b", set_zip_path (py "/tmp/jobs/b/b.zip")
               (set_status COMPLETED (new_job 5000000000 2 true))) ].

Definition everything_exists (disk : Disk) (path : pystr) : bool := true.

Definition status_value (s : JobStatus) : pystr :=
  match s with
  | PENDING => py "pending"
  | PROCESSING => py "processing"
  | COMPLETED => py "completed"
  | FAILED => py "failed"
  end.

Lemma toy_jobs_keys : NoDup (keys toy_jobs).
Proof.
  constructor; [|constructor; [intros []|constructor]].
  intros [H|[]]. vm_compute in H. discriminate.
Qed.

Lemma cleanup_drops_exactly_the_old_jobs_witness :
  fst (cleanup_old_jobs everything_exists 5000000000 toy_jobs (mkDisk [] [] []))
  = [ (py "b", set_zip_path (py "/tmp/jobs/b/b.zip")
                 (set_status COMPLETED (new_job 5000000000 2 true))) ].
Proof.
  destruct (cleanup_drops_exactly_the_old_jobs everything_exists 5000000000 toy_jobs
              (mkDisk [] [] []) toy_jobs_keys) as [H _].
  rewrite H. vm_compute. reflexivity.
Defined.

Lemma downloaded_job_is_forgotten_witness :
  get_job_status (py "b")
    (fst (cleanup_job everything_exists (py "b") toy_jobs (mkDisk [] [] [])))
  = HTTPException 404 lit_job_not_found.
Proof.
  destruct (downloaded_job_is_forgotten everything_exists status_value (py "b") toy_jobs
              (mkDisk [] [] [])
              (mkFileResponse (py "/tmp/jobs/b/b.zip") lit_application_zip
                 (lit_processed_articles ++ py "b" ++ lit_zip))
              (Some (CleanupJob (py "b"))) eq_refl) as (_ & _ & H & _).
  exact H.
Defined.

End RegistryWitness.

(** ** Uploads *)

Section UploadFacts.
Import PyStr Exn OsPath Extractors Processor Main PathLib Api.
Local Open Scope Z_scope.

Variable unicode_lower : pystr -> nat -> pystr.
Variable path_exists : Disk -> pystr -> bool.
Variable path_mkdir : Disk -> pystr -> option pystr.
Variable write_bytes : Disk -> pystr -> list N -> option pystr.

(** Where [upload_documents] saves a file of the job [uuid]. *)
Definition saved_path (uuid : pystr) (file : UploadFile) : pystr :=
  to_str (truediv (truediv (job_dir_of uuid) lit_uploads) (filename file)).

Lemma save_uploads_spec (uploads_dir : PurePath) (files : list UploadFile) :
  forall (disk disk' : Disk) (acc : list pystr) (r : pystr + list pystr),
    save_uploads write_bytes uploads_dir files disk acc = (disk', r) ->
    removed_dirs disk' = removed_dirs disk
    /\ made_dirs disk' = made_dirs disk
    /\ match r with
       | inr file_paths =>
           file_paths
           = acc ++ map (fun file => to_str (truediv uploads_dir (filename file))) files
           /\ written disk'
              = written disk
                ++ map (fun file => (to_str (truediv uploads_dir (filename file)),
                                     content file, None)) files
       | inl _ => True
       end.
Proof.
  induction files as [|file rest IH]; intros disk disk' acc r H; cbn [save_uploads] in H.
  - injection H as <- <-. cbn [map]. now rewrite !app_nil_r.
  - cbv zeta in H.
    destruct (write_bytes disk _ (content file)) as [message|] eqn:Ew.
    + injection H as <- <-. now repeat split.
    + apply IH in H. cbn [removed_dirs made_dirs written] in H.
      destruct H as (A & B & C). split; [exact A|]. split; [exact B|].
      destruct r as [|file_paths]; [exact I|]. destruct C as [C1 C2].
      cbn [map]. rewrite C1, C2, <- !app_assoc. now split.
Qed.

Lemma split_sep_plain (s : pystr) : ~ In SLASH s -> split_sep s = [s].
Proof.
  induction s as [|c t IH]; intros H; cbn [split_sep]; [reflexivity|].
  destruct (N.eqb_spec c SLASH) as [->|_]; [exfalso; apply H; now left|].
  rewrite IH by (intros K; apply H; now right). reflexivity.
Qed.

(** A name without a slash adds one component to a path, or none if it is
    empty or a single dot. *)
Lemma truediv_plain (p : PurePath) (s : pystr) :
  ~ In SLASH s ->
  truediv p s
  = mkPath (root p)
      (parts p ++ (if truthy s && negb (str_eqb s [DOT]) then [s] else [])).
Proof.
  intros H. unfold truediv, parse, splitroot. cbv zeta.
  assert (Hs : startswith s [SLASH] = false).
  { destruct s as [|c t]; [reflexivity|]. cbn [startswith].
    destruct (N.eqb_spec c SLASH) as [->|_]; [|reflexivity]. exfalso. apply H. now left. }
  rewrite Hs. cbn [fst snd root parts truthy]. rewrite (split_sep_plain s H).
  cbn [filter]. now destruct (truthy s && negb (str_eqb s [DOT])).
Qed.

Lemma join_cons (sep a : pystr) (l : list pystr) :
  l <> [] -> join sep (a :: l) = a ++ sep ++ join sep l.
Proof. intros H. destruct l; [contradiction | reflexivity]. Qed.

Lemma join_app (sep : pystr) (ps qs : list pystr) :
  ps <> [] -> qs <> [] -> join sep (ps ++ qs) = join sep ps ++ sep ++ join sep qs.
Proof.
  intros Hp Hq. induction ps as [|a t IH]; [contradiction|].
  destruct t as [|b t].
  - cbn [app]. now rewrite join_cons.
  - change ((a :: b :: t) ++ qs) with (a :: ((b :: t) ++ qs)).
    rewrite join_cons by discriminate. rewrite IH by discriminate.
    rewrite (join_cons sep a (b :: t)) by discriminate.
    now rewrite <- !app_assoc.
Qed.

Lemma join_snoc_nonempty (sep : pystr) (l : list pystr) (x : pystr) :
  x <> [] -> join sep (l ++ [x]) <> [].
Proof.
  intros Hx. induction l as [|a t IH]; [exact Hx|].
  cbn [app join]. destruct (t ++ [x]) eqn:E; [now destruct t|].
  intros K. apply app_eq_nil in K. destruct K as [_ K].
  apply app_eq_nil in K. destruct K as [_ K]. now apply IH.
Qed.

(** A key has a root exactly when it starts with a slash. *)
Lemma root_parse (s : pystr) : truthy (root (parse s)) = startswith s [SLASH].
Proof.
  unfold parse, splitroot. cbv zeta.
  destruct (startswith s [SLASH]); [|reflexivity].
  cbn [fst root]. now destruct (_ =? 2).
Qed.

(** The directory for the uploads of a job, and where a file goes from
    there. *)
Definition uploads_dir_of (uuid : pystr) : PurePath :=
  truediv (job_dir_of uuid) lit_uploads.

Lemma uploads_dir_parts (uuid : pystr) :
  uploads_dir_of uuid
  = mkPath (root (job_dir_of uuid)) (parts (job_dir_of uuid) ++ [lit_uploads]).
Proof.
  unfold uploads_dir_of. rewrite truediv_plain; [reflexivity|].
  vm_compute. intuition discriminate.
Qed.

Lemma saved_path_shape (uuid : pystr) (file : UploadFile) :
  parts (parse (filename file)) <> [] ->
  saved_path uuid file
  = if startswith (filename file) [SLASH] then to_str (parse (filename file))
    else to_str (uploads_dir_of uuid) ++ [SLASH]
         ++ join [SLASH] (parts (parse (filename file))).
Proof.
  intros Hq. unfold saved_path. fold (uploads_dir_of uuid).
  unfold truediv at 1. cbv zeta. rewrite root_parse.
  destruct (startswith (filename file) [SLASH]); [reflexivity|].
  rewrite uploads_dir_parts. cbn [root parts]. unfold to_str. cbn [root parts].
  set (r := root (job_dir_of uuid)). set (ps := parts (job_dir_of uuid) ++ [lit_uploads]).
  assert (Hps : ps <> []) by (unfold ps; now destruct (parts (job_dir_of uuid))).
  assert (Hj : join [SLASH] ps <> [])
    by (apply join_snoc_nonempty; discriminate).
  rewrite (join_app [SLASH] ps _ Hps Hq).
  assert (T1 : truthy (r ++ join [SLASH] ps) = true).
  { destruct (r ++ join [SLASH] ps) eqn:K; [|reflexivity].
    apply app_eq_nil in K. now destruct K. }
  assert (T2 : truthy (r ++ join [SLASH] ps ++ [SLASH]
                       ++ join [SLASH] (parts (parse (filename file)))) = true).
  { destruct (r ++ join [SLASH] ps ++ _) eqn:K; [|reflexivity].
    apply app_eq_nil in K. destruct K as [_ K]. apply app_eq_nil in K. now destruct K. }
  rewrite T1, T2, <- !app_assoc. reflexivity.
Qed.

(** A file with an allowed extension has a name. *)
Lemma allowed_has_parts (file : UploadFile) :
  extension_allowed unicode_lower file = true -> parts (parse (filename file)) <> [].
Proof.
  unfold extension_allowed, suffix, name. cbv zeta. intros H K. rewrite K in H.
  cbn in H. discriminate.
Qed.

(** The three ways out of [upload_documents]. *)
Lemma upload_outcome (now created : Z) (uuid : pystr) (files : list UploadFile)
    (merge_mode : bool) (jobs : Jobs) (disk : Disk) :
  let cleaned := cleanup_old_jobs path_exists now jobs disk in
  let out := upload_documents unicode_lower path_exists path_mkdir write_bytes
               now created uuid files merge_mode jobs disk in
  (files <> []
   /\ (forall file, In file files -> extension_allowed unicode_lower file = true)
   /\ fst (fst out) = Respond (mkUploadResponse uuid lit_uploaded (length files))
   /\ fst (snd (fst out))
      = set_job uuid (new_job created (length files) merge_mode) (fst cleaned)
   /\ snd out = Some (ProcessDocuments uuid (map (saved_path uuid) files) merge_mode)
   /\ removed_dirs (snd (snd (fst out))) = removed_dirs (snd cleaned)
   /\ made_dirs (snd (snd (fst out)))
      = made_dirs (snd cleaned)
        ++ [to_str (job_dir_of uuid); to_str (truediv (job_dir_of uuid) lit_uploads)]
   /\ written (snd (snd (fst out)))
      = written (snd cleaned)
        ++ map (fun file => (saved_path uuid file, content file, None)) files)
  \/ ((forall response, fst (fst out) <> Respond response)
      /\ fst (snd (fst out)) = fst cleaned
      /\ snd out = None).
Proof.
  cbv zeta. unfold upload_documents. cbv zeta.
  set (cleaned := cleanup_old_jobs path_exists now jobs disk).
  destruct files as [|f0 fs]; [right; now repeat split|].
  set (files := f0 :: fs).
  change (match files with [] => true | _ => false end) with false. cbv iota.
  destruct (first_refused unicode_lower files) as [bad|] eqn:Ef;
    [right; now repeat split|].
  destruct (path_mkdir (snd cleaned) _) as [m|]; [right; now repeat split|].
  destruct (path_mkdir _ (to_str (truediv _ lit_uploads))) as [m|];
    [right; now repeat split|].
  destruct (save_uploads write_bytes _ files _ []) as [disk' [m|file_paths]] eqn:Es;
    apply save_uploads_spec in Es; cbn [removed_dirs made_dirs written] in Es;
    [right; now repeat split|].
  left. destruct Es as (A & B & C1 & C2). cbn [fst snd app] in *.
  split; [discriminate|]. split.
  - intros file Hin. unfold first_refused in Ef.
    apply (find_none _ _ Ef) in Hin. now destruct (extension_allowed unicode_lower file).
  - split; [reflexivity|]. split; [reflexivity|]. split; [now rewrite C1|].
    split; [exact A|]. split; [|exact C2].
    rewrite B, <- app_assoc. reflexivity.
Qed.

(** An upload is answered with a job identifier exactly when a job has been
    registered: then there was at least one file, every file had an allowed
    extension, each was written, in the order given, at the path that joins
    the job's upload directory with the file name sent by the client, the
    status endpoint shows the job as pending with progress 0, and the worker
    is scheduled with these paths.  For a file name without a leading slash
    the path is the upload directory followed by the components of the
    name; a file name with a leading slash replaces the directory, so that
    the file is written at that absolute path.  On any other way out no job
    is registered and no task is scheduled.  In both cases the other jobs
    are as [cleanup_old_jobs] left them. *)
Theorem upload_registers_one_pending_job (now created : Z) (uuid : pystr)
    (files : list UploadFile) (merge_mode : bool) (jobs : Jobs) (disk : Disk) :
  let cleaned := cleanup_old_jobs path_exists now jobs disk in
  let out := upload_documents unicode_lower path_exists path_mkdir write_bytes
               now created uuid files merge_mode jobs disk in
  let jobs' := fst (snd (fst out)) in
  (forall other, other <> uuid -> lookup other jobs' = lookup other (fst cleaned))
  /\ ((files <> []
       /\ (forall file, In file files -> extension_allowed unicode_lower file = true)
       /\ fst (fst out) = Respond (mkUploadResponse uuid lit_uploaded (length files))
       /\ get_job_status uuid jobs'
          = Respond (mkJobStatusResponse uuid PENDING 0 lit_queued None None)
       /\ lookup uuid jobs' = Some (new_job created (length files) merge_mode)
       /\ snd out = Some (ProcessDocuments uuid (map (saved_path uuid) files) merge_mode)
       /\ written (snd (snd (fst out)))
          = written (snd cleaned)
            ++ map (fun file => (saved_path uuid file, content file, None)) files
       /\ (forall file, In file files ->
             saved_path uuid file
             = to_str (truediv (truediv (truediv (parse TEMP_DIR) uuid) lit_uploads)
                         (filename file))
             /\ saved_path uuid file
                = if startswith (filename file) [SLASH]
                  then to_str (parse (filename file))
                  else to_str (truediv (truediv (parse TEMP_DIR) uuid) lit_uploads)
                       ++ [SLASH] ++ join [SLASH] (parts (parse (filename file)))))
      \/ ((forall response, fst (fst out) <> Respond response)
          /\ jobs' = fst cleaned
          /\ snd out = None)).
Proof.
  cbv zeta.
  destruct (upload_outcome now created uuid files merge_mode jobs disk)
    as [(A & B & C & D & F & _ & _ & G)|(A & B & C)]; cbv zeta in *.
  - split.
    + intros other Hne. rewrite D. now apply lookup_set_other.
    + left. split; [exact A|]. split; [exact B|]. split; [exact C|].
      unfold get_job_status. rewrite D, lookup_set_same.
      split; [reflexivity|]. split; [reflexivity|]. split; [exact F|].
      split; [exact G|]. intros file Hin. split; [reflexivity|].
      exact (saved_path_shape uuid file (allowed_has_parts file (B file Hin))).
  - split; [intros other _; now rewrite B|]. right. now repeat split.
Qed.

(** *** Accepted files and the extractor *)

Hypothesis lower_nonempty :
  forall s i c, nth_error s i = Some c -> (128 <= c)%N -> unicode_lower s i <> [].
Hypothesis lower_no_ext_char :
  forall s i c x, nth_error s i = Some c -> (128 <= c)%N ->
                  In x (unicode_lower s i) -> is_ext_char x = false.

Lemma ci_prefix_app (s t pre : pystr) :
  ci_prefix s pre = true -> ci_prefix (s ++ t) pre = true.
Proof.
  revert s. induction pre as [|e pre IH]; intros s H; [now destruct (s ++ t)|].
  destruct s as [|c s]; [discriminate|]. cbn [app ci_prefix] in *.
  apply andb_prop in H. destruct H as [H1 H2]. now rewrite H1, IH.
Qed.

Lemma has_extension_app (pre s ext : pystr) :
  has_extension s ext = true -> has_extension (pre ++ s) ext = true.
Proof. unfold has_extension. rewrite rev_app_distr. apply ci_prefix_app. Qed.

Lemma join_snoc (sep : pystr) (l : list pystr) (x : pystr) :
  exists pre, join sep (l ++ [x]) = pre ++ x.
Proof.
  induction l as [|a t IH]; [now exists []|].
  destruct IH as [pre IH]. cbn [app join].
  destruct (t ++ [x]) as [|b u] eqn:E; [now destruct t|].
  exists (a ++ sep ++ pre). rewrite IH, <- !app_assoc. reflexivity.
Qed.

(** A path with a name ends with it, also after it is joined to another. *)
Lemma to_str_truediv_name (base : PurePath) (key : pystr) :
  name (parse key) <> [] ->
  exists pre, to_str (truediv base key) = pre ++ name (parse key).
Proof.
  intros Hn. unfold truediv. cbv zeta. set (q := parse key) in *.
  assert (Hq : exists l, parts q = l ++ [name q]).
  { unfold name in *. destruct (parts q) as [|a t] eqn:E; [contradiction|].
    exists (removelast (a :: t)). now apply app_removelast_last. }
  destruct Hq as [l Hl].
  assert (Hs : forall r ps, exists pre,
             to_str (mkPath r (ps ++ parts q)) = pre ++ name q).
  { intros r ps. unfold to_str. cbn [root parts]. rewrite Hl, app_assoc.
    destruct (join_snoc [SLASH] (ps ++ l) (name q)) as [pre ->].
    exists (r ++ pre). rewrite app_assoc.
    destruct ((r ++ pre) ++ name q) eqn:E; [|reflexivity].
    apply app_eq_nil in E. now destruct E. }
  destruct (truthy (root q)).
  - destruct (Hs (root q) []) as [pre H]. exists pre. now destruct q.
  - apply Hs.
Qed.

Lemma suffix_of_name (p : PurePath) :
  suffix p <> [] -> exists stem, name p = stem ++ suffix p.
Proof.
  unfold suffix. cbv zeta. destruct (_ && _); [|contradiction].
  intros _. exists (firstn (Z.to_nat (rfind DOT (name p))) (name p)).
  now rewrite firstn_skipn.
Qed.

Lemma endswith_refl (s : pystr) : endswith s s = true.
Proof. exact (endswith_app [] s). Qed.

(** A file with an allowed extension is saved under a path that has this
    extension. *)
Lemma allowed_has_extension (base : PurePath) (file : UploadFile) :
  extension_allowed unicode_lower file = true ->
  has_extension (to_str (truediv base (filename file))) ext_docx = true
  \/ has_extension (to_str (truediv base (filename file))) ext_pdf = true.
Proof.
  unfold extension_allowed. intros H. apply in_set_In in H.
  set (p := parse (filename file)) in *.
  assert (Hext : exists ext, (ext = ext_docx \/ ext = ext_pdf)
                             /\ has_extension (suffix p) ext = true).
  { destruct H as [H|[H|[]]].
    - exists ext_docx. split; [now left|].
      rewrite <- (endswith_lower unicode_lower lower_nonempty lower_no_ext_char
                    (suffix p) ext_docx eq_refl).
      change ext_docx with (py ".docx"). rewrite <- H. apply endswith_refl.
    - exists ext_pdf. split; [now right|].
      rewrite <- (endswith_lower unicode_lower lower_nonempty lower_no_ext_char
                    (suffix p) ext_pdf eq_refl).
      change ext_pdf with (py ".pdf"). rewrite <- H. apply endswith_refl. }
  destruct Hext as (ext & Hcase & He).
  assert (Hsfx : suffix p <> []).
  { intros E. rewrite E in He. destruct Hcase as [-> | ->]; discriminate. }
  destruct (suffix_of_name p Hsfx) as [stem Hname].
  assert (Hn : name p <> []).
  { rewrite Hname. intros E. apply app_eq_nil in E. now destruct E. }
  destruct (to_str_truediv_name base (filename file) Hn) as [pre Hp].
  fold p in Hp. rewrite Hp, Hname, app_assoc.
  destruct Hcase as [-> | ->]; [left|right]; now apply has_extension_app.
Qed.

(** Every file path that [upload_documents] hands to the worker is one that
    [extract_text] passes to the DOCX or to the PDF extractor: a file that
    passed the validation of the upload is never refused for its format
    later. *)
Theorem accepted_upload_is_extractable (now created : Z) (uuid : pystr)
    (files : list UploadFile) (merge_mode : bool) (jobs : Jobs) (disk : Disk)
    (reply : Reply UploadResponse) (state : Jobs * Disk)
    (job_id : pystr) (file_paths : list pystr) (mode : bool)
    (Hscheduled : upload_documents unicode_lower path_exists path_mkdir write_bytes
                    now created uuid files merge_mode jobs disk
                  = (reply, state, Some (ProcessDocuments job_id file_paths mode))) :
  length file_paths = length files
  /\ Forall (fun file_path =>
               forall (docx_paragraphs : pystr -> pystr + list pystr)
                      (pdf_pages : pystr -> pystr + list (option pystr)),
                 extract_text unicode_lower docx_paragraphs pdf_pages file_path
                 = extract_from_docx docx_paragraphs file_path
                 \/ extract_text unicode_lower docx_paragraphs pdf_pages file_path
                    = extract_from_pdf pdf_pages file_path)
            file_paths.
Proof.
  destruct (upload_outcome now created uuid files merge_mode jobs disk)
    as [(_ & B & _ & _ & F & _)|(_ & _ & C)]; cbv zeta in *;
    rewrite Hscheduled in *; cbn [fst snd] in *; [|discriminate].
  injection F as -> -> ->. split; [apply length_map|].
  apply Forall_forall. intros file_path Hin. apply in_map_iff in Hin.
  destruct Hin as (file & <- & Hfile). intros docx_paragraphs pdf_pages.
  unfold extract_text. cbv zeta.
  rewrite (endswith_lower unicode_lower lower_nonempty lower_no_ext_char _ ext_docx eq_refl).
  rewrite (endswith_lower unicode_lower lower_nonempty lower_no_ext_char _ ext_pdf eq_refl).
  destruct (has_extension (saved_path uuid file) ext_docx) eqn:D; [now left|].
  destruct (allowed_has_extension (truediv (job_dir_of uuid) lit_uploads) file
              (B file Hfile)) as [H|H].
  - unfold saved_path in D. congruence.
  - unfold saved_path in *. rewrite H. now right.
Qed.

End UploadFacts.

Section UploadWitness.
Import PyStr Exn OsPath Extractors Processor Main PathLib Api.
Local Open Scope Z_scope.

Definition mkdir_succeeds (disk : Disk) (path : pystr) : option pystr := None.

Definition write_succeeds (disk : Disk) (path : pystr) (data : list N) : option pystr :=
  None.

Definition toy_file : UploadFile := mkUploadFile (py "docs/Закон.PDF") [37%N; 80%N].

Lemma accepted_upload_is_extractable_witness :
  length [py "/tmp/jobs/j/uploads/docs/Закон.PDF"] = length [toy_file]
  /\ Forall (fun file_path =>
               forall (docx_paragraphs : pystr -> pystr + list pystr)
                      (pdf_pages : pystr -> pystr + list (option pystr)),
                 extract_text keep_nonascii docx_paragraphs pdf_pages file_path
                 = extract_from_docx docx_paragraphs file_path
                 \/ extract_text keep_nonascii docx_paragraphs pdf_pages file_path
                    = extract_from_pdf pdf_pages file_path)
            [py "/tmp/jobs/j/uploads/docs/Закон.PDF"].
Proof.
  apply (accepted_upload_is_extractable keep_nonascii everything_exists mkdir_succeeds
           write_succeeds keep_nonascii_nonempty keep_nonascii_no_ext_char
           0 0 (py "j") [toy_file] false [] (mkDisk [] [] [])
           (Respond (mkUploadResponse (py "j") lit_uploaded 1))
           (set_job (py "j") (new_job 0 1 false) [],
            mkDisk [] [py "/tmp/jobs/j"; py "/tmp/jobs/j/uploads"]
              [(py "/tmp/jobs/j/uploads/docs/Закон.PDF", [37%N; 80%N], None)])
           (py "j") [py "/tmp/jobs/j/uploads/docs/Закон.PDF"] false).
  vm_compute. reflexivity.
Defined.

End UploadWitness.

(** ** The pipeline for one document *)

Section PipelineFacts.
Import PyStr Exn OsPath Extractors Processor.

Variable unicode_lower : pystr -> nat -> pystr.
Variable nlp : pystr -> pystr + Doc.
Variable docx_paragraphs : pystr -> pystr + list pystr.
Variable pdf_pages : pystr -> pystr + list (option pystr).
Variable try_write : FsLog -> pystr -> pystr -> write_outcome.
Variable makedirs : FsLog -> pystr -> option pystr.

Lemma segment_length (sentences : list pystr) :
  length (segment_sentences sentences) = length (headings sentences).
Proof.
  unfold segment_sentences.
  destruct (seg_scan_titles sentences seg_init I) as [Hok H].
  assert (T := flush_titles _ Hok). rewrite H in T.
  apply (f_equal (@length _)) in T. unfold titles in T.
  cbn [seg_init langchain_articles open_title current_article_full_title map app] in T.
  now rewrite !length_map in T.
Qed.

Definition succeeded (att : Attempt) : bool :=
  match at_outcome att with
  | WriteOk => true
  | _ => false
  end.

(** When [process_document] returns, the number of articles it reports is
    the number of article headings among the sentences of the extracted
    text, the number of files it reports is the number of writes that
    succeeded, which is at most the number of articles, and the document
    name is the base name of the path without its extension. *)
Theorem document_result_counts_headings (log log' : FsLog) (file_path out_dir : pystr)
    (r : DocResult)
    (Hrun : process_document unicode_lower nlp docx_paragraphs pdf_pages try_write
              makedirs log file_path out_dir = Ok (log', r)) :
  exists doc_text spacy_doc new,
    extract_text unicode_lower docx_paragraphs pdf_pages file_path = Ok doc_text
    /\ nlp doc_text = inr spacy_doc
    /\ articles_count r = length (headings (sents spacy_doc))
    /\ log' = log ++ new
    /\ files_created r = length (filter succeeded new)
    /\ files_created r <= articles_count r
    /\ document r = fst (splitext (basename file_path))
    /\ output_dir r = out_dir.
Proof.
  unfold process_document, bind in Hrun. cbv zeta in Hrun.
  unfold extract_text_from_file in Hrun.
  destruct (extract_text _ _ _ file_path) as [doc_text|]; [|discriminate].
  unfold segment_into_articles, bind, call in Hrun.
  destruct (nlp doc_text) as [m|spacy_doc] eqn:En; [discriminate|].
  destruct (enrich_articles_with_metadata unicode_lower nlp _) as [enriched|] eqn:Ee;
    [|discriminate].
  destruct (save_articles_to_markdown _ _ _ _ _ _) as [saved|] eqn:Es; [|discriminate].
  injection Hrun as <- <-. cbn [articles_count files_created document output_dir].
  unfold enrich_articles_with_metadata in Ee. apply mapM_length in Ee.
  unfold save_articles_to_markdown in Es.
  destruct (makedirs log out_dir); [discriminate|].
  assert (Hc := save_loop_count _ _ _ _ _ _ _ Es).
  apply save_loop_written in Es. destruct Es as (new & created & L & C & [_ W]).
  cbn [fs_log created_files app length] in *.
  exists doc_text, spacy_doc, new.
  split; [reflexivity|]. split; [exact En|].
  split; [now rewrite Ee, segment_length|]. split; [exact L|].
  split; [rewrite C, W, length_map; reflexivity|].
  split; [lia|]. now split.
Qed.

End PipelineFacts.

Section PipelineWitness.
Import PyStr Exn OsPath Extractors Processor.

Lemma document_result_counts_headings_witness :
  exists doc_text spacy_doc new,
    extract_text keep_nonascii toy_docx toy_pdf (py "/tmp/jobs/j/uploads/doc.docx")
    = Ok doc_text
    /\ toy_nlp doc_text = inr spacy_doc
    /\ 1 = length (headings (sents spacy_doc))
    /\ [mkAttempt (py "out/doc_Статья_1_Закон_право_суд.md")
          (render_markdown 0
             (mkDocument (py "Статья 1. Закон" ++ [LF] ++ py "Текст.")
                (mkMetadata (Some (py "Статья 1. Закон")) None None None
                   (Some [py "право"; py "суд"]) (Some (py "право")))))
          WriteOk]
       = [] ++ new
    /\ 1 = length (filter succeeded new)
    /\ 1 <= 1
    /\ py "doc" = fst (splitext (basename (py "/tmp/jobs/j/uploads/doc.docx")))
    /\ py "out" = py "out".
Proof.
  apply (document_result_counts_headings keep_nonascii toy_nlp toy_docx toy_pdf
           writable_disk (fun _ _ => None) []
           [mkAttempt (py "out/doc_Статья_1_Закон_право_суд.md")
              (render_markdown 0
                 (mkDocument (py "Статья 1. Закон" ++ [LF] ++ py "Текст.")
                    (mkMetadata (Some (py "Статья 1. Закон")) None None None
                       (Some [py "право"; py "суд"]) (Some (py "право")))))
              WriteOk]
           (py "/tmp/jobs/j/uploads/doc.docx") (py "out")
           (mkDocResult (py "doc") 1 1 (py "out"))).
  vm_compute. reflexivity.
Defined.

End PipelineWitness.

(** ** From the worker to the download *)

Section DeliveryFacts.
Import PyStr Exn OsPath Processor Main PathLib Api.
Local Open Scope Z_scope.

Variable E : Environment.
Variable path_exists : Disk -> pystr -> bool.
Variable format_status : JobStatus -> pystr.

(** Once the worker of a registered job has returned and left its entry in
    the registry, the download endpoint serves the archive of the job, under
    the name [processed_articles_] followed by the identifier and [.zip], if
    the job completed and the archive exists, answers 404 if it completed
    and the archive does not exist, and answers 400 if the job failed; in
    that case the status endpoint reports the error. *)
Theorem download_follows_worker_outcome (now : Z) (job_id : pystr)
    (files : list pystr) (merge : bool) (log : FsLog) (jobs : Jobs) (disk : Disk) :
  let final := job (process_documents_job E job_id files merge
                      (start_worker (new_job now (length files) merge) log)) in
  let jobs' := set_job job_id final jobs in
  let archive := join2 (join2 TEMP_DIR job_id) (job_id ++ lit_zip) in
  (status final = COMPLETED
   /\ download_result path_exists format_status job_id jobs' disk
      = if path_exists disk archive
        then (Respond (mkFileResponse archive lit_application_zip
                         (lit_processed_articles ++ job_id ++ lit_zip)),
              Some (CleanupJob job_id))
        else (HTTPException 404 lit_result_not_found, None))
  \/ (status final = FAILED
      /\ download_result path_exists format_status job_id jobs' disk
         = (HTTPException 400 (lit_not_completed ++ format_status FAILED), None)
      /\ exists msg,
           get_job_status job_id jobs'
           = Respond (mkJobStatusResponse job_id FAILED 0 lit_failed None (Some msg))).
Proof.
  cbv zeta. unfold download_result, get_job_status. rewrite lookup_set_same.
  unfold process_documents_job.
  destruct (try_block E job_id files merge _) as [w' [e|]] eqn:Et;
    apply try_block_outcome in Et; cbn [start_worker job] in Et.
  - right. destruct Et as (A & B & C & D & F & G). cbn in *.
    split; [reflexivity|]. split; [reflexivity|].
    exists (exn_str e). now rewrite D.
  - left. destruct Et as (A & B & C & D & F & G). split; [exact A|].
    now rewrite A, F.
Qed.

End DeliveryFacts.

(** ** Where a completed job has written *)

Section OutputFacts.
Import PyStr Exn OsPath Processor PathLib Main.
Local Open Scope Z_scope.

Variable E : Environment.





(** *** The stem of a file as a directory name *)





End OutputFacts.

Section OutputWitness.
Import PyStr Exn OsPath Processor PathLib Main.
Local Open Scope Z_scope.


End OutputWitness.

(** ** File names of articles that look alike *)

Section NameFacts.
Import PyStr Re OsPath Processor.

Definition keywords_of (a : Document) : list pystr :=
  match keywords (metadata a) with
  | Some l => l
  | None => []
  end.

Lemma slice_two_empty (l : list pystr) : slice_to l 2 = [] -> l = [].
Proof. destruct l; [reflexivity | discriminate]. Qed.

(** The file name of a titled article is made from its title, its section,
    chapter and paragraph titles and its first two keywords only: neither
    its position in the document nor its text enters.  Two articles that
    agree on these get the same name, so that in one output directory the
    later one is written over the earlier one. *)
Theorem alike_articles_share_a_file_name (prefix out_dir title_ : pystr) (i j : nat)
    (a b : Document)
    (Ha : article_title (metadata a) = Some title_)
    (Hb : article_title (metadata b) = Some title_)
    (Hs : section_title (metadata a) = section_title (metadata b))
    (Hc : chapter_title (metadata a) = chapter_title (metadata b))
    (Hp : paragraph_title (metadata a) = paragraph_title (metadata b))
    (Hk : slice_to (keywords_of a) 2 = slice_to (keywords_of b) 2) :
  synthesize_filename prefix i a = synthesize_filename prefix j b
  /\ join2 out_dir (synthesize_filename prefix i a)
     = join2 out_dir (synthesize_filename prefix j b).
Proof.
  assert (H : filename_parts prefix i a = filename_parts prefix j b).
  { unfold filename_parts. cbv zeta. rewrite Ha, Hb, Hs, Hc, Hp. cbn [get_or].
    do 6 f_equal. unfold keywords_of in Hk.
    destruct (keywords (metadata a)) as [ka|], (keywords (metadata b)) as [kb|].
    - destruct ka as [|x ka], kb as [|y kb]; try reflexivity; try discriminate.
      now rewrite Hk.
    - destruct ka; [reflexivity | discriminate].
    - destruct kb; [reflexivity | discriminate].
    - reflexivity. }
  assert (N : synthesize_filename prefix i a = synthesize_filename prefix j b)
    by (unfold synthesize_filename; now rewrite H).
  split; [exact N | now rewrite N].
Qed.

End NameFacts.

Section NameWitness.
Import PyStr Re OsPath Processor.

Lemma alike_articles_share_a_file_name_witness :
  synthesize_filename (py "doc") 0 toy_article
  = synthesize_filename (py "doc") 5
      (mkDocument (py "Статья 1. Закон. Другой текст.")
         (mkMetadata (Some (py "Статья 1. Закон")) None None None
            (Some [py "текст"]) (Some (py "иное"))))
  /\ join2 (py "out") (synthesize_filename (py "doc") 0 toy_article)
     = join2 (py "out")
         (synthesize_filename (py "doc") 5
            (mkDocument (py "Статья 1. Закон. Другой текст.")
               (mkMetadata (Some (py "Статья 1. Закон")) None None None
                  (Some [py "текст"]) (Some (py "иное"))))).
Proof.
  apply (alike_articles_share_a_file_name (py "doc") (py "out") (py "Статья 1. Закон") 0 5
           toy_article);
    vm_compute; reflexivity.
Defined.

End NameWitness.
